(** * Storage lifecycle manager: path resolution, migration handlers, cache pruning

    A shallow embedding of the Electron main-process storage manager
    ([electron/handlers/path-utils.ts], [storage-state.ts], [file-ops.ts] and
    [storage-manager-handlers.ts]) together with the properties stated about it.

    The handlers talk to three platform services that are not part of the
    repository: [node:path], [node:fs] and the Electron [app] object.  They are
    modelled here for a POSIX host:
    - paths are strings, [path.resolve] / [path.join] / [path.dirname] follow
      Node's POSIX implementation segment by segment;
    - the file system is a tree of directories and regular files (no symbolic
      links), every file carrying its modification time and its bytes;
    - [app.getPath('userData')], [os.tmpdir()] and [process.cwd()] are the
      fields of a [Host] record;
    - a file-system call fails where the tree says so (a missing source, a
      regular file in the way, a directory where a file is expected);
      beyond that [fs.promises.cp] can be made to throw through an injected
      fault, leaving an arbitrary residue at its destination.  Removals
      and [unlink] have no injected faults;
    - [Date.now()] is one instant for the length of a handler call, and a
      copy stamps its files with it;
    - [toLowerCase] and [trim] act on ASCII letters and ASCII white space;
    - asynchronous calls are run in program order ([await] is sequencing);
      a call that is started and not awaited is handed back as started, not
      run.

    Numbers are integers: days, milliseconds and byte counts are in [Z]. *)

From Stdlib Require Import String Ascii List ZArith Lia Bool DecimalString.
Import ListNotations.
Local Open Scope string_scope.
Local Open Scope Z_scope.

(* ================================================================== *)
(** * JavaScript string primitives *)
(* ================================================================== *)

Module JsString.

(** [String.prototype.toLowerCase] for strings of ASCII characters, where
    it folds the letters [A] to [Z] and nothing else.  A character above
    127 is left as it is, where JavaScript folds the cased letters outside
    ASCII too: what is stated about the action of the fold on letters is
    stated for ASCII strings ([isAscii] below). *)
Definition lower_ascii (c : ascii) : ascii :=
  let n := nat_of_ascii c in
  if (Nat.leb 65 n && Nat.leb n 90)%bool then ascii_of_nat (n + 32) else c.

Fixpoint toLowerCase (s : string) : string :=
  match s with
  | EmptyString => EmptyString
  | String c s' => String (lower_ascii c) (toLowerCase s')
  end.

(** [s.startsWith(p)]. *)
Definition startsWith (s p : string) : bool := String.prefix p s.

(** [s.endsWith(p)]. *)
Definition endsWith (s p : string) : bool :=
  let fix isPrefix (a b : list ascii) : bool :=
    match a, b with
    | [], _ => true
    | x :: a', y :: b' => Ascii.eqb x y && isPrefix a' b'
    | _ :: _, [] => false
    end in
  isPrefix (rev (list_ascii_of_string p)) (rev (list_ascii_of_string s)).

(** White space recognised by [trim] (tab, LF, VT, FF, CR, space). *)
Definition is_space (c : ascii) : bool :=
  let n := nat_of_ascii c in
  (Nat.leb 9 n && Nat.leb n 13)%bool || Nat.eqb n 32.

Fixpoint trimStart (s : string) : string :=
  match s with
  | String c s' => if is_space c then trimStart s' else s
  | EmptyString => EmptyString
  end.

(** Drops trailing white space: a character is kept when something
    non-blank follows it or it is itself non-blank. *)
Fixpoint trimEnd (s : string) : string :=
  match s with
  | EmptyString => EmptyString
  | String c s' =>
      match trimEnd s' with
      | EmptyString => if is_space c then EmptyString else String c EmptyString
      | r => String c r
      end
  end.

Definition trim (s : string) : string := trimEnd (trimStart s).

(** JavaScript truthiness of a string: the empty string is falsy. *)
Definition truthy (s : string) : bool :=
  match s with EmptyString => false | _ => true end.

(** Decimal rendering of an integer, as in a template literal. *)
Definition ofZ (z : Z) : string := NilEmpty.string_of_int (Z.to_int z).

End JsString.

(* ================================================================== *)
(** * [node:path], POSIX flavour *)
(* ================================================================== *)

Module Path.
Import JsString.

Definition sep : string := "/".

Definition is_sep (c : ascii) : bool := Ascii.eqb c "/"%char.

Definition isAbsolute (p : string) : bool :=
  match p with
  | String c _ => is_sep c
  | EmptyString => false
  end.

(** [s.split('/')]: the pieces between separators, empty pieces included. *)
Fixpoint split (s : string) : list string :=
  match s with
  | EmptyString => [EmptyString]
  | String c s' =>
      if is_sep c then EmptyString :: split s'
      else match split s' with
           | x :: xs => String c x :: xs
           | [] => [String c EmptyString]
           end
  end.

(** [segs.join('/')]. *)
Fixpoint unsplit (segs : list string) : string :=
  match segs with
  | [] => EmptyString
  | [x] => x
  | x :: rest => x ++ sep ++ unsplit rest
  end.

(** Node's [normalizeString], one segment at a time.  [acc] holds the
    segments kept so far, innermost first.  Empty and ["."] segments are
    skipped; [".."] pops a kept segment, and where there is none to pop it
    is kept only if [allowAboveRoot]. *)
Fixpoint normalizeSegs (allowAboveRoot : bool) (acc : list string)
         (segs : list string) : list string :=
  match segs with
  | [] => rev acc
  | x :: rest =>
      if (String.eqb x "" || String.eqb x ".")%bool then
        normalizeSegs allowAboveRoot acc rest
      else if String.eqb x ".." then
        match acc with
        | top :: acc' =>
            if String.eqb top ".." then
              normalizeSegs allowAboveRoot
                (if allowAboveRoot then x :: acc else acc) rest
            else normalizeSegs allowAboveRoot acc' rest
        | [] =>
            normalizeSegs allowAboveRoot
              (if allowAboveRoot then [x] else []) rest
        end
      else normalizeSegs allowAboveRoot (x :: acc) rest
  end.

Definition normalizeString (p : string) (allowAboveRoot : bool) : string :=
  unsplit (normalizeSegs allowAboveRoot [] (split p)).

Definition endsWithSep (p : string) : bool :=
  match rev (list_ascii_of_string p) with
  | c :: _ => is_sep c
  | [] => false
  end.

(** [path.normalize]. *)
Definition normalize (p : string) : string :=
  match p with
  | EmptyString => "."
  | _ =>
      let abs := isAbsolute p in
      let trailing := endsWithSep p in
      let r := normalizeString p (negb abs) in
      match r with
      | EmptyString => if abs then "/" else if trailing then "./" else "."
      | _ =>
          let r' := if trailing then r ++ "/" else r in
          if abs then "/" ++ r' else r'
      end
  end.

(** [path.join(a, b)]: empty arguments are skipped. *)
Definition join (a b : string) : string :=
  match a, b with
  | EmptyString, EmptyString => "."
  | EmptyString, _ => normalize b
  | _, EmptyString => normalize a
  | _, _ => normalize (a ++ "/" ++ b)
  end.

(** [path.join(a, b, c)], taken two arguments at a time. *)
Definition join3 (a b c : string) : string := join (join a b) c.

(** [path.resolve(p)] with the working directory [cwd]. *)
Definition resolve (cwd p : string) : string :=
  let full :=
    match p with
    | EmptyString => cwd
    | _ => if isAbsolute p then p else cwd ++ "/" ++ p
    end in
  if isAbsolute full then "/" ++ normalizeString full false
  else match normalizeString full true with
       | EmptyString => "."
       | r => r
       end.

(** [path.dirname]: trailing separators are ignored, then the last
    component is dropped together with the one separator before it. *)
Definition dirname (p : string) : string :=
  match p with
  | EmptyString => "."
  | String c0 rest =>
      let hasRoot := is_sep c0 in
      let fix dropWhile (f : ascii -> bool) (l : list ascii) :=
        match l with
        | c :: l' => if f c then dropWhile f l' else l
        | [] => []
        end in
      let r := dropWhile is_sep (rev (list_ascii_of_string rest)) in
      let r := dropWhile (fun c => negb (is_sep c)) r in
      match r with
      | [] => if hasRoot then "/" else "."
      | _ :: before =>
          match before with
          | [] => if hasRoot then "//" else String c0 EmptyString
          | _ => String c0 (string_of_list_ascii (rev before))
          end
      end
  end.

End Path.

(* ================================================================== *)
(** * The file-system tree *)
(* ================================================================== *)

Module Tree.

Local Set Warnings "-register-all".

(** A regular file carries [mtimeMs] and its bytes ([stat.size] is their
    number); a directory lists its entries by name, in [readdir] order. *)
Inductive node : Type :=
| File (mtimeMs : Z) (data : string)
| Dir (entries : list (string * node)).

Definition entries_t : Type := list (string * node).

Definition isDirectory (n : node) : bool :=
  match n with Dir _ => true | File _ _ => false end.

Definition fileSize (data : string) : Z := Z.of_nat (String.length data).

Fixpoint assoc (x : string) (es : entries_t) : option node :=
  match es with
  | [] => None
  | (y, c) :: es' => if String.eqb x y then Some c else assoc x es'
  end.

Definition names (es : entries_t) : list string := map fst es.

(** Replaces the entry called [x] where it stands, or adds it last. *)
Fixpoint put_entry (x : string) (n : node) (es : entries_t) : entries_t :=
  match es with
  | [] => [(x, n)]
  | (y, c) :: es' =>
      if String.eqb x y then (x, n) :: es' else (y, c) :: put_entry x n es'
  end.

Definition del_entry (x : string) (es : entries_t) : entries_t :=
  filter (fun e => negb (String.eqb x (fst e))) es.

Definition set_entry (x : string) (v : option node) (es : entries_t)
  : entries_t :=
  match v with
  | Some n => put_entry x n es
  | None => del_entry x es
  end.

(** What is found at path [p] (a list of segments) below [o]. *)
Fixpoint lookupo (o : option node) (p : list string) : option node :=
  match p with
  | [] => o
  | x :: p' =>
      match o with
      | Some (Dir es) => lookupo (assoc x es) p'
      | _ => None
      end
  end.

Definition lookup (t : node) (p : list string) : option node :=
  lookupo (Some t) p.

(** A regular file stands on the way to [p] (the [ENOTDIR] situation). *)
Fixpoint blockedo (o : option node) (p : list string) : bool :=
  match p with
  | [] => false
  | x :: p' =>
      match o with
      | Some (File _ _) => true
      | Some (Dir es) => blockedo (assoc x es) p'
      | None => false
      end
  end.

Definition blocked (t : node) (p : list string) : bool :=
  blockedo (Some t) p.

(** Rewrites what stands at [p] with [g].  Missing directories on the way
    are created when [g] produces something; a regular file on the way
    leaves the tree as it is. *)
Fixpoint upd (g : option node -> option node) (p : list string)
         (o : option node) : option node :=
  match p with
  | [] => g o
  | x :: p' =>
      match o with
      | Some (File _ _) => o
      | Some (Dir es) => Some (Dir (set_entry x (upd g p' (assoc x es)) es))
      | None =>
          match upd g p' None with
          | Some c => Some (Dir [(x, c)])
          | None => None
          end
      end
  end.

Definition alter (g : option node -> option node) (p : list string)
           (t : node) : node :=
  match upd g p (Some t) with
  | Some t' => t'
  | None => Dir []
  end.

(** [p] is [q] or an ancestor of [q]. *)
Fixpoint prefixb (p q : list string) : bool :=
  match p, q with
  | [], _ => true
  | x :: p', y :: q' => String.eqb x y && prefixb p' q'
  | _ :: _, [] => false
  end.

Definition incomparable (p q : list string) : Prop :=
  prefixb p q = false /\ prefixb q p = false.

(** A copy as [cp] writes it: same bytes, modification time [now]. *)
Fixpoint touch (now : Z) (n : node) : node :=
  match n with
  | File _ d => File now d
  | Dir es => Dir (map (fun e => (fst e, touch now (snd e))) es)
  end.

(** The tree with its time stamps forgotten: names and bytes only. *)
Definition erase (n : node) : node := touch 0 n.

(** [fs.cp(src, dst, {recursive: true, force: true})] on nodes: the result
    standing at the destination and, if the copy stopped, the error.  A
    directory is copied entry by entry into an existing directory (files
    are overwritten, other entries of the destination stay) and stops at
    the first entry that fails. *)
Fixpoint cpNode (now : Z) (src : node) (dst : option node) {struct src}
  : option node * option string :=
  match src with
  | File _ d =>
      match dst with
      | Some (Dir _) => (dst, Some "Error: ERR_FS_CP_NON_DIR_TO_DIR")
      | _ => (Some (File now d), None)
      end
  | Dir es =>
      match dst with
      | Some (File _ _) => (dst, Some "Error: ERR_FS_CP_DIR_TO_NON_DIR")
      | None => (Some (touch now src), None)
      | Some (Dir ds) =>
          let fix go (es ds : entries_t) : entries_t * option string :=
            match es with
            | [] => (ds, None)
            | (x, c) :: es' =>
                match cpNode now c (assoc x ds) with
                | (r, None) => go es' (set_entry x r ds)
                | (r, Some e) => (set_entry x r ds, Some e)
                end
            end in
          let (ds', e) := go es ds in (Some (Dir ds'), e)
      end
  end.

(** Recursive size, the loop of [getDirectorySize] on the subtree. *)
Fixpoint sizeOf (n : node) : Z :=
  match n with
  | File _ d => fileSize d
  | Dir es =>
      (fix loop (es : entries_t) (total : Z) : Z :=
         match es with
         | [] => total
         | (_, c) :: es' => loop es' (total + sizeOf c)
         end) es 0
  end.

(** The loop of [deleteOldFiles] on the subtree: bytes cleared and what is
    left.  A regular file older than [cutoff] goes; a sub-directory is
    pruned first and goes if nothing is left in it. *)
Fixpoint pruneNode (cutoff : Z) (n : node) {struct n} : Z * node :=
  match n with
  | File _ _ => (0, n)
  | Dir es =>
      let fix loop (es : entries_t) : Z * entries_t :=
        match es with
        | [] => (0, [])
        | (x, c) :: es' =>
            let here :=
              match c with
              | Dir _ =>
                  let (cl, c') := pruneNode cutoff c in
                  match c' with
                  | Dir [] => (cl, None)
                  | _ => (cl, Some c')
                  end
              | File m d =>
                  if m <? cutoff then (fileSize d, None) else (0, Some c)
              end in
            let (rest, es'') := loop es' in
            (fst here + rest,
             match snd here with
             | Some c' => (x, c') :: es''
             | None => es''
             end)
        end in
      let (cl, es') := loop es in (cl, Dir es')
  end.

(** What the loop of [deleteOldFiles] does with one entry: bytes cleared
    and what is kept of it. *)
Definition pruneEntry (cutoff : Z) (c : node) : Z * option node :=
  match c with
  | Dir _ =>
      let (cl, c') := pruneNode cutoff c in
      match c' with
      | Dir [] => (cl, None)
      | _ => (cl, Some c')
      end
  | File m d => if m <? cutoff then (fileSize d, None) else (0, Some c)
  end.

End Tree.

(* ================================================================== *)
(** * Process state and the effect monad *)
(* ================================================================== *)

(** [storage-state.ts]: the persisted record.  A field is [None] when the
    key is absent ([undefined]). *)
Record StorageConfig : Type := mkConfig {
  basePath : option string;
  projectPath : option string;
  mediaPath : option string;
  autoCleanEnabled : option bool;
  autoCleanDays : option Z
}.

Definition DEFAULT_STORAGE_CONFIG : StorageConfig :=
  {| basePath := Some ""; projectPath := Some ""; mediaPath := Some "";
     autoCleanEnabled := Some false; autoCleanDays := Some 30 |}.

Definition orElse {A} (a b : option A) : option A :=
  match a with Some _ => a | None => b end.

(** [{ ...config, ...partial }]: keys of [partial] win, the others stay. *)
Definition spread (config partial : StorageConfig) : StorageConfig :=
  {| basePath := orElse (basePath partial) (basePath config);
     projectPath := orElse (projectPath partial) (projectPath config);
     mediaPath := orElse (mediaPath partial) (mediaPath config);
     autoCleanEnabled :=
       orElse (autoCleanEnabled partial) (autoCleanEnabled config);
     autoCleanDays := orElse (autoCleanDays partial) (autoCleanDays config) |}.

(** The platform: [process.cwd()], [app.getPath('userData')], [os.tmpdir()]. *)
Record Host : Type := mkHost {
  cwd : string;
  userData : string;
  tmpdir : string
}.

(** Everything a handler can read or change.  [configFile] is the content of
    [storage-config.json] (kept apart from [fs]); [now] is [Date.now()];
    [cpFault src dst], when defined, makes [fs.promises.cp src dst] throw the
    given error and leave the given residue at the destination. *)
Record World : Type := mkWorld {
  fs : Tree.node;
  storageConfig : StorageConfig;
  configFile : option StorageConfig;
  now : Z;
  cpFault : string -> string -> option (option Tree.node * string)
}.

Definition with_fs (w : World) (t : Tree.node) : World :=
  {| fs := t; storageConfig := storageConfig w; configFile := configFile w;
     now := now w; cpFault := cpFault w |}.

Definition with_config (w : World) (c : StorageConfig) : World :=
  {| fs := fs w; storageConfig := c; configFile := configFile w;
     now := now w; cpFault := cpFault w |}.

Definition with_configFile (w : World) (c : StorageConfig) : World :=
  {| fs := fs w; storageConfig := storageConfig w; configFile := Some c;
     now := now w; cpFault := cpFault w |}.

(** A computation returns a value or throws; the world it leaves behind is
    kept in both cases.  A thrown value is represented by what [String(e)]
    gives for it. *)
Inductive outcome (A : Type) : Type :=
| Ret (a : A)
| Throw (e : string).
Arguments Ret {A} a.
Arguments Throw {A} e.

Definition M (A : Type) : Type := World -> outcome A * World.

Definition ret {A} (a : A) : M A := fun w => (Ret a, w).
Definition throw {A} (e : string) : M A := fun w => (Throw e, w).

Definition bind {A B} (m : M A) (k : A -> M B) : M B :=
  fun w =>
    match m w with
    | (Ret a, w') => k a w'
    | (Throw e, w') => (Throw e, w')
    end.

(** [try { m } catch (e) { handler e }]. *)
Definition tryCatch {A} (m : M A) (handler : string -> M A) : M A :=
  fun w =>
    match m w with
    | (Ret a, w') => (Ret a, w')
    | (Throw e, w') => handler e w'
    end.

(** [promise.catch(() => {})]. *)
Definition swallow (m : M unit) : M unit := tryCatch m (fun _ => ret tt).

Definition gets {A} (f : World -> A) : M A := fun w => (Ret (f w), w).
Definition modify (f : World -> World) : M unit := fun w => (Ret tt, f w).

Declare Scope js_scope.
Delimit Scope js_scope with js.
Notation "x <- m ;; k" := (bind m (fun x => k))
  (at level 61, m at next level, right associativity) : js_scope.
Notation "m ;; k" := (bind m (fun _ => k))
  (at level 61, right associativity) : js_scope.
Local Open Scope js_scope.

(** [for (const x of xs) body x]. *)
Fixpoint forOf {A} (xs : list A) (body : A -> M unit) : M unit :=
  match xs with
  | [] => ret tt
  | x :: xs' => body x ;; forOf xs' body
  end.

(** [when c m]: [if (c) { m }]. *)
Definition when (c : bool) (m : M unit) : M unit :=
  if c then m else ret tt.

(* ================================================================== *)
(** * [node:fs] on the tree *)
(* ================================================================== *)

Section NodeFs.
Variable h : Host.

(** The segments a path string denotes: relative paths start from the
    working directory, [.] and [..] are resolved lexically. *)
Definition segments (p : string) : list string :=
  Path.normalizeSegs false []
    (Path.split (if Path.isAbsolute p then p else cwd h ++ "/" ++ p)).

Definition existsSync (p : string) : M bool :=
  gets (fun w =>
          match Tree.lookup (fs w) (segments p) with
          | Some _ => true
          | None => false
          end).

(** [fs.mkdirSync(p, {recursive: true})]. *)
Definition mkdirSync (p : string) : M unit :=
  fun w =>
    if Tree.blocked (fs w) (segments p) then
      (Throw "Error: ENOTDIR: not a directory, mkdir", w)
    else
      match Tree.lookup (fs w) (segments p) with
      | Some (Tree.File _ _) =>
          (Throw "Error: EEXIST: file already exists, mkdir", w)
      | Some (Tree.Dir _) => (Ret tt, w)
      | None =>
          (Ret tt,
           with_fs w (Tree.alter (fun _ => Some (Tree.Dir [])) (segments p)
                                 (fs w)))
      end.

(** [fs.readdirSync(p, {withFileTypes: true})] and [fs.promises.readdir]:
    name and [isDirectory()] of every entry. *)
Definition readdirTypes (p : string) : M (list (string * bool)) :=
  fun w =>
    match Tree.lookup (fs w) (segments p) with
    | Some (Tree.Dir es) =>
        (Ret (map (fun e => (fst e, Tree.isDirectory (snd e))) es), w)
    | Some (Tree.File _ _) =>
        (Throw "Error: ENOTDIR: not a directory, scandir", w)
    | None => (Throw "Error: ENOENT: no such file or directory, scandir", w)
    end.

Definition readdir (p : string) : M (list string) :=
  es <- readdirTypes p ;; ret (map fst es).

(** [fs.unlinkSync(p)]. *)
Definition unlinkSync (p : string) : M unit :=
  fun w =>
    match Tree.lookup (fs w) (segments p) with
    | Some (Tree.File _ _) =>
        (Ret tt, with_fs w (Tree.alter (fun _ => None) (segments p) (fs w)))
    | Some (Tree.Dir _) =>
        (Throw "Error: EISDIR: illegal operation on a directory, unlink", w)
    | None => (Throw "Error: ENOENT: no such file or directory, unlink", w)
    end.

(** [fs.promises.rm(p, {recursive: true, force: true})]: a missing path is
    not an error. *)
Definition rm (p : string) : M unit :=
  fun w =>
    if Tree.blocked (fs w) (segments p) then
      (Throw "Error: ENOTDIR: not a directory, rm", w)
    else
      (Ret tt, with_fs w (Tree.alter (fun _ => None) (segments p) (fs w))).

(** [fs.promises.cp(src, dst, {recursive: true, force: true})]. *)
Definition cp (src dst : string) : M unit :=
  fun w =>
    let s := segments src in
    let d := segments dst in
    match cpFault w src dst with
    | Some (residue, e) =>
        (Throw e, with_fs w (Tree.alter (fun _ => residue) d (fs w)))
    | None =>
        match Tree.lookup (fs w) s with
        | None => (Throw "Error: ENOENT: no such file or directory, cp", w)
        | Some n =>
            if Tree.prefixb s d then (Throw "Error: ERR_FS_CP_EINVAL", w)
            else if Tree.blocked (fs w) d then
              (Throw "Error: ENOTDIR: not a directory, cp", w)
            else
              let (r, e) := Tree.cpNode (now w) n (Tree.lookup (fs w) d) in
              (match e with Some e => Throw e | None => Ret tt end,
               with_fs w (Tree.alter (fun _ => r) d (fs w)))
        end
    end.

(* ================================================================ *)
(** * [path-utils.ts] *)
(* ================================================================ *)

Definition ensureDir (dirPath : string) : M unit :=
  e <- existsSync dirPath ;;
  when (negb e) (mkdirSync dirPath).

Definition normalizePath (inputPath : string) : string :=
  if Path.isAbsolute inputPath then inputPath
  else Path.resolve (cwd h) inputPath.

Definition isSubdirectory (parentPath childPath : string) : bool :=
  let normalizedParent :=
    JsString.toLowerCase (Path.resolve (cwd h) parentPath) ++ Path.sep in
  let normalizedChild :=
    JsString.toLowerCase (Path.resolve (cwd h) childPath) ++ Path.sep in
  JsString.startsWith normalizedChild normalizedParent.

(** The two messages of [pathsConflict]: "the target path must not be a
    sub-directory of the current path" (the source is the ancestor) and
    "the current path must not be a sub-directory of the target path" (the
    destination is the ancestor). *)
Definition DEST_IN_SOURCE : string := "目标路径不能是当前路径的子目录".
Definition SOURCE_IN_DEST : string := "当前路径不能是目标路径的子目录".

Definition pathsConflict (source dest : string) : option string :=
  let normalizedSource := JsString.toLowerCase (Path.resolve (cwd h) source) in
  let normalizedDest := JsString.toLowerCase (Path.resolve (cwd h) dest) in
  if String.eqb normalizedSource normalizedDest then None
  else if isSubdirectory source dest then Some DEST_IN_SOURCE
  else if isSubdirectory dest source then Some SOURCE_IN_DEST
  else None.

(** [s?.trim()] followed by a truthiness test: [undefined] and the empty
    string both fall through. *)
Definition trimmed (s : option string) : string :=
  match s with
  | Some v => JsString.trim v
  | None => ""
  end.

Definition getStorageBasePath (c : StorageConfig) : string :=
  let configured := trimmed (basePath c) in
  if JsString.truthy configured then normalizePath configured
  else
    let legacyProject := trimmed (projectPath c) in
    if JsString.truthy legacyProject then
      Path.dirname (normalizePath legacyProject)
    else userData h.

Definition getProjectDataRoot : M string :=
  c <- gets storageConfig ;;
  let base := Path.join (getStorageBasePath c) "projects" in
  ensureDir base ;;
  ret base.

Definition getMediaRoot : M string :=
  c <- gets storageConfig ;;
  let base := Path.join (getStorageBasePath c) "media" in
  ensureDir base ;;
  ret base.

Definition getCacheDirs : list string :=
  [ Path.join (userData h) "Cache";
    Path.join (userData h) "Code Cache";
    Path.join (userData h) "GPUCache" ].

(* ================================================================ *)
(** * [storage-state.ts] *)
(* ================================================================ *)

Definition mergeStorageConfig (partial : StorageConfig) : M unit :=
  modify (fun w => with_config w (spread (storageConfig w) partial)).

(** The write of [storage-config.json]; the source swallows its failure. *)
Definition saveStorageConfig : M unit :=
  modify (fun w => with_configFile w (storageConfig w)).

(** The literal [{ basePath: target, projectPath: '', mediaPath: '' }]. *)
Definition repoint (target : string) : StorageConfig :=
  {| basePath := Some target; projectPath := Some ""; mediaPath := Some "";
     autoCleanEnabled := None; autoCleanDays := None |}.

(* ================================================================ *)
(** * [file-ops.ts] *)
(* ================================================================ *)

(** The recursion of the source follows the directory tree, so it is
    carried out on the subtree found at [dirPath]; a path that cannot be
    listed counts zero (the [catch] of the source). *)
Definition getDirectorySize (dirPath : string) : M Z :=
  gets (fun w =>
          match Tree.lookup (fs w) (segments dirPath) with
          | Some (Tree.Dir es) => Tree.sizeOf (Tree.Dir es)
          | _ => 0
          end).

Definition copyDir (source destination : string) : M unit :=
  ensureDir destination ;;
  cp source destination.

Definition removeDir (dirPath : string) : M unit := rm dirPath.

Definition deleteOldFiles (dirPath : string) (cutoffTime : Z) : M Z :=
  fun w =>
    match Tree.lookup (fs w) (segments dirPath) with
    | Some (Tree.Dir es) =>
        let (cleared, rest) := Tree.pruneNode cutoffTime (Tree.Dir es) in
        (Ret cleared,
         with_fs w (Tree.alter (fun _ => Some rest) (segments dirPath)
                               (fs w)))
    | _ => (Ret 0, w)
    end.

Definition MS_PER_DAY : Z := 24 * 60 * 60 * 1000.

(** [olderThanDays && olderThanDays > 0]. *)
Definition ageThreshold (olderThanDays : option Z) : option Z :=
  match olderThanDays with
  | Some n => if (negb (n =? 0) && (0 <? n))%bool then Some n else None
  | None => None
  end.

(** [for (const dir of dirs) { cleared += await f(dir) }; return cleared]. *)
Fixpoint sumOver (dirs : list string) (f : string -> M Z) (cleared : Z)
  : M Z :=
  match dirs with
  | [] => ret cleared
  | dir :: rest => n <- f dir ;; sumOver rest f (cleared + n)
  end.

Definition clearCache (olderThanDays : option Z) : M Z :=
  let dirs := getCacheDirs in
  match ageThreshold olderThanDays with
  | Some n =>
      t <- gets now ;;
      let cutoff := t - n * MS_PER_DAY in
      sumOver dirs (fun dir => deleteOldFiles dir cutoff) 0
  | None =>
      sumOver dirs
        (fun dir =>
           n <- getDirectorySize dir ;;
           swallow (removeDir dir) ;;
           ensureDir dir ;;
           ret n) 0
  end.

End NodeFs.

(* ================================================================== *)
(** * [storage-manager-handlers.ts] *)
(* ================================================================== *)

(** [{ valid, error?, projectCount?, mediaCount? }]. *)
Record Validation : Type := mkValidation {
  valid : bool;
  reason : option string;
  projectCount : option Z;
  mediaCount : option Z
}.

(** [{ success, path?, error?, clearedBytes? }]. *)
Record OpResult : Type := mkResult {
  success : bool;
  path : option string;
  error : option string;
  clearedBytes : option Z
}.

Definition failure (e : string) : OpResult :=
  {| success := false; path := None; error := Some e; clearedBytes := None |}.

Definition succeeded (p : option string) : OpResult :=
  {| success := true; path := p; error := None; clearedBytes := None |}.

Definition invalid (e : string) : Validation :=
  {| valid := false; reason := Some e; projectCount := None;
     mediaCount := None |}.

(** The messages of the handlers: empty path, missing directory, no
    [projects/] or [media/] in the directory, none in the import source. *)
Definition EMPTY_PATH : string := "路径不能为空".
Definition NO_DIRECTORY : string := "目录不存在".
Definition NO_VALID_DATA : string :=
  "该目录不包含有效的数据（需要 projects/ 或 media/ 子目录）".
Definition NO_SOURCE_DATA : string :=
  "源目录不包含有效数据（需要 projects/ 或 media/ 子目录）".

Section Handlers.
Variable h : Host.

Definition count {A} (f : A -> bool) (l : list A) : Z :=
  Z.of_nat (List.length (filter f l)).

Definition countProjects (projectsDir : string) : M Z :=
  e <- existsSync h projectsDir ;;
  if e then
    files <- readdir h projectsDir ;;
    let projectCount :=
      count (fun f => JsString.endsWith f ".json") files in
    let perProjectDir := Path.join projectsDir "_p" in
    e' <- existsSync h perProjectDir ;;
    if e' then
      projectDirs <- readdirTypes h perProjectDir ;;
      let dirCount :=
        count (fun d => snd d && negb (JsString.startsWith (fst d) "."))
              projectDirs in
      ret (if 0 <? dirCount then Z.max projectCount dirCount
           else projectCount)
    else ret projectCount
  else ret 0.

Definition countMedia (mediaDir : string) : M Z :=
  e <- existsSync h mediaDir ;;
  if e then
    entries <- readdir h mediaDir ;;
    ret (Z.of_nat (List.length entries))
  else ret 0.

Definition validateDataDirInternal (dirPath : string) : M Validation :=
  tryCatch
    (if negb (JsString.truthy dirPath) then ret (invalid EMPTY_PATH)
     else
       let target := normalizePath h dirPath in
       e <- existsSync h target ;;
       if negb e then ret (invalid NO_DIRECTORY)
       else
         let projectsDir := Path.join target "projects" in
         let mediaDir := Path.join target "media" in
         projectCount <- countProjects projectsDir ;;
         mediaCount <- countMedia mediaDir ;;
         if ((projectCount =? 0) && (mediaCount =? 0))%bool then
           ret (invalid NO_VALID_DATA)
         else
           ret {| valid := true; reason := None;
                  projectCount := Some projectCount;
                  mediaCount := Some mediaCount |})
    (fun error => ret (invalid error)).

(** Copies every entry of [fromDir] into [toDir], one [cp] per entry. *)
Definition copyEntries (fromDir toDir : string) : M unit :=
  e <- existsSync h fromDir ;;
  when e
    (files <- readdir h fromDir ;;
     forOf files
       (fun file => cp h (Path.join fromDir file) (Path.join toDir file))).

(** Steps 1 and 2 of [storage-move-data] (lines 127 to 150 of the source):
    the target directories are made and every entry of the two live roots
    is copied.  Returns the two live roots for the later steps. *)
Definition moveCopy (target : string) : M (string * string) :=
  let targetProjectsDir := Path.join target "projects" in
  let targetMediaDir := Path.join target "media" in
  ensureDir h targetProjectsDir ;;
  ensureDir h targetMediaDir ;;
  currentProjectsDir <- getProjectDataRoot h ;;
  copyEntries currentProjectsDir targetProjectsDir ;;
  currentMediaDir <- getMediaRoot h ;;
  copyEntries currentMediaDir targetMediaDir ;;
  ret (currentProjectsDir, currentMediaDir).

(** Steps 3 and 4 (lines 152 to 163): the configuration is repointed and
    saved, then the old roots are removed unless they lie under
    [userData]. *)
Definition moveCommit (target : string) (roots : string * string)
  : M OpResult :=
  let (currentProjectsDir, currentMediaDir) := roots in
  mergeStorageConfig (repoint target) ;;
  saveStorageConfig ;;
  when (negb (JsString.startsWith currentProjectsDir (userData h)))
       (swallow (removeDir h currentProjectsDir)) ;;
  when (negb (JsString.startsWith currentMediaDir (userData h)))
       (swallow (removeDir h currentMediaDir)) ;;
  ret (succeeded (Some target)).

(** The handler from the point where the target has passed the checks. *)
Definition moveData (target : string) : M OpResult :=
  roots <- moveCopy target ;;
  moveCommit target roots.

Definition storage_move_data (newPath : string) : M OpResult :=
  tryCatch
    (if negb (JsString.truthy newPath) then ret (failure EMPTY_PATH)
     else
       let target := normalizePath h newPath in
       c <- gets storageConfig ;;
       let currentBase := getStorageBasePath h c in
       if String.eqb currentBase target then
         ret (succeeded (Some currentBase))
       else
         match pathsConflict h currentBase target with
         | Some conflictError => ret (failure conflictError)
         | None => moveData target
         end)
    (fun error => ret (failure error)).

(** Step 1 of the import (lines 212 to 217 and 218 to 223 of the source): a
    live root that is about to be replaced and is not empty is copied into
    the backup directory. *)
Definition backupRoot (wanted : bool) (currentDir backupTo : string)
  : M unit :=
  e <- (if wanted then existsSync h currentDir else ret false) ;;
  when e
    (files <- readdir h currentDir ;;
     when (0 <? Z.of_nat (List.length files))
          (copyDir h currentDir backupTo)).

(** Step 2 (lines 225 to 228 and 229 to 232): the live root is removed and
    the source copied into its place. *)
Definition replaceRoot (wanted : bool) (sourceDir currentDir : string)
  : M unit :=
  when wanted
    (swallow (removeDir h currentDir) ;;
     copyDir h sourceDir currentDir).

(** Roll-back of one root (lines 247 to 250 and 251 to 254). *)
Definition restoreRoot (backupFrom currentDir : string) : M unit :=
  e <- existsSync h backupFrom ;;
  when e
    (swallow (removeDir h currentDir) ;;
     swallow (copyDir h backupFrom currentDir)).

(** The inner [try] block (lines 212 to 241). *)
Definition importSwap (hasProjects hasMedia : bool)
           (sourceProjectsDir sourceMediaDir : string)
           (currentProjectsDir currentMediaDir backupDir : string)
  : M OpResult :=
  backupRoot hasProjects currentProjectsDir
             (Path.join backupDir "projects") ;;
  backupRoot hasMedia currentMediaDir (Path.join backupDir "media") ;;
  replaceRoot hasProjects sourceProjectsDir currentProjectsDir ;;
  replaceRoot hasMedia sourceMediaDir currentMediaDir ;;
  let migrationFlagPath :=
    Path.join3 currentProjectsDir "_p" "_migrated.json" in
  flagged <- existsSync h migrationFlagPath ;;
  when flagged (unlinkSync h migrationFlagPath) ;;
  swallow (removeDir h backupDir) ;;
  ret (succeeded None).

(** The inner [catch] block (lines 243 to 257). *)
Definition importRollback
           (currentProjectsDir currentMediaDir backupDir : string)
           (importError : string) : M OpResult :=
  let backupProjectsDir := Path.join backupDir "projects" in
  let backupMediaDir := Path.join backupDir "media" in
  restoreRoot backupProjectsDir currentProjectsDir ;;
  restoreRoot backupMediaDir currentMediaDir ;;
  swallow (removeDir h backupDir) ;;
  throw importError.

(** Lines 207 to 258: the backup directory is named, the live roots are
    resolved, and the swap runs under its roll-back. *)
Definition importFrom (hasProjects hasMedia : bool)
           (sourceProjectsDir sourceMediaDir : string) : M OpResult :=
  t <- gets now ;;
  let backupDir :=
    Path.join (tmpdir h) ("moyin-backup-" ++ JsString.ofZ t) in
  currentProjectsDir <- getProjectDataRoot h ;;
  currentMediaDir <- getMediaRoot h ;;
  tryCatch
    (importSwap hasProjects hasMedia sourceProjectsDir sourceMediaDir
                currentProjectsDir currentMediaDir backupDir)
    (importRollback currentProjectsDir currentMediaDir backupDir).

Definition storage_import_data (sourcePath : string) : M OpResult :=
  tryCatch
    (if negb (JsString.truthy sourcePath) then ret (failure EMPTY_PATH)
     else
       let source := normalizePath h sourcePath in
       let sourceProjectsDir := Path.join source "projects" in
       let sourceMediaDir := Path.join source "media" in
       hasProjects <- existsSync h sourceProjectsDir ;;
       hasMedia <- existsSync h sourceMediaDir ;;
       if (negb hasProjects && negb hasMedia)%bool then
         ret (failure NO_SOURCE_DATA)
       else
         importFrom hasProjects hasMedia sourceProjectsDir sourceMediaDir)
    (fun error => ret (failure error)).

(** [options?.olderThanDays] is passed to [clearCache]. *)
Definition storage_clear_cache (options : option (option Z)) : M OpResult :=
  tryCatch
    (cleared <- clearCache h (match options with
                              | Some d => d
                              | None => None
                              end) ;;
     ret {| success := true; path := None; error := None;
            clearedBytes := Some cleared |})
    (fun error => ret (failure error)).

End Handlers.

(* ================================================================== *)
(** * [Date.prototype.toISOString] *)
(* ================================================================== *)

Module JsDate.

Definition msPerDay : Z := 86400000.

(** The decimal digit for the last digit of [n]. *)
Definition digit (n : Z) : ascii :=
  match Z.to_nat (n mod 10) with
  | 0%nat => "0" | 1%nat => "1" | 2%nat => "2" | 3%nat => "3"
  | 4%nat => "4" | 5%nat => "5" | 6%nat => "6" | 7%nat => "7"
  | 8%nat => "8" | _ => "9"
  end%char.

(** The last [width] decimal digits of [n], zero-padded. *)
Fixpoint pad (width : nat) (n : Z) : string :=
  match width with
  | O => ""
  | S k => pad k (n / 10) ++ String (digit n) ""
  end.

(** Year, month and day of the proleptic Gregorian calendar for a day
    number counted from 1970-01-01. *)
Definition civil (days : Z) : Z * Z * Z :=
  let z := days + 719468 in
  let era := z / 146097 in
  let doe := z - era * 146097 in
  let yoe := (doe - doe / 1460 + doe / 36524 - doe / 146096) / 365 in
  let doy := doe - (365 * yoe + yoe / 4 - yoe / 100) in
  let mp := (5 * doy + 2) / 153 in
  let d := doy - (153 * mp + 2) / 5 + 1 in
  let m := if mp <? 10 then mp + 3 else mp - 9 in
  let y := yoe + era * 400 in
  (if m <=? 2 then y + 1 else y, m, d).

(** Four digits for the years 0 to 9999, a sign and six digits
    otherwise. *)
Definition year (y : Z) : string :=
  if ((0 <=? y) && (y <=? 9999))%bool then pad 4 y
  else (if y <? 0 then "-" else "+") ++ pad 6 (Z.abs y).

(** [new Date(t).toISOString()]: [YYYY-MM-DDTHH:mm:ss.sssZ]. *)
Definition toISOString (t : Z) : string :=
  let ms := t mod msPerDay in
  let '(y, m, d) := civil (t / msPerDay) in
  year y ++ "-" ++ pad 2 m ++ "-" ++ pad 2 d ++ "T"
  ++ pad 2 (ms / 3600000) ++ ":" ++ pad 2 (ms / 60000 mod 60) ++ ":"
  ++ pad 2 (ms / 1000 mod 60) ++ "." ++ pad 3 (ms mod 1000) ++ "Z".

(** [s.replace(/[:.]/g, '-')]. *)
Fixpoint dashed (s : string) : string :=
  match s with
  | EmptyString => EmptyString
  | String c s' =>
      String (if (Ascii.eqb c ":" || Ascii.eqb c ".")%bool then "-"%char
              else c)
             (dashed s')
  end.

End JsDate.

(* ================================================================== *)
(** * The other helpers and handlers of the storage manager *)
(* ================================================================== *)

(** The answer of [storage-get-paths]:
    [{ basePath, projectPath, mediaPath, cachePath }]. *)
Module StoragePaths.
Record t : Type := mk {
  basePath : string;
  projectPath : string;
  mediaPath : string;
  cachePath : string
}.
End StoragePaths.

(** The answer of [storage-get-cache-size]: [{ total, details }], every
    detail a pair of [path] and [size]. *)
Record CacheSize : Type := mkCacheSize {
  total : Z;
  details : list (string * Z)
}.

(** "Please use the new unified storage path", the answer of the retired
    move handlers. *)
Definition USE_UNIFIED_PATH : string := "请使用新的统一存储路径功能".

(** Truthiness of an optional number and of an optional flag. *)
Definition truthyNumber (n : option Z) : bool :=
  match n with
  | Some v => negb (v =? 0)
  | None => false
  end.

Definition truthyFlag (b : option bool) : bool :=
  match b with
  | Some v => v
  | None => false
  end.

Section OtherHandlers.
Variable h : Host.

(** ** [path-utils.ts], lines 74 to 88 *)

Definition getImagesDir (subDir : string) : M string :=
  mediaRoot <- getMediaRoot h ;;
  let imagesDir := Path.join mediaRoot subDir in
  e <- existsSync h imagesDir ;;
  when (negb e) (mkdirSync h imagesDir) ;;
  ret imagesDir.

Definition getDataDir : M string :=
  dataDir <- getProjectDataRoot h ;;
  e <- existsSync h dataDir ;;
  when (negb e) (mkdirSync h dataDir) ;;
  ret dataDir.

(** ** [file-ops.ts], [moveDir] and [scheduleAutoClean] *)

Definition moveDir (source destination : string) : M unit :=
  if String.eqb source destination then ret tt
  else
    copyDir h source destination ;;
    removeDir h source.

(** What a call of [scheduleAutoClean] leaves behind.  [timer] is the
    module variable [autoCleanInterval]: [None] is [null], [Some days] a
    running interval whose callback is [autoClean days].  [startedClean] is
    the clean the call has started without awaiting it, if any: it has
    written nothing when the call returns, since [clearCache] names the
    cache directories and reads the clock before its first [await] and
    does no more. *)
Record Scheduled : Type := mkScheduled {
  timer : option (option Z);
  startedClean : option (option Z)
}.

(** [clearCache(days).catch(() => {})], once it runs. *)
Definition autoClean (days : option Z) : M unit :=
  swallow (clearCache h days ;; ret tt).

(** The module variable [autoCleanInterval] is passed in and handed back
    in the result. *)
Definition scheduleAutoClean (autoCleanInterval : option (option Z))
  : M Scheduled :=
  let cleared : option (option Z) :=
    match autoCleanInterval with
    | Some _ => None
    | None => autoCleanInterval
    end in
  c <- gets storageConfig ;;
  if truthyFlag (autoCleanEnabled c) then
    let days :=
      if truthyNumber (autoCleanDays c) then autoCleanDays c
      else autoCleanDays DEFAULT_STORAGE_CONFIG in
    ret {| timer := Some days; startedClean := Some days |}
  else ret {| timer := cleared; startedClean := None |}.

(** ** [storage-manager-handlers.ts], the handlers besides move, import
    and clear *)

Definition storage_get_paths : M StoragePaths.t :=
  c <- gets storageConfig ;;
  let basePath := getStorageBasePath h c in
  projectPath <- getProjectDataRoot h ;;
  mediaPath <- getMediaRoot h ;;
  ret (StoragePaths.mk basePath projectPath mediaPath
                       (Path.join (userData h) "Cache")).

Definition storage_validate_data_dir (dirPath : string) : M Validation :=
  validateDataDirInternal h dirPath.

Definition storage_link_data (dirPath : string) : M OpResult :=
  tryCatch
    (if negb (JsString.truthy dirPath) then ret (failure EMPTY_PATH)
     else
       let target := normalizePath h dirPath in
       e <- existsSync h target ;;
       if negb e then ret (failure NO_DIRECTORY)
       else
         let projectsDir := Path.join target "projects" in
         let mediaDir := Path.join target "media" in
         hasProjects <- existsSync h projectsDir ;;
         hasMedia <- existsSync h mediaDir ;;
         if (negb hasProjects && negb hasMedia)%bool then
           ret (failure NO_VALID_DATA)
         else
           mergeStorageConfig (repoint target) ;;
           saveStorageConfig ;;
           ret (succeeded (Some target)))
    (fun error => ret (failure error)).

(** The retired handlers. *)
Definition storage_validate_project_dir (dirPath : string) : M Validation :=
  validateDataDirInternal h dirPath.

Definition storage_link_project_data (dirPath : string) : M OpResult :=
  let target := normalizePath h dirPath in
  let basePath := Path.dirname target in
  mergeStorageConfig (repoint basePath) ;;
  saveStorageConfig ;;
  ret (succeeded (Some basePath)).

Definition storage_link_media_data (dirPath : string) : M OpResult :=
  let target := normalizePath h dirPath in
  let basePath := Path.dirname target in
  mergeStorageConfig (repoint basePath) ;;
  saveStorageConfig ;;
  ret (succeeded (Some basePath)).

Definition storage_move_project_data (_newPath : string) : M OpResult :=
  ret (failure USE_UNIFIED_PATH).

Definition storage_move_media_data (_newPath : string) : M OpResult :=
  ret (failure USE_UNIFIED_PATH).

(** Lines 311 to 335: the project root is replaced by [projects/] of the
    source or, where the source has none, by the source itself; the media
    root by [media/] of the source where it has one.  Nothing is kept
    aside. *)
Definition storage_import_project_data (sourcePath : string) : M OpResult :=
  tryCatch
    (if negb (JsString.truthy sourcePath) then ret (failure EMPTY_PATH)
     else
       let source := normalizePath h sourcePath in
       let projectsDir := Path.join source "projects" in
       let mediaDir := Path.join source "media" in
       hasProjects <- existsSync h projectsDir ;;
       (if hasProjects then
          old <- getProjectDataRoot h ;;
          swallow (removeDir h old) ;;
          root <- getProjectDataRoot h ;;
          copyDir h projectsDir root
        else
          old <- getProjectDataRoot h ;;
          swallow (removeDir h old) ;;
          root <- getProjectDataRoot h ;;
          copyDir h source root) ;;
       hasMedia <- existsSync h mediaDir ;;
       when hasMedia
         (old <- getMediaRoot h ;;
          swallow (removeDir h old) ;;
          root <- getMediaRoot h ;;
          copyDir h mediaDir root) ;;
       ret (succeeded None))
    (fun error => ret (failure error)).

(** Lines 355 to 368. *)
Definition storage_import_media_data (sourcePath : string) : M OpResult :=
  tryCatch
    (if negb (JsString.truthy sourcePath) then ret (failure EMPTY_PATH)
     else
       target <- getMediaRoot h ;;
       let source := normalizePath h sourcePath in
       if String.eqb source target then ret (succeeded None)
       else
         removeDir h target ;;
         copyDir h source target ;;
         ret (succeeded None))
    (fun error => ret (failure error)).

(** [dirs.map(async dirPath => ({ path, size }))] under [Promise.all]: the
    sizes are taken one directory after the other. *)
Fixpoint sizeEach (dirs : list string) : M (list (string * Z)) :=
  match dirs with
  | [] => ret []
  | dirPath :: rest =>
      size <- getDirectorySize h dirPath ;;
      more <- sizeEach rest ;;
      ret ((dirPath, size) :: more)
  end.

Definition storage_get_cache_size : M CacheSize :=
  let dirs := getCacheDirs h in
  details <- sizeEach dirs ;;
  let total := fold_left (fun sum item => sum + snd item) details 0 in
  ret {| total := total; details := details |}.

(** A key of the object handed to [storage-update-config]: [None] when the
    key is absent, otherwise its value, where [Some None] is a key that is
    present with the value [undefined].  The spread copies every key that
    is present. *)
Definition assignKey {A} (stored : option A) (key : option (option A))
  : option A :=
  match key with
  | Some v => v
  | None => stored
  end.

(** [mergeStorageConfig(config)] for a [config] that carries the keys
    [autoCleanEnabled] and [autoCleanDays], each optional. *)
Definition mergeAutoClean
           (enabled : option (option bool)) (days : option (option Z))
  : M unit :=
  modify (fun w =>
            let c := storageConfig w in
            with_config w
              {| basePath := basePath c;
                 projectPath := projectPath c;
                 mediaPath := mediaPath c;
                 autoCleanEnabled := assignKey (autoCleanEnabled c) enabled;
                 autoCleanDays := assignKey (autoCleanDays c) days |}).

(** Lines 392 to 397. *)
Definition storage_update_config
           (enabled : option (option bool)) (days : option (option Z))
           (autoCleanInterval : option (option Z))
  : M (bool * Scheduled) :=
  mergeAutoClean enabled days ;;
  saveStorageConfig ;;
  scheduled <- scheduleAutoClean autoCleanInterval ;;
  ret (true, scheduled).

End OtherHandlers.

Section ExportHandlers.
Variable h : Host.

(** [`moyin-data-${new Date().toISOString().replace(/[:.]/g, '-')}`]. *)
Definition exportName (t : Z) : string :=
  "moyin-data-" ++ JsDate.dashed (JsDate.toISOString t).

(** Lines 170 to 191. *)
Definition storage_export_data (targetPath : string) : M OpResult :=
  tryCatch
    (if negb (JsString.truthy targetPath) then ret (failure EMPTY_PATH)
     else
       t <- gets now ;;
       let exportDir :=
         Path.join (normalizePath h targetPath) (exportName t) in
       let exportProjectsDir := Path.join exportDir "projects" in
       let exportMediaDir := Path.join exportDir "media" in
       ensureDir h exportProjectsDir ;;
       ensureDir h exportMediaDir ;;
       projects <- getProjectDataRoot h ;;
       copyDir h projects exportProjectsDir ;;
       media <- getMediaRoot h ;;
       copyDir h media exportMediaDir ;;
       ret (succeeded (Some exportDir)))
    (fun error => ret (failure error)).

(** Lines 294 to 309 and 337 to 353: the two retired export handlers. *)
Definition storage_export_project_data (targetPath : string) : M OpResult :=
  tryCatch
    (if negb (JsString.truthy targetPath) then ret (failure EMPTY_PATH)
     else
       t <- gets now ;;
       let exportDir :=
         Path.join (normalizePath h targetPath) (exportName t) in
       ensureDir h (Path.join exportDir "projects") ;;
       ensureDir h (Path.join exportDir "media") ;;
       projects <- getProjectDataRoot h ;;
       copyDir h projects (Path.join exportDir "projects") ;;
       media <- getMediaRoot h ;;
       copyDir h media (Path.join exportDir "media") ;;
       ret (succeeded (Some exportDir)))
    (fun error => ret (failure error)).

Definition storage_export_media_data (targetPath : string) : M OpResult :=
  tryCatch
    (if negb (JsString.truthy targetPath) then ret (failure EMPTY_PATH)
     else
       t <- gets now ;;
       let exportDir :=
         Path.join (normalizePath h targetPath) (exportName t) in
       ensureDir h (Path.join exportDir "projects") ;;
       ensureDir h (Path.join exportDir "media") ;;
       projects <- getProjectDataRoot h ;;
       copyDir h projects (Path.join exportDir "projects") ;;
       media <- getMediaRoot h ;;
       copyDir h media (Path.join exportDir "media") ;;
       ret (succeeded (Some exportDir)))
    (fun error => ret (failure error)).

End ExportHandlers.

(* ================================================================== *)
(** * The file storage handlers *)
(* ================================================================== *)

(** [file-storage-handlers.ts] keeps one value per key in a file
    [<key>.json] under the project data root.  Its [getDataDir] and
    [ensureDir] are taken to be the functions of these names in
    [path-utils.ts].  Values are well-formed strings, held as their UTF-8
    bytes, so that what is written with ['utf-8'] is read back the same. *)

Module JsText.

(** [s.includes(sub)]. *)
Fixpoint includes (s sub : string) : bool :=
  (String.prefix sub s
   || match s with
      | EmptyString => false
      | String _ s' => includes s' sub
      end)%bool.

(** The rest of [s] after its first [n] characters. *)
Fixpoint drop (n : nat) (s : string) : string :=
  match n, s with
  | S k, String _ s' => drop k s'
  | _, _ => s
  end.

(** [s.replace(pattern, replacement)] for a string pattern: the first
    occurrence is replaced (the replacement is taken as it is written). *)
Fixpoint replace (s pattern replacement : string) : string :=
  if String.prefix pattern s then
    replacement ++ drop (String.length pattern) s
  else
    match s with
    | EmptyString => EmptyString
    | String c s' => String c (replace s' pattern replacement)
    end.

End JsText.

Section FileStorage.
Variable h : Host.

(** [fs.readFileSync(p, 'utf-8')]. *)
Definition readFileSync (p : string) : M string :=
  fun w =>
    if Tree.blocked (fs w) (segments h p) then
      (Throw "Error: ENOTDIR: not a directory, open", w)
    else
      match Tree.lookup (fs w) (segments h p) with
      | Some (Tree.File _ d) => (Ret d, w)
      | Some (Tree.Dir _) =>
          (Throw "Error: EISDIR: illegal operation on a directory, read", w)
      | None => (Throw "Error: ENOENT: no such file or directory, open", w)
      end.

(** [fs.writeFileSync(p, value, 'utf-8')]: the file is made or overwritten
    and stamped with the current time; the directory it goes into has to
    be there. *)
Definition writeFileSync (p value : string) : M unit :=
  fun w =>
    let s := segments h p in
    if Tree.blocked (fs w) s then
      (Throw "Error: ENOTDIR: not a directory, open", w)
    else
      match Tree.lookup (fs w) s with
      | Some (Tree.Dir _) =>
          (Throw "Error: EISDIR: illegal operation on a directory, open", w)
      | Some (Tree.File _ _) =>
          (Ret tt,
           with_fs w (Tree.alter (fun _ => Some (Tree.File (now w) value)) s
                                 (fs w)))
      | None =>
          match Tree.lookup (fs w) (removelast s) with
          | Some (Tree.Dir _) =>
              (Ret tt,
               with_fs w (Tree.alter
                            (fun _ => Some (Tree.File (now w) value)) s
                            (fs w)))
          | _ => (Throw "Error: ENOENT: no such file or directory, open", w)
          end
      end.

(** [key.includes('..') || path.isAbsolute(key)]. *)
Definition invalidKey (key : string) : bool :=
  (JsText.includes key ".." || Path.isAbsolute key)%bool.

(** Lines 64 to 80 of the file; [None] is [null]. *)
Definition file_storage_get (key : string) : M (option string) :=
  tryCatch
    (if invalidKey key then ret None
     else
       dataDir <- getDataDir h ;;
       let filePath := Path.join dataDir (key ++ ".json") in
       e <- existsSync h filePath ;;
       if e then
         data <- readFileSync filePath ;;
         ret (Some data)
       else ret None)
    (fun _ => ret None).

(** Lines 82 to 99. *)
Definition file_storage_set (key value : string) : M bool :=
  tryCatch
    (if invalidKey key then ret false
     else
       dataDir <- getDataDir h ;;
       let filePath := Path.join dataDir (key ++ ".json") in
       let parentDir := Path.dirname filePath in
       ensureDir h parentDir ;;
       writeFileSync filePath value ;;
       ret true)
    (fun _ => ret false).

(** Lines 101 to 116. *)
Definition file_storage_remove (key : string) : M bool :=
  tryCatch
    (if invalidKey key then ret false
     else
       dataDir <- getDataDir h ;;
       let filePath := Path.join dataDir (key ++ ".json") in
       e <- existsSync h filePath ;;
       when e (unlinkSync h filePath) ;;
       ret true)
    (fun _ => ret false).

(** Lines 118 to 128. *)
Definition file_storage_exists (key : string) : M bool :=
  tryCatch
    (if invalidKey key then ret false
     else
       dataDir <- getDataDir h ;;
       let filePath := Path.join dataDir (key ++ ".json") in
       existsSync h filePath)
    (fun _ => ret false).

(** Lines 130 to 141: the keys under [prefix], one for every regular file
    whose name ends in [.json]. *)
Definition file_storage_list (prefix : string) : M (list string) :=
  tryCatch
    (dataDir <- getDataDir h ;;
     let dirPath := Path.join dataDir prefix in
     e <- existsSync h dirPath ;;
     if negb e then ret []
     else
       entries <- readdirTypes h dirPath ;;
       ret (map (fun e => prefix ++ "/" ++ JsText.replace (fst e) ".json" "")
                (filter (fun e => negb (snd e)
                                  && JsString.endsWith (fst e) ".json")
                        entries)))
    (fun _ => ret []).

(** Lines 143 to 154. *)
Definition file_storage_remove_dir (prefix : string) : M bool :=
  tryCatch
    (dataDir <- getDataDir h ;;
     let dirPath := Path.join dataDir prefix in
     e <- existsSync h dirPath ;;
     when e (rm h dirPath) ;;
     ret true)
    (fun _ => ret false).

End FileStorage.

(* ================================================================== *)
(** * Vocabulary of the statements *)
(* ================================================================== *)

(** A string without separator. *)
Fixpoint sepFree (s : string) : bool :=
  match s with
  | EmptyString => true
  | String c s' => negb (Path.is_sep c) && sepFree s'
  end.

(** A string of ASCII characters: every character is below 128. *)
Definition isAscii (s : string) : bool :=
  forallb (fun c => Nat.ltb (nat_of_ascii c) 128) (list_ascii_of_string s).

(** A file or directory name: not empty, not [.] or [..], no separator. *)
Definition plainName (x : string) : bool :=
  negb (String.eqb x "") && negb (String.eqb x ".")
  && negb (String.eqb x "..") && sepFree x.

(** The segments of an absolute path. *)
Definition absSegs (p : string) : list string :=
  Path.normalizeSegs false [] (Path.split p).

(** The platform hands out absolute paths. *)
Definition hostOk (h : Host) : Prop :=
  Path.isAbsolute (cwd h) = true /\ Path.isAbsolute (userData h) = true
  /\ Path.isAbsolute (tmpdir h) = true.

(** There is a directory at [p]. *)
Definition dirAt (t : Tree.node) (p : list string) : Prop :=
  exists es, Tree.lookup t p = Some (Tree.Dir es).

(** [child] lies strictly below [parent]. *)
Definition strictlyBelow (parent child : list string) : Prop :=
  exists r, r <> [] /\ child = (parent ++ r)%list.

(** ** Sample hosts and worlds *)

Module Sample.
Import Tree.

Definition host : Host :=
  {| cwd := "/work"; userData := "/ud"; tmpdir := "/tmp" |}.

(** A data root under [/data/base], three import sources, a cache. *)
Definition disk : node :=
  Dir [ ("data",
         Dir [ ("base",
                Dir [ ("projects",
                       Dir [ ("a.json", File 1 "A");
                             ("_p", Dir [ ("_migrated.json", File 1 "x");
                                          ("p1", Dir []) ]) ]);
                      ("media", Dir [ ("m.png", File 2 "MM") ]) ]) ]);
        ("src", Dir [ ("media", Dir [ ("n.png", File 3 "N") ]) ]);
        ("src2", Dir [ ("projects", Dir [ ("z.json", File 3 "Z") ]) ]);
        ("src3", Dir [ ("projects", Dir [ ("q.json", File 4 "Q") ]);
                       ("media", Dir [ ("k.png", File 4 "KK") ]) ]);
        ("tmp", Dir []);
        ("work", Dir []);
        ("ud",
         Dir [ ("Cache",
                Dir [ ("old", File 5 "12345");
                      ("d", Dir [ ("o2", File 6 "12"); ("e", Dir []) ]);
                      ("new", File 100000000000 "abc") ]) ]) ].

Definition configAt (base : string) : StorageConfig :=
  {| basePath := Some base; projectPath := Some ""; mediaPath := Some "";
     autoCleanEnabled := Some false; autoCleanDays := Some 30 |}.

Definition noFault : string -> string -> option (option node * string) :=
  fun _ _ => None.

Definition world : World :=
  {| fs := disk; storageConfig := configAt "/data/base";
     configFile := Some (configAt "/data/base");
     now := 99999999999; cpFault := noFault |}.

Definition worldAt (base : string) : World :=
  with_config world (configAt base).

(** The copy that reads [failing] throws and leaves a half-written file
    behind. *)
Definition copyFault (failing : string)
  : string -> string -> option (option node * string) :=
  fun src dst =>
    if String.eqb src failing then
      Some (Some (Dir [ ("z.json", File 7 "") ]), "Error: EIO: i/o error, cp")
    else None.

Definition faultyWorld (failing : string) : World :=
  {| fs := disk; storageConfig := configAt "/data/base";
     configFile := Some (configAt "/data/base");
     now := 7; cpFault := copyFault failing |}.

(** The sample disk with nothing in the live project root. *)
Definition emptyRootDisk : node :=
  Dir [ ("data",
         Dir [ ("base",
                Dir [ ("projects", Dir []);
                      ("media", Dir [ ("m.png", File 2 "MM") ]) ]) ]);
        ("src3", Dir [ ("projects", Dir [ ("q.json", File 4 "Q") ]);
                       ("media", Dir [ ("k.png", File 4 "KK") ]) ]);
        ("tmp", Dir []) ].

Definition emptyRootWorld : World :=
  {| fs := emptyRootDisk; storageConfig := configAt "/data/base";
     configFile := Some (configAt "/data/base");
     now := 7; cpFault := copyFault "/src3/projects" |}.

(** Besides the copy that reads [failing], the copy that reads [again]
    throws too, before it has written anything. *)
Definition twoCopyFaults (failing again : string)
  : string -> string -> option (option node * string) :=
  fun src dst =>
    if String.eqb src again then
      Some (Some (Dir []), "Error: ENOSPC: no space left on device, cp")
    else copyFault failing src dst.

Definition twiceFaultyWorld (failing again : string) : World :=
  {| fs := disk; storageConfig := configAt "/data/base";
     configFile := Some (configAt "/data/base");
     now := 7; cpFault := twoCopyFaults failing again |}.

End Sample.

(** ** Cache accounting *)

(** What [getDirectorySize] reports for what stands at a path. *)
Definition measured (o : option Tree.node) : Z :=
  match o with
  | Some (Tree.Dir es) => Tree.sizeOf (Tree.Dir es)
  | _ => 0
  end.

Definition sumZ (l : list Z) : Z := fold_right Z.add 0 l.

(** Every regular file of [before] not older than [cutoff] is still there,
    at the same place, with the same time stamp and bytes. *)
Definition keepsNewer (cutoff : Z) (before after : Tree.node) : Prop :=
  forall r m d,
    Tree.lookup before r = Some (Tree.File m d) -> cutoff <= m ->
    Tree.lookup after r = Some (Tree.File m d).

(** No regular file older than [cutoff] is left. *)
Definition noOlderLeft (cutoff : Z) (after : Tree.node) : Prop :=
  forall r m d, Tree.lookup after r = Some (Tree.File m d) -> cutoff <= m.

(** No empty directory is left below the top. *)
Definition noEmptyBelow (after : Tree.node) : Prop :=
  forall r, r <> [] -> Tree.lookup after r <> Some (Tree.Dir []).

(** [after] is [before] pruned at [cutoff], [cleared] bytes lighter. *)
Definition prunedTo (cutoff : Z) (before after : Tree.node) (cleared : Z)
  : Prop :=
  keepsNewer cutoff before after /\ noOlderLeft cutoff after
  /\ noEmptyBelow after
  /\ Tree.sizeOf before = cleared + Tree.sizeOf after.

(** The same for what stands at a path: only a directory is pruned. *)
Definition prunedAt (cutoff : Z) (before after : option Tree.node)
           (cleared : Z) : Prop :=
  match before with
  | Some (Tree.Dir es) =>
      exists es', after = Some (Tree.Dir es')
                  /\ prunedTo cutoff (Tree.Dir es) (Tree.Dir es') cleared
  | _ => after = before /\ cleared = 0
  end.

(** What [deleteOldFiles] returns and leaves for what stands at a path. *)
Definition clearedAt (cutoff : Z) (o : option Tree.node) : Z :=
  match o with
  | Some (Tree.Dir es) => fst (Tree.pruneNode cutoff (Tree.Dir es))
  | _ => 0
  end.

Definition leftAt (cutoff : Z) (o : option Tree.node) : option Tree.node :=
  match o with
  | Some (Tree.Dir es) => Some (snd (Tree.pruneNode cutoff (Tree.Dir es)))
  | _ => o
  end.

(** ** Frames and invariants *)

(** [t'] agrees with [t] at every path that is neither above nor below
    [p]. *)
Definition sameOutside (p : list string) (t t' : Tree.node) : Prop :=
  forall q, Tree.incomparable p q -> Tree.lookup t' q = Tree.lookup t q.

(** [m] keeps the invariant [J], whether it returns or throws, and what it
    returns satisfies [Q]. *)
Definition hoare {A} (J : World -> Prop) (m : M A) (Q : A -> Prop) : Prop :=
  forall w, J w ->
    J (snd (m w)) /\ forall a, fst (m w) = Ret a -> Q a.

(** The migration marker, relative to the project root. *)
Definition flagPath : list string := ["_p"; "_migrated.json"].

(** What holds of the world all along an import that brings no [projects/]:
    configuration and clock stay, nothing stands at the backup place [Bp] of
    the project root, and the project root [P] holds [n0], with or without
    its migration marker. *)
Definition importInvariant (c0 : StorageConfig)
           (f0 : option StorageConfig) (t0 : Z)
           (P Bp : list string) (n0 : Tree.node) (w : World) : Prop :=
  storageConfig w = c0 /\ configFile w = f0 /\ now w = t0
  /\ Tree.lookup (fs w) Bp = None
  /\ (Tree.lookup (fs w) P = Some n0
      \/ Tree.lookup (fs w) P
         = Some (Tree.alter (fun _ => None) flagPath n0)).

(** The paths are pairwise neither above nor below one another. *)
Definition apart (ps : list (list string)) : Prop :=
  ForallOrdPairs Tree.incomparable ps.

(** A computation that leaves the world as it found it. *)
Definition readOnly {A} (m : M A) : Prop := forall w, snd (m w) = w.

(** The Config Store (in memory and on disk) is the same in both worlds. *)
Definition sameConfig (w w' : World) : Prop :=
  storageConfig w' = storageConfig w /\ configFile w' = configFile w.

(** A computation that does not write the Config Store. *)
Definition keepsConfig {A} (m : M A) : Prop :=
  forall w, sameConfig w (snd (m w)).


(** ** Paths as segment lists *)

(** The segments of a path written one after the other, each closed by a
    separator: what follows the leading separator in
    [path.resolve(p) + path.sep] when [p] is not the root. *)
Fixpoint trail (xs : list string) : string :=
  match xs with
  | [] => ""
  | x :: xs' => x ++ "/" ++ trail xs'
  end.

(** The tree after the root at [D] has been removed and made again. *)
Definition emptied (D : list string) (t : Tree.node) : Tree.node :=
  Tree.alter (fun _ => Some (Tree.Dir [])) D (Tree.alter (fun _ => None) D t).

(** The characters of [l] from the first one that fails [f] on, as the
    scan of [path.dirname] skips them. *)
Fixpoint dropWhile (f : ascii -> bool) (l : list ascii) : list ascii :=
  match l with
  | c :: l' => if f c then dropWhile f l' else l
  | [] => []
  end.

(** No segment is [..]. *)
Definition noDotDot (xs : list string) : bool :=
  forallb (fun x => negb (String.eqb x "..")) xs.

(** [w'] differs from [w] in the file system at most: configuration,
    clock and injected faults are the same. *)
Definition fsOnly (w w' : World) : Prop := exists t, w' = with_fs w t.

(** From [w] to [w'] only the file system has changed, and only at, above
    or below the path [P]. *)
Definition within (P : list string) (w w' : World) : Prop :=
  fsOnly w w' /\ sameOutside P (fs w) (fs w').

(** What the project root holds after a successful import of a source
    whose [projects/] holds [xs]: the copy of [xs], without the migration
    marker where [xs] has one. *)
Definition imported (now : Z) (xs : Tree.entries_t) : Tree.node :=
  match Tree.lookup (Tree.Dir xs) flagPath with
  | Some _ =>
      Tree.alter (fun _ => None) flagPath (Tree.touch now (Tree.Dir xs))
  | None => Tree.touch now (Tree.Dir xs)
  end.

(* ================================================================== *)
(** * Facts about the tree operations *)
(* ================================================================== *)

Module TreeFacts.
Import Tree.
Local Open Scope list_scope.

Lemma assoc_put_same x n es : assoc x (put_entry x n es) = Some n.
Proof.
  induction es as [|[y c] es IH]; simpl.
  - now rewrite String.eqb_refl.
  - destruct (String.eqb x y) eqn:E; simpl.
    + now rewrite String.eqb_refl.
    + now rewrite E.
Qed.

Lemma assoc_put_other x y n es :
  x <> y -> assoc y (put_entry x n es) = assoc y es.
Proof.
  intros Hxy. induction es as [|[z c] es IH]; simpl.
  - destruct (String.eqb_spec y x); [congruence|reflexivity].
  - destruct (String.eqb_spec x z) as [->|Hxz]; simpl.
    + destruct (String.eqb_spec y z); [congruence|reflexivity].
    + now rewrite IH.
Qed.

Lemma assoc_del_same x es : assoc x (del_entry x es) = None.
Proof.
  induction es as [|[y c] es IH]; simpl; [reflexivity|].
  destruct (String.eqb x y) eqn:E; simpl; [assumption|].
  now rewrite E.
Qed.

Lemma assoc_del_other x y es :
  x <> y -> assoc y (del_entry x es) = assoc y es.
Proof.
  intros Hxy. induction es as [|[z c] es IH]; simpl; [reflexivity|].
  destruct (String.eqb_spec x z) as [->|Hxz]; simpl.
  - destruct (String.eqb_spec y z); [congruence|assumption].
  - now rewrite IH.
Qed.

Lemma assoc_set_same x v es : assoc x (set_entry x v es) = v.
Proof.
  destruct v; simpl; [apply assoc_put_same|apply assoc_del_same].
Qed.

Lemma assoc_set_other x y v es :
  x <> y -> assoc y (set_entry x v es) = assoc y es.
Proof.
  destruct v; simpl; [apply assoc_put_other|apply assoc_del_other].
Qed.

Lemma lookupo_None p : lookupo None p = None.
Proof. destruct p; reflexivity. Qed.

Lemma lookupo_File m d p : p <> [] -> lookupo (Some (File m d)) p = None.
Proof. destruct p; [congruence|reflexivity]. Qed.

Lemma lookupo_app o p r : lookupo o (p ++ r) = lookupo (lookupo o p) r.
Proof.
  revert o. induction p as [|x p IH]; intros o; simpl; [reflexivity|].
  destruct o as [[m d|es]|]; try apply IH; now rewrite lookupo_None.
Qed.

(** Rewriting below [q ++ r] is rewriting at [q] with the rewriting at [r]. *)
Lemma upd_app g q r o : upd g (q ++ r) o = upd (upd g r) q o.
Proof.
  revert o. induction q as [|x q IH]; intros o; simpl; [reflexivity|].
  destruct o as [[m d|es]|]; rewrite ?IH; reflexivity.
Qed.

(** What stands at [p] after rewriting at [p], when no file is in the way. *)
Lemma lookupo_upd_same g p o :
  blockedo o p = false -> lookupo (upd g p o) p = g (lookupo o p).
Proof.
  revert o. induction p as [|x p IH]; intros o Hb; simpl; [reflexivity|].
  destruct o as [[m d|es]|]; simpl in *.
  - discriminate.
  - rewrite assoc_set_same. now apply IH.
  - assert (Hp : blockedo None p = false) by (destruct p; reflexivity).
    specialize (IH None Hp). rewrite lookupo_None in *.
    destruct (upd g p None) eqn:E; simpl.
    + rewrite String.eqb_refl. exact IH.
    + rewrite lookupo_None in IH. exact IH.
Qed.

Lemma prefixb_refl p : prefixb p p = true.
Proof. induction p; simpl; [reflexivity|]. now rewrite String.eqb_refl. Qed.

Lemma prefixb_app p r : prefixb p (p ++ r) = true.
Proof. induction p; simpl; [reflexivity|]. now rewrite String.eqb_refl. Qed.

Lemma prefixb_spec p q : prefixb p q = true <-> exists r, q = p ++ r.
Proof.
  revert q. induction p as [|x p IH]; intros q; simpl.
  - split; [intros _; now exists q|reflexivity].
  - destruct q as [|y q].
    + split; [discriminate|intros [r Hr]; discriminate].
    + rewrite andb_true_iff, IH. split.
      * intros [Hxy [r ->]]. apply String.eqb_eq in Hxy. subst. now exists r.
      * intros [r Hr]. injection Hr as -> ->. rewrite String.eqb_refl.
        split; [reflexivity|now exists r].
Qed.

Lemma incomparable_sym p q : incomparable p q -> incomparable q p.
Proof. intros [H1 H2]. now split. Qed.

(** Rewriting at [p] is not seen from a path that is neither above nor
    below [p]. *)
Lemma lookupo_upd_frame g p q o :
  incomparable p q -> lookupo (upd g p o) q = lookupo o q.
Proof.
  revert q o. induction p as [|x p IH]; intros q o [Hpq Hqp].
  - discriminate.
  - destruct q as [|y q]; [discriminate|]. simpl in Hpq, Hqp.
    destruct (String.eqb_spec x y) as [->|Hxy].
    + rewrite String.eqb_refl in Hqp. simpl in Hpq, Hqp.
      assert (Hi : incomparable p q) by now split.
      destruct o as [[m d|es]|]; simpl.
      * reflexivity.
      * rewrite assoc_set_same. now apply IH.
      * specialize (IH q None Hi). rewrite lookupo_None in IH.
        destruct (upd g p None); simpl;
          [now rewrite String.eqb_refl|reflexivity].
    + destruct o as [[m d|es]|]; simpl.
      * reflexivity.
      * now rewrite assoc_set_other.
      * destruct (upd g p None); simpl; [|reflexivity].
        destruct (String.eqb_spec y x); [congruence|].
        now rewrite lookupo_None.
Qed.

Lemma upd_Some_nonroot g p t :
  p <> [] -> exists t', upd g p (Some t) = Some t'.
Proof.
  destruct p as [|x p]; [congruence|]. intros _.
  destruct t as [m d|es]; simpl; eexists; reflexivity.
Qed.

Lemma lookup_alter g p t :
  p <> [] -> lookup (alter g p t) = lookupo (upd g p (Some t)).
Proof.
  intros Hp. unfold alter, lookup.
  destruct (upd_Some_nonroot g p t Hp) as [t' ->]. reflexivity.
Qed.

Lemma incomparable_nonroot p q : incomparable p q -> p <> [] /\ q <> [].
Proof.
  intros [H1 H2]. split; intros ->; simpl in *; discriminate.
Qed.

Lemma lookup_alter_frame g p q t :
  incomparable p q -> lookup (alter g p t) q = lookup t q.
Proof.
  intros Hi. destruct (incomparable_nonroot _ _ Hi) as [Hp _].
  rewrite lookup_alter by assumption. now apply lookupo_upd_frame.
Qed.

Lemma lookup_alter_same g p t :
  p <> [] -> blocked t p = false ->
  lookup (alter g p t) p = g (lookup t p).
Proof.
  intros Hp Hb. rewrite lookup_alter by assumption.
  now apply lookupo_upd_same.
Qed.

(** Below the rewritten place one sees the inside of what was written. *)
Lemma lookup_alter_below g p r t :
  p <> [] -> blocked t p = false ->
  lookup (alter g p t) (p ++ r) = lookupo (g (lookup t p)) r.
Proof.
  intros Hp Hb. unfold lookup. rewrite lookupo_app.
  fold (lookup (alter g p t) p). now rewrite lookup_alter_same.
Qed.

(** Above the rewritten place: the ancestor [q] is rewritten by the
    rewriting of the rest of the path. *)
Lemma lookup_alter_above g q r t :
  q ++ r <> [] -> blocked t q = false ->
  lookup (alter g (q ++ r) t) q = upd g r (lookup t q).
Proof.
  intros Hp Hb. rewrite lookup_alter by assumption.
  rewrite upd_app. now apply lookupo_upd_same.
Qed.

Lemma blockedo_None p : blockedo None p = false.
Proof. destruct p; reflexivity. Qed.

Lemma blockedo_app o p r :
  blockedo o (p ++ r) = (blockedo o p || blockedo (lookupo o p) r)%bool.
Proof.
  revert o. induction p as [|x p IH]; intros o; simpl; [reflexivity|].
  destruct o as [[m d|es]|]; simpl; try apply IH.
  - reflexivity.
  - now rewrite blockedo_None.
Qed.

Lemma lookupo_Some_not_blocked o p n :
  lookupo o p = Some n -> blockedo o p = false.
Proof.
  revert o. induction p as [|x p IH]; intros o H; simpl in *; [reflexivity|].
  destruct o as [[m d|es]|]; try discriminate. now apply IH.
Qed.

(** Below an existing directory the first step is never blocked. *)
Lemma blocked_child t q x es :
  lookup t q = Some (Dir es) -> blocked t (q ++ [x]) = false.
Proof.
  intros H. unfold blocked. rewrite blockedo_app.
  fold (lookup t q). rewrite H. simpl.
  rewrite (lookupo_Some_not_blocked _ _ _ H). reflexivity.
Qed.

(** Below a path that is free and not blocked nothing is blocked. *)
Lemma blocked_below_free t q r :
  blocked t q = false -> lookup t q = None -> blocked t (q ++ r) = false.
Proof.
  intros Hb Hn. unfold blocked. rewrite blockedo_app.
  fold (blocked t q) (lookup t q). rewrite Hb, Hn. apply blockedo_None.
Qed.

End TreeFacts.

(* ================================================================== *)
(** * Facts about strings and paths *)
(* ================================================================== *)

Module PathFacts.
Import JsString Path.

Example resolve_relative : resolve "/work" "a/../b/" = "/work/b".
Proof. reflexivity. Qed.

Example resolve_empty : resolve "/work" "" = "/work".
Proof. reflexivity. Qed.

Example resolve_root : resolve "/work" "/" = "/".
Proof. reflexivity. Qed.

Example join_plain : join "/data/old" "projects" = "/data/old/projects".
Proof. reflexivity. Qed.

Example join_normalizes : join "/data/old/" "../new//x/" = "/data/new/x/".
Proof. reflexivity. Qed.

Example dirname_plain : dirname "/data/old/projects" = "/data/old".
Proof. reflexivity. Qed.

Example dirname_trailing : dirname "/a/b///" = "/a".
Proof. reflexivity. Qed.

Example dirname_top : dirname "/a" = "/".
Proof. reflexivity. Qed.

Example trim_both : trim "  /srv/data  " = "/srv/data".
Proof. reflexivity. Qed.

Example lower_path : toLowerCase "/DATA/Base" = "/data/base".
Proof. reflexivity. Qed.

Ltac by_ascii c := destruct c as [[] [] [] [] [] [] [] []]; reflexivity.

Lemma is_sep_lower c : is_sep (lower_ascii c) = is_sep c.
Proof. by_ascii c. Qed.

Lemma is_dot_lower c :
  Ascii.eqb (lower_ascii c) "."%char = Ascii.eqb c "."%char.
Proof. by_ascii c. Qed.

Lemma toLowerCase_app a b :
  toLowerCase (a ++ b) = toLowerCase a ++ toLowerCase b.
Proof. induction a; simpl; [reflexivity|now rewrite IHa]. Qed.

Lemma toLowerCase_length s : String.length (toLowerCase s) = String.length s.
Proof. induction s; simpl; [reflexivity|now rewrite IHs]. Qed.

Lemma isAbsolute_lower s : isAbsolute (toLowerCase s) = isAbsolute s.
Proof. destruct s; simpl; [reflexivity|apply is_sep_lower]. Qed.

Lemma toLowerCase_empty s : toLowerCase s = "" <-> s = "".
Proof. destruct s; simpl; split; congruence. Qed.

Lemma split_nonempty s : split s <> [].
Proof.
  destruct s as [|c s]; simpl; [discriminate|].
  destruct (is_sep c); [discriminate|]. destruct (split s); discriminate.
Qed.

Lemma split_lower s : split (toLowerCase s) = map toLowerCase (split s).
Proof.
  induction s as [|c s IH]; simpl; [reflexivity|].
  rewrite is_sep_lower. destruct (is_sep c); simpl; [now rewrite IH|].
  rewrite IH. destruct (split s); reflexivity.
Qed.

Lemma eqb_lower_empty x : String.eqb (toLowerCase x) "" = String.eqb x "".
Proof. destruct x; reflexivity. Qed.

Lemma eqb_lower_dot x : String.eqb (toLowerCase x) "." = String.eqb x ".".
Proof.
  destruct x as [|c x]; simpl; [reflexivity|].
  rewrite is_dot_lower. destruct (Ascii.eqb c "."); [|reflexivity].
  apply eqb_lower_empty.
Qed.

Lemma eqb_lower_dotdot x :
  String.eqb (toLowerCase x) ".." = String.eqb x "..".
Proof.
  destruct x as [|c x]; simpl; [reflexivity|].
  rewrite is_dot_lower. destruct (Ascii.eqb c "."); [|reflexivity].
  apply eqb_lower_dot.
Qed.

Lemma normalizeSegs_lower b acc xs :
  normalizeSegs b (map toLowerCase acc) (map toLowerCase xs)
  = map toLowerCase (normalizeSegs b acc xs).
Proof.
  revert acc. induction xs as [|x xs IH]; intros acc; simpl.
  - now rewrite map_rev.
  - rewrite eqb_lower_empty, eqb_lower_dot, eqb_lower_dotdot.
    destruct (String.eqb x "" || String.eqb x ".")%bool; [apply IH|].
    destruct (String.eqb x "..").
    + destruct acc as [|top acc]; simpl.
      * destruct b; apply (IH [_]) || apply (IH []).
      * rewrite eqb_lower_dotdot. destruct (String.eqb top "..").
        -- destruct b; [apply (IH (_ :: _ :: _))|apply (IH (_ :: _))].
        -- apply IH.
    + apply (IH (_ :: _)).
Qed.

Lemma unsplit_lower xs :
  toLowerCase (unsplit xs) = unsplit (map toLowerCase xs).
Proof.
  induction xs as [|x xs IH]; [reflexivity|].
  destruct xs as [|y xs]; [reflexivity|].
  change (unsplit (x :: y :: xs)) with (x ++ sep ++ unsplit (y :: xs)).
  rewrite !toLowerCase_app, IH. reflexivity.
Qed.

Lemma normalizeString_lower p b :
  toLowerCase (normalizeString p b) = normalizeString (toLowerCase p) b.
Proof.
  unfold normalizeString.
  now rewrite unsplit_lower, split_lower, <- (normalizeSegs_lower b []).
Qed.

(** Lower-casing commutes with [path.resolve]. *)
Lemma resolve_lower cwd p :
  toLowerCase (resolve cwd p) = resolve (toLowerCase cwd) (toLowerCase p).
Proof.
  unfold resolve.
  set (full := match p with
               | "" => cwd
               | _ => if isAbsolute p then p else cwd ++ "/" ++ p
               end).
  assert (Hfull : match toLowerCase p with
                  | "" => toLowerCase cwd
                  | _ => if isAbsolute (toLowerCase p) then toLowerCase p
                         else toLowerCase cwd ++ "/" ++ toLowerCase p
                  end = toLowerCase full).
  { subst full. destruct p as [|c p]; [reflexivity|].
    rewrite isAbsolute_lower. cbn [toLowerCase].
    destruct (isAbsolute (String c p)); [reflexivity|].
    now rewrite !toLowerCase_app. }
  rewrite Hfull, isAbsolute_lower. destruct (isAbsolute full).
  - rewrite toLowerCase_app, normalizeString_lower. reflexivity.
  - rewrite <- normalizeString_lower.
    destruct (normalizeString full true); reflexivity.
Qed.

Lemma resolve_same_case cwd p q :
  toLowerCase p = toLowerCase q ->
  toLowerCase (resolve cwd p) = toLowerCase (resolve cwd q).
Proof. intros H. now rewrite !resolve_lower, H. Qed.

(** ** Prefixes of strings *)

Lemma prefix_app a b : String.prefix a (a ++ b) = true.
Proof.
  induction a as [|c a IH]; simpl; [now destruct b|].
  destruct (ascii_dec c c); [assumption|congruence].
Qed.

Lemma prefix_length a b :
  String.prefix a b = true -> (String.length a <= String.length b)%nat.
Proof.
  revert b. induction a as [|c a IH]; intros b H; simpl; [lia|].
  destruct b as [|d b]; simpl in *; [discriminate|].
  destruct (ascii_dec c d); [|discriminate].
  specialize (IH b H). lia.
Qed.

Lemma append_assoc (a b c : string) : (a ++ b) ++ c = a ++ b ++ c.
Proof. induction a; simpl; [reflexivity|now rewrite IHa]. Qed.

Lemma append_length (a b : string) :
  String.length (a ++ b) = (String.length a + String.length b)%nat.
Proof. induction a; simpl; [reflexivity|now rewrite IHa]. Qed.

Lemma unsplit_app (xs ys : list string) :
  xs <> [] -> ys <> [] ->
  unsplit (xs ++ ys)%list = unsplit xs ++ "/" ++ unsplit ys.
Proof.
  intros Hx Hy. induction xs as [|x xs IH]; [congruence|].
  destruct xs as [|x' xs].
  - simpl. destruct ys; [congruence|reflexivity].
  - change (unsplit ((x :: x' :: xs) ++ ys)%list)
      with (x ++ sep ++ unsplit ((x' :: xs) ++ ys)%list).
    rewrite IH by discriminate.
    change (unsplit (x :: x' :: xs)) with (x ++ sep ++ unsplit (x' :: xs)).
    now rewrite !append_assoc.
Qed.

End PathFacts.

Module SegmentFacts.
Import JsString Path PathFacts.

Lemma split_app_sep a b : split (a ++ "/" ++ b) = (split a ++ split b)%list.
Proof.
  induction a as [|c a IH]; [reflexivity|].
  cbn [append split]. destruct (is_sep c).
  - simpl. f_equal. exact IH.
  - change (String "/" b) with ("/" ++ b) . rewrite IH.
    destruct (split a) eqn:E; [now apply split_nonempty in E|reflexivity].
Qed.

Lemma split_sepFree x : sepFree x = true -> split x = [x].
Proof.
  induction x as [|c x IH]; simpl; [reflexivity|].
  intros H. apply andb_true_iff in H as [Hc Hx].
  destruct (is_sep c); [discriminate|]. now rewrite IH.
Qed.

Lemma split_all_sepFree s : forallb sepFree (split s) = true.
Proof.
  induction s as [|c s IH]; [reflexivity|]. simpl.
  destruct (is_sep c) eqn:E; [exact IH|].
  destruct (split s) as [|x xs]; simpl in *; [now rewrite E|].
  now rewrite E.
Qed.

Lemma split_unsplit xs :
  xs <> [] -> forallb sepFree xs = true -> split (unsplit xs) = xs.
Proof.
  induction xs as [|x xs IH]; [congruence|]. intros _ H.
  simpl in H. apply andb_true_iff in H as [Hx Hxs].
  destruct xs as [|y xs]; [now apply split_sepFree|].
  change (unsplit (x :: y :: xs)) with (x ++ "/" ++ unsplit (y :: xs)).
  rewrite split_app_sep, split_sepFree by assumption.
  rewrite IH by (assumption || discriminate). reflexivity.
Qed.

Lemma plainName_sepFree x : plainName x = true -> sepFree x = true.
Proof. unfold plainName. intros H. now apply andb_true_iff in H as [_ H]. Qed.

Lemma plainName_test x :
  plainName x = true ->
  (String.eqb x "" || String.eqb x ".")%bool = false
  /\ String.eqb x ".." = false.
Proof.
  unfold plainName. intros H.
  repeat (apply andb_true_iff in H as [H ?]).
  destruct (String.eqb x ""), (String.eqb x "."), (String.eqb x "..");
    try discriminate; now split.
Qed.

Lemma plain_of_tests x :
  (String.eqb x "" || String.eqb x ".")%bool = false ->
  String.eqb x ".." = false -> sepFree x = true -> plainName x = true.
Proof.
  unfold plainName. intros H1 H2 ->.
  destruct (String.eqb x ""), (String.eqb x "."), (String.eqb x "..");
    try discriminate; reflexivity.
Qed.

(** Absolute normalisation keeps only plain names. *)
Lemma normalizeSegs_plain acc xs :
  forallb plainName acc = true -> forallb sepFree xs = true ->
  forallb plainName (normalizeSegs false acc xs) = true.
Proof.
  revert acc. induction xs as [|x xs IH]; intros acc Hacc Hxs; simpl.
  - rewrite forallb_forall in *. intros y Hy. apply Hacc.
    now apply in_rev.
  - simpl in Hxs. apply andb_true_iff in Hxs as [Hx Hxs].
    destruct (String.eqb x "" || String.eqb x ".")%bool eqn:E1;
      [now apply IH|].
    destruct (String.eqb x "..") eqn:E2.
    + destruct acc as [|top acc]; [now apply IH|].
      simpl in Hacc. apply andb_true_iff in Hacc as [Htop Hacc].
      destruct (String.eqb top ".."); apply IH; simpl; auto.
      now rewrite Htop.
    + apply IH; [|assumption]. simpl.
      now rewrite (plain_of_tests x E1 E2 Hx).
Qed.

Lemma normalizeSegs_of_plain acc xs :
  forallb plainName xs = true ->
  normalizeSegs false acc xs = (rev acc ++ xs)%list.
Proof.
  revert acc. induction xs as [|x xs IH]; intros acc H; simpl.
  - now rewrite app_nil_r.
  - simpl in H. apply andb_true_iff in H as [Hx Hxs].
    destruct (plainName_test x Hx) as [-> ->].
    rewrite IH by assumption. simpl. now rewrite <- app_assoc.
Qed.

Lemma normalizeSegs_app b acc xs ys :
  normalizeSegs b acc (xs ++ ys)%list
  = normalizeSegs b (rev (normalizeSegs b acc xs)) ys.
Proof.
  revert acc. induction xs as [|x xs IH]; intros acc; simpl.
  - now rewrite rev_involutive.
  - destruct (String.eqb x "" || String.eqb x ".")%bool; [apply IH|].
    destruct (String.eqb x "..").
    + destruct acc as [|top acc]; [apply IH|].
      destruct (String.eqb top ".."); apply IH.
    + apply IH.
Qed.

Lemma normalizeSegs_snoc acc xs x :
  plainName x = true ->
  normalizeSegs false acc (xs ++ [x])%list
  = (normalizeSegs false acc xs ++ [x])%list.
Proof.
  intros Hx. rewrite normalizeSegs_app. simpl.
  destruct (plainName_test x Hx) as [-> ->]. simpl.
  now rewrite rev_involutive.
Qed.

Lemma list_ascii_app a b :
  list_ascii_of_string (a ++ b)
  = (list_ascii_of_string a ++ list_ascii_of_string b)%list.
Proof. induction a; simpl; [reflexivity|now rewrite IHa]. Qed.

Lemma endsWithSep_app a b : b <> "" -> endsWithSep (a ++ b) = endsWithSep b.
Proof.
  intros Hb. unfold endsWithSep. rewrite list_ascii_app, rev_app_distr.
  destruct b as [|c b]; [congruence|]. simpl.
  destruct (rev (list_ascii_of_string b) ++ [c])%list eqn:E;
    [now destruct (rev (list_ascii_of_string b))|reflexivity].
Qed.

Lemma sepFree_chars x c :
  sepFree x = true -> In c (list_ascii_of_string x) -> is_sep c = false.
Proof.
  induction x as [|d x IH]; simpl; [intros _ []|].
  intros H [->|Hin]; apply andb_true_iff in H as [Hd Hx].
  - now destruct (is_sep c).
  - now apply IH.
Qed.

Lemma endsWithSep_sepFree x : sepFree x = true -> endsWithSep x = false.
Proof.
  intros H. unfold endsWithSep.
  destruct (rev (list_ascii_of_string x)) as [|c l] eqn:E; [reflexivity|].
  apply (sepFree_chars x c H). apply in_rev. rewrite E. now left.
Qed.

Lemma absSegs_plain p : forallb plainName (absSegs p) = true.
Proof. apply normalizeSegs_plain; [reflexivity|apply split_all_sepFree]. Qed.

Lemma forallb_plain_sepFree xs :
  forallb plainName xs = true -> forallb sepFree xs = true.
Proof.
  rewrite !forallb_forall. intros H x Hx. apply plainName_sepFree. auto.
Qed.

Lemma absSegs_render xs :
  forallb plainName xs = true -> absSegs ("/" ++ unsplit xs) = xs.
Proof.
  intros H. unfold absSegs. change (split ("/" ++ unsplit xs))
    with ("" :: split (unsplit xs)).
  destruct xs as [|x xs]; [reflexivity|].
  rewrite split_unsplit by (discriminate || now apply forallb_plain_sepFree).
  change (normalizeSegs false [] ("" :: x :: xs))
    with (normalizeSegs false [] (x :: xs)).
  now rewrite normalizeSegs_of_plain.
Qed.

Lemma unsplit_snoc_nonempty xs x : x <> "" -> unsplit (xs ++ [x])%list <> "".
Proof.
  intros Hx. destruct xs as [|y xs]; [exact Hx|].
  rewrite (unsplit_app (y :: xs) [x]) by discriminate.
  intros E. apply (f_equal String.length) in E.
  rewrite append_length in E. simpl in E. lia.
Qed.

Lemma plainName_nonempty x : plainName x = true -> x <> "".
Proof. intros H ->. discriminate. Qed.

Lemma normalize_abs p :
  isAbsolute p = true ->
  normalize p
  = match normalizeString p false with
    | "" => "/"
    | r => "/" ++ (if endsWithSep p then r ++ "/" else r)
    end.
Proof.
  intros H. destruct p as [|c p]; [discriminate|].
  unfold normalize. rewrite H. cbn [negb].
  destruct (normalizeString (String c p) false); reflexivity.
Qed.

(** [path.join] of an absolute path and a plain name. *)
Lemma join_abs_plain a x :
  isAbsolute a = true -> plainName x = true ->
  join a x = "/" ++ unsplit (absSegs a ++ [x])%list.
Proof.
  intros Ha Hx. pose proof (plainName_nonempty x Hx) as Hne.
  assert (Hj : join a x = normalize (a ++ "/" ++ x)).
  { destruct a as [|c a]; [discriminate|].
    destruct x as [|d x]; [congruence|reflexivity]. }
  rewrite Hj, normalize_abs by (destruct a; [discriminate|exact Ha]).
  unfold normalizeString. rewrite split_app_sep.
  rewrite (split_sepFree x) by now apply plainName_sepFree.
  rewrite normalizeSegs_snoc by assumption. fold (absSegs a).
  rewrite (endsWithSep_app a ("/" ++ x)) by discriminate.
  rewrite (endsWithSep_app "/" x) by assumption.
  rewrite endsWithSep_sepFree by now apply plainName_sepFree.
  destruct (unsplit (absSegs a ++ [x])%list) eqn:E';
    [now apply unsplit_snoc_nonempty in E'|reflexivity].
Qed.

Lemma join_abs_isAbsolute a x :
  isAbsolute a = true -> plainName x = true -> isAbsolute (join a x) = true.
Proof. intros Ha Hx. now rewrite join_abs_plain. Qed.

Lemma absSegs_join a x :
  isAbsolute a = true -> plainName x = true ->
  absSegs (join a x) = (absSegs a ++ [x])%list.
Proof.
  intros Ha Hx. rewrite join_abs_plain by assumption.
  apply absSegs_render. rewrite forallb_app, absSegs_plain. simpl.
  now rewrite Hx.
Qed.

Lemma segments_abs h p : isAbsolute p = true -> segments h p = absSegs p.
Proof. intros H. unfold segments. now rewrite H. Qed.

Lemma segments_join h a x :
  isAbsolute a = true -> plainName x = true ->
  segments h (join a x) = (segments h a ++ [x])%list.
Proof.
  intros Ha Hx. rewrite !segments_abs by (auto using join_abs_isAbsolute).
  now apply absSegs_join.
Qed.

Lemma resolve_abs cwd p :
  isAbsolute p = true -> resolve cwd p = "/" ++ unsplit (absSegs p).
Proof.
  intros H. unfold resolve. destruct p as [|c p]; [discriminate|].
  rewrite H. rewrite H. reflexivity.
Qed.

Lemma resolve_isAbsolute cwd p :
  isAbsolute cwd = true -> isAbsolute (resolve cwd p) = true.
Proof.
  intros Hc. unfold resolve.
  set (full := match p with
               | "" => cwd
               | _ => if isAbsolute p then p else cwd ++ "/" ++ p
               end).
  assert (Hf : isAbsolute full = true).
  { subst full. destruct p as [|c p]; [assumption|].
    destruct (isAbsolute (String c p)) eqn:E; [assumption|].
    destruct cwd; [discriminate|exact Hc]. }
  now rewrite Hf.
Qed.

Lemma normalizePath_isAbsolute h p :
  isAbsolute (cwd h) = true -> isAbsolute (normalizePath h p) = true.
Proof.
  intros Hc. unfold normalizePath.
  destruct (isAbsolute p) eqn:E; [assumption|].
  now apply resolve_isAbsolute.
Qed.

Lemma dirname_isAbsolute p :
  isAbsolute p = true -> isAbsolute (dirname p) = true.
Proof.
  destruct p as [|c p]; [discriminate|]. simpl. intros Hc. rewrite Hc.
  match goal with |- context [match ?r with [] => _ | _ :: _ => _ end] =>
    destruct r as [|x [|y before]] end; simpl; auto.
Qed.

Lemma getStorageBasePath_isAbsolute h c :
  hostOk h -> isAbsolute (getStorageBasePath h c) = true.
Proof.
  intros (Hc & Hu & _). unfold getStorageBasePath.
  destruct (truthy (trimmed (basePath c)));
    [now apply normalizePath_isAbsolute|].
  destruct (truthy (trimmed (projectPath c))); [|assumption].
  apply dirname_isAbsolute. now apply normalizePath_isAbsolute.
Qed.

End SegmentFacts.

(* ================================================================== *)
(** * Facts about computations *)
(* ================================================================== *)

Module MonadFacts.

Lemma readOnly_ret {A} (a : A) : readOnly (ret a).
Proof. intros w. reflexivity. Qed.

Lemma readOnly_throw {A} e : readOnly (@throw A e).
Proof. intros w. reflexivity. Qed.

Lemma readOnly_gets {A} (f : World -> A) : readOnly (gets f).
Proof. intros w. reflexivity. Qed.

Lemma readOnly_bind {A B} (m : M A) (k : A -> M B) :
  readOnly m -> (forall a, readOnly (k a)) -> readOnly (bind m k).
Proof.
  intros Hm Hk w. unfold bind. specialize (Hm w).
  destruct (m w) as [[a|e] w']; simpl in *; subst; [apply Hk|reflexivity].
Qed.

Lemma readOnly_tryCatch {A} (m : M A) (k : string -> M A) :
  readOnly m -> (forall e, readOnly (k e)) -> readOnly (tryCatch m k).
Proof.
  intros Hm Hk w. unfold tryCatch. specialize (Hm w).
  destruct (m w) as [[a|e] w']; simpl in *; subst; [reflexivity|apply Hk].
Qed.

Lemma readOnly_if {A} (c : bool) (m1 m2 : M A) :
  readOnly m1 -> readOnly m2 -> readOnly (if c then m1 else m2).
Proof. now destruct c. Qed.

Lemma readOnly_existsSync h p : readOnly (existsSync h p).
Proof. apply readOnly_gets. Qed.

Lemma readOnly_readdirTypes h p : readOnly (readdirTypes h p).
Proof.
  intros w. unfold readdirTypes.
  destruct (Tree.lookup (fs w) (segments h p)) as [[m d|es]|]; reflexivity.
Qed.

Lemma readOnly_readdir h p : readOnly (readdir h p).
Proof.
  apply readOnly_bind; [apply readOnly_readdirTypes|].
  intros a. apply readOnly_ret.
Qed.

Create HintDb readonly.
#[export] Hint Resolve readOnly_ret readOnly_throw readOnly_gets
  readOnly_existsSync readOnly_readdirTypes readOnly_readdir : readonly.

Ltac readonly :=
  repeat first
    [ apply readOnly_bind; [|intros ?]
    | apply readOnly_tryCatch; [|intros ?]
    | apply readOnly_if
    | solve [auto with readonly] ].

Lemma readOnly_countProjects h p : readOnly (countProjects h p).
Proof. unfold countProjects. readonly. Qed.

Lemma readOnly_countMedia h p : readOnly (countMedia h p).
Proof. unfold countMedia. readonly. Qed.

Lemma readOnly_validate h p : readOnly (validateDataDirInternal h p).
Proof.
  unfold validateDataDirInternal. readonly.
Qed.

(** ** The Config Store under file-system operations *)

Lemma sameConfig_refl w : sameConfig w w.
Proof. now split. Qed.

Lemma sameConfig_trans w1 w2 w3 :
  sameConfig w1 w2 -> sameConfig w2 w3 -> sameConfig w1 w3.
Proof. intros [A B] [C D]. split; congruence. Qed.

Lemma sameConfig_with_fs w t : sameConfig w (with_fs w t).
Proof. now split. Qed.

Lemma keepsConfig_readOnly {A} (m : M A) : readOnly m -> keepsConfig m.
Proof. intros H w. rewrite H. apply sameConfig_refl. Qed.

Lemma keepsConfig_bind {A B} (m : M A) (k : A -> M B) :
  keepsConfig m -> (forall a, keepsConfig (k a)) -> keepsConfig (bind m k).
Proof.
  intros Hm Hk w. unfold bind. specialize (Hm w).
  destruct (m w) as [[a|e] w']; simpl in *; [|assumption].
  eapply sameConfig_trans; [eassumption|apply Hk].
Qed.

Lemma keepsConfig_tryCatch {A} (m : M A) (k : string -> M A) :
  keepsConfig m -> (forall e, keepsConfig (k e)) ->
  keepsConfig (tryCatch m k).
Proof.
  intros Hm Hk w. unfold tryCatch. specialize (Hm w).
  destruct (m w) as [[a|e] w']; simpl in *; [assumption|].
  eapply sameConfig_trans; [eassumption|apply Hk].
Qed.

Lemma keepsConfig_ret {A} (a : A) : keepsConfig (ret a).
Proof. apply keepsConfig_readOnly, readOnly_ret. Qed.

Lemma keepsConfig_when c m : keepsConfig m -> keepsConfig (when c m).
Proof. destruct c; [trivial|intros _; apply keepsConfig_ret]. Qed.

Lemma keepsConfig_swallow m : keepsConfig m -> keepsConfig (swallow m).
Proof.
  intros H. apply keepsConfig_tryCatch; [assumption|].
  intros e. apply keepsConfig_ret.
Qed.

Lemma keepsConfig_forOf {A} (xs : list A) body :
  (forall x, keepsConfig (body x)) -> keepsConfig (forOf xs body).
Proof.
  intros H. induction xs as [|x xs IH]; simpl; [apply keepsConfig_ret|].
  apply keepsConfig_bind; auto.
Qed.

Lemma keepsConfig_mkdirSync h p : keepsConfig (mkdirSync h p).
Proof.
  intros w. unfold mkdirSync.
  destruct (Tree.blocked _ _); [apply sameConfig_refl|].
  destruct (Tree.lookup _ _) as [[m d|es]|]; simpl;
    auto using sameConfig_refl, sameConfig_with_fs.
Qed.

Lemma keepsConfig_rm h p : keepsConfig (rm h p).
Proof.
  intros w. unfold rm.
  destruct (Tree.blocked _ _); simpl;
    auto using sameConfig_refl, sameConfig_with_fs.
Qed.

Lemma keepsConfig_unlinkSync h p : keepsConfig (unlinkSync h p).
Proof.
  intros w. unfold unlinkSync.
  destruct (Tree.lookup _ _) as [[m d|es]|]; simpl;
    auto using sameConfig_refl, sameConfig_with_fs.
Qed.

Lemma keepsConfig_cp h s d : keepsConfig (cp h s d).
Proof.
  intros w. unfold cp.
  destruct (cpFault w s d) as [[residue e]|];
    [apply sameConfig_with_fs|].
  destruct (Tree.lookup _ _); [|apply sameConfig_refl].
  destruct (Tree.prefixb _ _); [apply sameConfig_refl|].
  destruct (Tree.blocked _ _); [apply sameConfig_refl|].
  destruct (Tree.cpNode _ _ _). apply sameConfig_with_fs.
Qed.

Lemma keepsConfig_ensureDir h p : keepsConfig (ensureDir h p).
Proof.
  apply keepsConfig_bind;
    [apply keepsConfig_readOnly, readOnly_existsSync|].
  intros e. apply keepsConfig_when, keepsConfig_mkdirSync.
Qed.

Lemma keepsConfig_copyDir h s d : keepsConfig (copyDir h s d).
Proof.
  apply keepsConfig_bind; [apply keepsConfig_ensureDir|].
  intros _. apply keepsConfig_cp.
Qed.

Lemma keepsConfig_root h (sub : string) :
  keepsConfig
    (c <- gets storageConfig ;;
     let base := Path.join (getStorageBasePath h c) sub in
     ensureDir h base ;; ret base).
Proof.
  apply keepsConfig_bind; [apply keepsConfig_readOnly, readOnly_gets|].
  intros c. apply keepsConfig_bind; [apply keepsConfig_ensureDir|].
  intros _. apply keepsConfig_ret.
Qed.

Lemma keepsConfig_copyEntries h a b : keepsConfig (copyEntries h a b).
Proof.
  apply keepsConfig_bind;
    [apply keepsConfig_readOnly, readOnly_existsSync|].
  intros e. apply keepsConfig_when.
  apply keepsConfig_bind; [apply keepsConfig_readOnly, readOnly_readdir|].
  intros files. apply keepsConfig_forOf. intros f. apply keepsConfig_cp.
Qed.

(** ** Handlers that write the configuration last *)



End MonadFacts.

(* ================================================================== *)
(** * Properties of the storage manager *)
(* ================================================================== *)

Import JsString Path PathFacts SegmentFacts TreeFacts MonadFacts.

(** ** Path resolution *)

(** C5.  [getStorageBasePath] is a total function of the configuration with
    three tiers: a [basePath] that is not empty after trimming gives the
    normalised [basePath]; otherwise a legacy [projectPath] that is not empty
    (after the same trimming) gives the parent directory of the normalised
    [projectPath]; otherwise the platform default [userData].  With
    [basePath] unset and [projectPath = "/data/old/projects"] the result is
    ["/data/old"]. *)
Theorem getStorageBasePath_three_tier (h : Host) (c : StorageConfig) :
  (trimmed (basePath c) <> "" ->
   getStorageBasePath h c = normalizePath h (trimmed (basePath c)))
  /\ (trimmed (basePath c) = "" -> trimmed (projectPath c) <> "" ->
      getStorageBasePath h c
      = dirname (normalizePath h (trimmed (projectPath c))))
  /\ (trimmed (basePath c) = "" -> trimmed (projectPath c) = "" ->
      getStorageBasePath h c = userData h)
  /\ (trimmed (basePath c) = "" ->
      projectPath c = Some "/data/old/projects" ->
      getStorageBasePath h c = "/data/old").
Proof.
  unfold getStorageBasePath.
  destruct (trimmed (basePath c)) as [|b bs] eqn:Eb; simpl.
  - destruct (trimmed (projectPath c)) as [|q qs] eqn:Ep; simpl.
    + repeat split; try congruence. intros _ Hp. rewrite Hp in Ep.
      discriminate.
    + repeat split; try congruence. intros _ Hp. rewrite Hp in Ep.
      vm_compute in Ep. injection Ep as <- <-. reflexivity.
  - repeat split; congruence.
Qed.

Lemma getStorageBasePath_three_tier_witness :
  getStorageBasePath Sample.host (Sample.configAt " /srv/data ") = "/srv/data"
  /\ getStorageBasePath Sample.host
       (mkConfig (Some "  ") (Some "legacy/projects") None None None)
     = "/work/legacy"
  /\ getStorageBasePath Sample.host DEFAULT_STORAGE_CONFIG = "/ud"
  /\ getStorageBasePath Sample.host
       (mkConfig None (Some "/data/old/projects") None None None)
     = "/data/old".
Proof.
  split; [|split; [|split]].
  - rewrite (proj1 (getStorageBasePath_three_tier _ _)); [reflexivity|].
    vm_compute. discriminate.
  - rewrite (proj1 (proj2 (getStorageBasePath_three_tier _ _)));
      [reflexivity|reflexivity|vm_compute; discriminate].
  - rewrite (proj1 (proj2 (proj2 (getStorageBasePath_three_tier _ _))));
      reflexivity.
  - apply (proj2 (proj2 (proj2 (getStorageBasePath_three_tier _ _))));
      reflexivity.
Defined.

(** ** Validation *)

Lemma tryCatch_returns {A} (m : M A) (f : string -> A) (w : World) :
  exists a, fst (tryCatch m (fun e => ret (f e)) w) = Ret a.
Proof.
  unfold tryCatch. destruct (m w) as [[a|e] w']; simpl; eexists; reflexivity.
Qed.

(** C8.  [validateDataDirInternal] is a read-only diagnostic: for every path
    and every world it returns a result (it never throws), leaves the world
    (file system included) exactly as it was, and a second call right after
    the first gives the same result. *)
Theorem validate_is_read_only (h : Host) (dirPath : string) (w : World) :
  snd (validateDataDirInternal h dirPath w) = w
  /\ (exists v, fst (validateDataDirInternal h dirPath w) = Ret v)
  /\ validateDataDirInternal h dirPath
       (snd (validateDataDirInternal h dirPath w))
     = validateDataDirInternal h dirPath w.
Proof.
  pose proof (readOnly_validate h dirPath w) as H.
  split; [exact H|split].
  - apply tryCatch_returns.
  - now rewrite H.
Qed.

(** ** Move *)

Lemma keepsConfig_moveCopy h target : keepsConfig (moveCopy h target).
Proof.
  unfold moveCopy.
  repeat first
    [ apply keepsConfig_ensureDir
    | apply keepsConfig_copyEntries
    | apply keepsConfig_root
    | apply keepsConfig_ret
    | apply keepsConfig_bind; [|intros ?] ].
Qed.

(** Once the copies are done nothing can fail any more. *)
Lemma moveCommit_succeeds h target roots w :
  fst (moveCommit h target roots w) = Ret (succeeded (Some target)).
Proof.
  destruct roots as [p m]. unfold moveCommit, bind, mergeStorageConfig,
    saveStorageConfig, modify, when, swallow, tryCatch, removeDir, rm, ret.
  simpl.
  repeat match goal with
         | |- context [if ?c then _ else _] => destruct c; simpl
         end; reflexivity.
Qed.





(** C7 as stated fails on the empty path: with the working directory equal
    to the base path, [""] normalises to the base path, yet the handler
    answers with the empty-path failure. *)
Lemma move_empty_path_counterexample :
  let w := Sample.worldAt "/work" in
  normalizePath Sample.host "" = getStorageBasePath Sample.host (storageConfig w)
  /\ fst (storage_move_data Sample.host "" w) = Ret (failure EMPTY_PATH)
  /\ success (failure EMPTY_PATH) = false.
Proof. vm_compute. repeat split. Qed.

(** C7 (amended).  For every non-empty path whose normalised form equals the
    resolved base path, the move handler answers success with the current
    base path and leaves the whole world (file system, configuration, saved
    configuration) untouched; running it again gives the same. *)
Theorem move_to_current_base_is_noop (h : Host) (newPath : string) (w : World) :
  newPath <> "" ->
  normalizePath h newPath = getStorageBasePath h (storageConfig w) ->
  storage_move_data h newPath w
  = (Ret (succeeded (Some (getStorageBasePath h (storageConfig w)))), w)
  /\ storage_move_data h newPath (snd (storage_move_data h newPath w))
     = storage_move_data h newPath w.
Proof.
  intros Hne Heq.
  assert (E : storage_move_data h newPath w
              = (Ret (succeeded (Some (getStorageBasePath h (storageConfig w)))),
                 w)).
  { unfold storage_move_data, tryCatch, bind, gets.
    destruct newPath as [|c s]; [congruence|]. cbn [truthy negb].
    rewrite Heq, String.eqb_refl. reflexivity. }
  split; [exact E|]. rewrite E. simpl. exact E.
Qed.

Lemma move_to_current_base_is_noop_witness :
  storage_move_data Sample.host "/data/base" Sample.world
  = (Ret (succeeded (Some "/data/base")), Sample.world).
Proof.
  apply (proj1 (move_to_current_base_is_noop Sample.host "/data/base"
                  Sample.world ltac:(discriminate) eq_refl)).
Defined.

(** ** Path conflicts *)

Lemma render_below (A r : list string) :
  A <> [] -> r <> [] ->
  "/" ++ unsplit (A ++ r)%list = ("/" ++ unsplit A) ++ "/" ++ unsplit r.
Proof. intros HA Hr. now rewrite unsplit_app. Qed.

Lemma isSubdirectory_below h a b r :
  isAbsolute a = true -> isAbsolute b = true ->
  absSegs a <> [] -> r <> [] -> absSegs b = (absSegs a ++ r)%list ->
  isSubdirectory h a b = true.
Proof.
  intros Ha Hb HA Hr E. unfold isSubdirectory, startsWith.
  rewrite !resolve_abs, E, render_below by assumption.
  set (L := "/" ++ unsplit (absSegs a)).
  rewrite (toLowerCase_app L), (toLowerCase_app "/").
  change (toLowerCase "/") with "/". unfold sep.
  replace ((toLowerCase L ++ "/" ++ toLowerCase (unsplit r)) ++ "/")
    with ((toLowerCase L ++ "/") ++ toLowerCase (unsplit r) ++ "/")
    by now rewrite !append_assoc.
  apply prefix_app.
Qed.

Lemma render_longer (A r : list string) :
  A <> [] -> r <> [] ->
  (String.length ("/" ++ unsplit A)
   < String.length ("/" ++ unsplit (A ++ r)%list))%nat.
Proof.
  intros HA Hr. rewrite render_below by assumption.
  rewrite (append_length ("/" ++ unsplit A)). simpl. lia.
Qed.

Lemma isSubdirectory_above h a b r :
  isAbsolute a = true -> isAbsolute b = true ->
  absSegs a <> [] -> r <> [] -> absSegs b = (absSegs a ++ r)%list ->
  isSubdirectory h b a = false.
Proof.
  intros Ha Hb HA Hr E. unfold isSubdirectory, startsWith.
  destruct (String.prefix _ _) eqn:P; [|reflexivity].
  apply prefix_length in P. rewrite !append_length, !toLowerCase_length in P.
  rewrite !resolve_abs, E in P by assumption.
  pose proof (render_longer (absSegs a) r HA Hr). lia.
Qed.

Lemma resolved_differ h a b r :
  isAbsolute a = true -> isAbsolute b = true ->
  absSegs a <> [] -> r <> [] -> absSegs b = (absSegs a ++ r)%list ->
  String.eqb (toLowerCase (resolve (cwd h) a)) (toLowerCase (resolve (cwd h) b))
  = false.
Proof.
  intros Ha Hb HA Hr E. apply String.eqb_neq. intros Heq.
  apply (f_equal String.length) in Heq. rewrite !toLowerCase_length in Heq.
  rewrite !resolve_abs, E in Heq by assumption.
  pose proof (render_longer (absSegs a) r HA Hr). lia.
Qed.

Lemma below_differ a b r :
  r <> [] -> absSegs b = (absSegs a ++ r)%list -> a <> b.
Proof.
  intros Hr E ->. rewrite <- (app_nil_r (absSegs b)) in E at 1.
  apply app_inv_head in E. congruence.
Qed.

(** C4 as stated fails in two places.  With the file-system root as base
    path, a target below it is not recognised (the trailing separator of
    ["/"] is doubled) and the move is carried out.  With the empty path,
    which stands for the working directory, the handler answers with the
    empty-path failure and not with a path conflict. *)
Lemma move_nested_counterexample :
  (let w := Sample.worldAt "/" in
   strictlyBelow (segments Sample.host
                           (getStorageBasePath Sample.host (storageConfig w)))
                 (segments Sample.host (normalizePath Sample.host "/a"))
   /\ fst (storage_move_data Sample.host "/a" w) = Ret (succeeded (Some "/a")))
  /\ (let h := mkHost "/data/base/sub" "/ud" "/tmp" in
      strictlyBelow (segments h
                              (getStorageBasePath h (storageConfig Sample.world)))
                    (segments h (normalizePath h ""))
      /\ fst (storage_move_data h "" Sample.world) = Ret (failure EMPTY_PATH)
      /\ EMPTY_PATH <> DEST_IN_SOURCE /\ EMPTY_PATH <> SOURCE_IN_DEST).
Proof.
  split.
  - split; [exists ["a"]; split; [discriminate|reflexivity]|].
    vm_compute. reflexivity.
  - split; [exists ["sub"]; split; [discriminate|reflexivity]|].
    split; [reflexivity|]. split; discriminate.
Qed.

(** C4 (amended).  For every non-empty path: if the target lies strictly
    below the current base path, the move handler answers with the conflict
    "target is a sub-directory of the current path"; if the current base
    path lies strictly below the target, it answers with the conflict
    "current path is a sub-directory of the target"; in both cases the world
    is left untouched (nothing is created, copied or deleted).  The ancestor
    of the two is assumed not to be the file-system root. *)
Theorem move_rejects_nested_paths (h : Host) (newPath : string) (w : World) :
  hostOk h -> newPath <> "" ->
  let currentBase := getStorageBasePath h (storageConfig w) in
  let target := normalizePath h newPath in
  (segments h currentBase <> [] ->
   strictlyBelow (segments h currentBase) (segments h target) ->
   storage_move_data h newPath w = (Ret (failure DEST_IN_SOURCE), w))
  /\ (segments h target <> [] ->
      strictlyBelow (segments h target) (segments h currentBase) ->
      storage_move_data h newPath w = (Ret (failure SOURCE_IN_DEST), w)).
Proof.
  intros Hh Hne currentBase target.
  assert (Hb : isAbsolute currentBase = true)
    by now apply getStorageBasePath_isAbsolute.
  assert (Ht : isAbsolute target = true)
    by (apply normalizePath_isAbsolute, Hh).
  rewrite !segments_abs by assumption.
  assert (Hrun : storage_move_data h newPath w
                 = if String.eqb currentBase target
                   then (Ret (succeeded (Some currentBase)), w)
                   else match pathsConflict h currentBase target with
                        | Some e => (Ret (failure e), w)
                        | None =>
                            tryCatch (moveData h target)
                                     (fun error => ret (failure error)) w
                        end).
  { unfold storage_move_data, tryCatch at 1, bind at 1, gets.
    destruct newPath as [|c s]; [congruence|]. cbn [truthy negb].
    fold currentBase target.
    destruct (String.eqb currentBase target); [reflexivity|].
    destruct (pathsConflict h currentBase target); reflexivity. }
  rewrite Hrun. split; intros Hroot (r & Hr & E).
  - assert (Hd : String.eqb currentBase target = false)
      by (apply String.eqb_neq; eapply below_differ; eassumption).
    rewrite Hd. unfold pathsConflict.
    rewrite (resolved_differ h currentBase target r) by assumption.
    now rewrite (isSubdirectory_below h currentBase target r).
  - assert (Hd : String.eqb currentBase target = false).
    { apply String.eqb_neq. intros Heq. symmetry in Heq. revert Heq.
      eapply below_differ; eassumption. }
    rewrite Hd. unfold pathsConflict.
    rewrite String.eqb_sym.
    rewrite (resolved_differ h target currentBase r) by assumption.
    rewrite (isSubdirectory_above h target currentBase r) by assumption.
    now rewrite (isSubdirectory_below h target currentBase r).
Qed.

Lemma move_rejects_nested_paths_witness :
  storage_move_data Sample.host "/data/base/inner/x" Sample.world
  = (Ret (failure DEST_IN_SOURCE), Sample.world)
  /\ storage_move_data Sample.host "/data" Sample.world
     = (Ret (failure SOURCE_IN_DEST), Sample.world).
Proof.
  assert (Hh : hostOk Sample.host) by (repeat split).
  split.
  - apply (move_rejects_nested_paths Sample.host "/data/base/inner/x"
             Sample.world Hh ltac:(discriminate)).
    + discriminate.
    + exists ["inner"; "x"]. split; [discriminate|reflexivity].
  - apply (move_rejects_nested_paths Sample.host "/data"
             Sample.world Hh ltac:(discriminate)).
    + discriminate.
    + exists ["base"]. split; [discriminate|reflexivity].
Defined.

(** C9.  Conflict detection is case-insensitive: [pathsConflict] and
    [isSubdirectory] give the same answer for paths that differ in letter
    case only.  The no-op test of the move handler is a case-sensitive
    string equality.  Hence for a target that differs from the current base
    path in letter case only, the no-op test fails, no conflict is reported,
    and the handler runs the copy phase. *)
Theorem case_only_difference_goes_to_copy
        (h : Host) (newPath : string) (w : World) :
  hostOk h ->
  let currentBase := getStorageBasePath h (storageConfig w) in
  newPath <> currentBase ->
  toLowerCase newPath = toLowerCase currentBase ->
  (forall s s' d d',
      toLowerCase s = toLowerCase s' -> toLowerCase d = toLowerCase d' ->
      pathsConflict h s d = pathsConflict h s' d'
      /\ isSubdirectory h s d = isSubdirectory h s' d')
  /\ normalizePath h newPath = newPath
  /\ String.eqb currentBase (normalizePath h newPath) = false
  /\ pathsConflict h currentBase (normalizePath h newPath) = None
  /\ storage_move_data h newPath w
     = tryCatch (moveData h newPath) (fun error => ret (failure error)) w.
Proof.
  intros Hh currentBase Hne Hcase.
  assert (Hins : forall s s' d d',
             toLowerCase s = toLowerCase s' -> toLowerCase d = toLowerCase d' ->
             pathsConflict h s d = pathsConflict h s' d'
             /\ isSubdirectory h s d = isSubdirectory h s' d').
  { intros s s' d d' Hs Hd. unfold pathsConflict, isSubdirectory.
    now rewrite (resolve_same_case (cwd h) s s' Hs),
                (resolve_same_case (cwd h) d d' Hd). }
  assert (Hb : isAbsolute currentBase = true)
    by now apply getStorageBasePath_isAbsolute.
  assert (Hn : isAbsolute newPath = true).
  { rewrite <- isAbsolute_lower, Hcase, isAbsolute_lower. exact Hb. }
  assert (Htarget : normalizePath h newPath = newPath)
    by (unfold normalizePath; now rewrite Hn).
  assert (Hneq : String.eqb currentBase newPath = false)
    by (apply String.eqb_neq; congruence).
  assert (Hnone : pathsConflict h currentBase newPath = None).
  { unfold pathsConflict.
    rewrite (resolve_same_case (cwd h) newPath currentBase Hcase).
    now rewrite String.eqb_refl. }
  assert (Hrun : storage_move_data h newPath w
                 = tryCatch (moveData h newPath)
                            (fun error => ret (failure error)) w).
  { unfold storage_move_data, tryCatch at 1, bind at 1, gets.
    destruct newPath as [|c s]; [discriminate|]. cbn [truthy negb].
    fold currentBase. rewrite Htarget, Hneq, Hnone. reflexivity. }
  split; [exact Hins|]. rewrite Htarget. auto.
Qed.

Lemma case_only_difference_goes_to_copy_witness :
  storage_move_data Sample.host "/DATA/base" Sample.world
  = tryCatch (moveData Sample.host "/DATA/base")
             (fun error => ret (failure error)) Sample.world
  /\ fst (storage_move_data Sample.host "/DATA/base" Sample.world)
     = Ret (succeeded (Some "/DATA/base")).
Proof.
  split; [|vm_compute; reflexivity].
  apply (case_only_difference_goes_to_copy Sample.host "/DATA/base"
           Sample.world); [repeat split|discriminate|reflexivity].
Defined.

(** ** Cache pruning on the tree *)

Module PruneFacts.
Import Tree.
Local Open Scope list_scope.

Lemma node_induction (P : node -> Prop) :
  (forall m d, P (File m d)) ->
  (forall es, Forall (fun e => P (snd e)) es -> P (Dir es)) ->
  forall n, P n.
Proof.
  intros HF HD.
  exact (fix IH n :=
           match n with
           | File m d => HF m d
           | Dir es =>
               HD es ((fix go es : Forall (fun e => P (snd e)) es :=
                         match es with
                         | [] => Forall_nil _
                         | e :: es' => Forall_cons e (IH (snd e)) (go es')
                         end) es)
           end).
Qed.

Lemma pruneNode_Dir cutoff es :
  exists cl es', pruneNode cutoff (Dir es) = (cl, Dir es').
Proof.
  simpl.
  match goal with |- context [let (_, _) := ?l in _] => destruct l end.
  eexists; eexists; reflexivity.
Qed.

Lemma pruneNode_nil cutoff : pruneNode cutoff (Dir []) = (0, Dir []).
Proof. reflexivity. Qed.

Lemma pruneNode_cons cutoff x c es rest es' :
  pruneNode cutoff (Dir es) = (rest, Dir es') ->
  pruneNode cutoff (Dir ((x, c) :: es))
  = (fst (pruneEntry cutoff c) + rest,
     Dir (match snd (pruneEntry cutoff c) with
          | Some c' => (x, c') :: es'
          | None => es'
          end)).
Proof.
  simpl.
  match goal with |- context [let (_, _) := ?l in _] => destruct l as [r e] end.
  intros H. injection H as -> ->.
  destruct c as [m d|cs]; reflexivity.
Qed.

Lemma sizeOf_loop es total :
  (fix loop (es : entries_t) (total : Z) : Z :=
     match es with
     | [] => total
     | (_, c) :: es' => loop es' (total + sizeOf c)
     end) es total
  = total + sizeOf (Dir es).
Proof.
  revert total. induction es as [|[x c] es IH]; intros total; simpl.
  - lia.
  - rewrite IH, (IH (sizeOf c)). lia.
Qed.

Lemma sizeOf_cons x c es :
  sizeOf (Dir ((x, c) :: es)) = sizeOf c + sizeOf (Dir es).
Proof.
  change (sizeOf (Dir ((x, c) :: es)))
    with ((fix loop (es : entries_t) (total : Z) : Z :=
             match es with
             | [] => total
             | (_, c) :: es' => loop es' (total + sizeOf c)
             end) es (0 + sizeOf c)).
  rewrite sizeOf_loop. lia.
Qed.

Lemma lookup_cons_same x c es r :
  lookup (Dir ((x, c) :: es)) (x :: r) = lookup c r.
Proof. unfold lookup. simpl. now rewrite String.eqb_refl. Qed.

Lemma lookup_cons_other x y c es r :
  y <> x -> lookup (Dir ((x, c) :: es)) (y :: r) = lookup (Dir es) (y :: r).
Proof.
  intros H. unfold lookup. simpl.
  destruct (String.eqb_spec y x); [congruence|reflexivity].
Qed.

Lemma lookup_empty_dir_cons y r : lookup (Dir []) (y :: r) = None.
Proof. unfold lookup. simpl. apply TreeFacts.lookupo_None. Qed.

Lemma lookup_empty_dir r m d : lookup (Dir []) r <> Some (File m d).
Proof.
  destruct r; [discriminate|]. rewrite lookup_empty_dir_cons. discriminate.
Qed.

(** What is kept of one entry, given that its own pruning is right. *)
Lemma pruneEntry_spec cutoff c :
  (forall cl c', pruneNode cutoff c = (cl, c') -> isDirectory c = true ->
                 prunedTo cutoff c c' cl) ->
  let cl := fst (pruneEntry cutoff c) in
  match snd (pruneEntry cutoff c) with
  | Some c' =>
      keepsNewer cutoff c c' /\ noOlderLeft cutoff c' /\ noEmptyBelow c'
      /\ c' <> Dir [] /\ sizeOf c = cl + sizeOf c'
  | None =>
      (forall r m d, lookup c r = Some (File m d) -> cutoff <= m -> False)
      /\ sizeOf c = cl
  end.
Proof.
  intros IH. destruct c as [m d|cs].
  - simpl. destruct (Z.ltb_spec m cutoff) as [Hlt|Hge]; simpl.
    + split; [|reflexivity]. intros [|y r] m' d' H Hm; unfold lookup in H;
        simpl in H; [|discriminate]. injection H as <- <-. lia.
    + repeat split; try discriminate.
      * intros r m' d' H _. exact H.
      * intros [|y r] m' d' H; unfold lookup in H; simpl in H;
          [|discriminate]. injection H as <- <-. assumption.
      * intros [|y r] Hr; [congruence|]. unfold lookup. simpl. discriminate.
  - destruct (pruneNode_Dir cutoff cs) as (cl & cs' & E).
    specialize (IH cl (Dir cs') E eq_refl).
    destruct IH as (Hk & Ho & He & Hs).
    unfold pruneEntry. rewrite E. destruct cs' as [|e cs']; cbn [fst snd].
    + split; [|rewrite Hs; simpl; lia].
      intros r m d H Hm. apply (lookup_empty_dir r m d). now apply Hk.
    + repeat split; try assumption. discriminate.
Qed.

(** The pruning of a directory is right. *)
Lemma pruneNode_spec cutoff n :
  forall cl n', pruneNode cutoff n = (cl, n') -> isDirectory n = true ->
                prunedTo cutoff n n' cl.
Proof.
  induction n as [m d|es IH] using node_induction;
    intros cl n' E Hd; [discriminate|]. clear Hd.
  revert cl n' E. induction IH as [|[x c] es Hc _ IHes]; intros cl n' E.
  - rewrite pruneNode_nil in E. injection E as <- <-.
    repeat split.
    + intros r m d H _. exact H.
    + intros r m d H. now apply lookup_empty_dir in H.
    + intros [|y r] Hr; [congruence|]. rewrite lookup_empty_dir_cons.
      discriminate.
  - simpl in Hc. destruct (pruneNode_Dir cutoff es) as (rest & es' & Ees).
    specialize (IHes rest (Dir es') Ees) as (Hk & Ho & He & Hs).
    rewrite (pruneNode_cons cutoff x c es rest es' Ees) in E.
    pose proof (pruneEntry_spec cutoff c Hc) as Hentry. cbv zeta in Hentry.
    injection E as <- <-.
    destruct (snd (pruneEntry cutoff c)) as [c'|].
    + destruct Hentry as (Hk' & Ho' & He' & Hne & Hs').
      repeat split.
      * intros [|y r] m d H Hm; [unfold lookup in H; discriminate|].
        destruct (String.eqb_spec y x) as [->|Hyx].
        -- rewrite lookup_cons_same in *. now apply Hk'.
        -- rewrite lookup_cons_other in * by assumption. now apply Hk.
      * intros [|y r] m d H; [unfold lookup in H; discriminate|].
        destruct (String.eqb_spec y x) as [->|Hyx].
        -- rewrite lookup_cons_same in H. now apply Ho' in H.
        -- rewrite lookup_cons_other in H by assumption. now apply Ho in H.
      * intros [|y r] Hr; [congruence|].
        destruct (String.eqb_spec y x) as [->|Hyx].
        -- rewrite lookup_cons_same. destruct r as [|z r].
           ++ unfold lookup. simpl. congruence.
           ++ apply He'. discriminate.
        -- rewrite lookup_cons_other by assumption. now apply He.
      * rewrite !sizeOf_cons. lia.
    + destruct Hentry as (Hnone & Hs').
      repeat split.
      * intros [|y r] m d H Hm; [unfold lookup in H; discriminate|].
        destruct (String.eqb_spec y x) as [->|Hyx].
        -- rewrite lookup_cons_same in H. exfalso. eapply Hnone; eassumption.
        -- rewrite lookup_cons_other in H by assumption. now apply Hk.
      * assumption.
      * assumption.
      * rewrite sizeOf_cons. lia.
Qed.

End PruneFacts.

(** ** Loops over directories that lie apart *)

Section LocalLoop.
Import Tree.
Local Open Scope list_scope.

Variable h : Host.
Variable f : string -> M Z.
Variable V : option node -> Z.
Variable G : option node -> option node.
Variable Inv : World -> Prop.
Variable P : string -> Prop.

(** One round reads and rewrites only what stands at its directory. *)
Hypothesis step :
  forall dir w, P dir -> Inv w ->
    exists w',
      f dir w = (Ret (V (lookup (fs w) (segments h dir))), w')
      /\ lookup (fs w') (segments h dir) = G (lookup (fs w) (segments h dir))
      /\ (forall q, incomparable (segments h dir) q ->
                    lookup (fs w') q = lookup (fs w) q)
      /\ Inv w'.

Lemma sumOver_local dirs :
  Forall P dirs -> apart (map (segments h) dirs) ->
  forall acc w, Inv w ->
    exists w',
      sumOver dirs f acc w
      = (Ret (acc + sumZ (map (fun d => V (lookup (fs w) (segments h d))) dirs)),
         w')
      /\ (forall d, In d dirs ->
                    lookup (fs w') (segments h d)
                    = G (lookup (fs w) (segments h d)))
      /\ (forall q, (forall d, In d dirs -> incomparable (segments h d) q) ->
                    lookup (fs w') q = lookup (fs w) q)
      /\ Inv w'.
Proof.
  induction dirs as [|d ds IH]; intros HP Hap acc w Hinv.
  - exists w. simpl. rewrite Z.add_0_r. repeat split; auto. intros d [].
  - inversion HP as [|? ? Hd Hds]; subst.
    inversion Hap as [|? ? Hfar Hap']; subst.
    destruct (step d w Hd Hinv) as (w1 & E1 & Hat1 & Hframe1 & Hinv1).
    destruct (IH Hds Hap' (acc + V (lookup (fs w) (segments h d))) w1 Hinv1)
      as (w' & E' & Hat' & Hframe' & Hinv').
    assert (Hsame : forall d', In d' ds ->
                lookup (fs w1) (segments h d') = lookup (fs w) (segments h d')).
    { intros d' Hin. apply Hframe1. rewrite Forall_forall in Hfar.
      apply Hfar. now apply in_map. }
    exists w'. split; [|split; [|split]].
    + cbn [sumOver]. unfold bind at 1. rewrite E1, E'. f_equal. f_equal.
      cbn [map sumZ fold_right]. fold (sumZ (map (fun d0 => V (lookup (fs w) (segments h d0))) ds)).
      rewrite (map_ext_in _ (fun d0 => V (lookup (fs w) (segments h d0))) ds);
        [unfold sumZ; lia|].
      intros d' Hin. now rewrite Hsame.
    + intros d' [<-|Hin].
      * rewrite Hframe'; [exact Hat1|].
        intros d0 Hin0. apply incomparable_sym.
        rewrite Forall_forall in Hfar. apply Hfar. now apply in_map.
      * rewrite Hat' by assumption. now rewrite Hsame.
    + intros q Hq. rewrite Hframe' by (intros d0 Hin0; apply Hq; now right).
      apply Hframe1. apply Hq. now left.
    + exact Hinv'.
Qed.

End LocalLoop.

(** ** The two branches of [clearCache] *)

Lemma siblings_apart (U : list string) (x y : string) :
  x <> y -> Tree.incomparable (U ++ [x])%list (U ++ [y])%list.
Proof.
  intros Hxy. split; induction U as [|u U IH]; simpl;
    try (rewrite String.eqb_refl; exact IH).
  - destruct (String.eqb_spec x y); [congruence|reflexivity].
  - destruct (String.eqb_spec y x); [congruence|reflexivity].
Qed.

Lemma dirAt_alter_child g (U : list string) x t :
  dirAt t U -> dirAt (Tree.alter g (U ++ [x])%list t) U.
Proof.
  intros [es H]. unfold dirAt.
  rewrite lookup_alter_above;
    [|now destruct U|exact (lookupo_Some_not_blocked _ _ _ H)].
  rewrite H. simpl. eexists. reflexivity.
Qed.

Lemma snoc_nonroot (U : list string) x : (U ++ [x])%list <> [].
Proof. now destruct U. Qed.

(** One round of the wholesale branch on a directory directly below [U]. *)
Lemma wholesale_step h (U : list string) dir w :
  (exists x, segments h dir = (U ++ [x])%list) -> dirAt (fs w) U ->
  exists w',
    (n <- getDirectorySize h dir ;;
     swallow (removeDir h dir) ;; ensureDir h dir ;; ret n)%js w
    = (Ret (measured (Tree.lookup (fs w) (segments h dir))), w')
    /\ Tree.lookup (fs w') (segments h dir)
       = (fun _ => Some (Tree.Dir [])) (Tree.lookup (fs w) (segments h dir))
    /\ (forall q, Tree.incomparable (segments h dir) q ->
                  Tree.lookup (fs w') q = Tree.lookup (fs w) q)
    /\ dirAt (fs w') U.
Proof.
  intros [x Hp] HU. pose proof HU as [es Hes].
  set (p := segments h dir) in *.
  set (t1 := Tree.alter (fun _ => None) p (fs w)).
  set (t2 := Tree.alter (fun _ => Some (Tree.Dir [])) p t1).
  assert (Hb : Tree.blocked (fs w) p = false)
    by (rewrite Hp; eapply blocked_child; eassumption).
  assert (Hne : p <> []) by (rewrite Hp; apply snoc_nonroot).
  assert (H1 : Tree.lookup t1 p = None)
    by (unfold t1; now rewrite lookup_alter_same).
  assert (HU1 : dirAt t1 U) by (unfold t1; rewrite Hp; now apply dirAt_alter_child).
  assert (Hb1 : Tree.blocked t1 p = false).
  { destruct HU1 as [es1 Hes1]. rewrite Hp. eapply blocked_child; eassumption. }
  exists (with_fs (with_fs w t1) t2).
  split; [|split; [|split]].
  - unfold bind, getDirectorySize, gets, swallow, tryCatch, removeDir, rm,
      ensureDir, existsSync, bind, gets, when, mkdirSync, ret, measured.
    fold p. rewrite Hb. cbn [fs with_fs fst snd]. fold t1.
    rewrite H1. cbn [negb]. cbn beta. cbn [fs with_fs].
    rewrite Hb1, H1. reflexivity.
  - cbn [fs with_fs]. unfold t2. now rewrite lookup_alter_same.
  - intros q Hq. cbn [fs with_fs]. unfold t2, t1.
    now rewrite !lookup_alter_frame.
  - cbn [fs with_fs]. unfold t2. rewrite Hp. now apply dirAt_alter_child.
Qed.

(** One round of the age-based branch. *)
Lemma deleteOldFiles_step h cutoff dir w :
  segments h dir <> [] -> True ->
  exists w',
    deleteOldFiles h dir cutoff w
    = (Ret (clearedAt cutoff (Tree.lookup (fs w) (segments h dir))), w')
    /\ Tree.lookup (fs w') (segments h dir)
       = leftAt cutoff (Tree.lookup (fs w) (segments h dir))
    /\ (forall q, Tree.incomparable (segments h dir) q ->
                  Tree.lookup (fs w') q = Tree.lookup (fs w) q)
    /\ True.
Proof.
  intros Hne _. unfold deleteOldFiles, clearedAt, leftAt.
  destruct (Tree.lookup (fs w) (segments h dir)) as [[m d|es]|] eqn:E;
    try (exists w; repeat split; assumption).
  destruct (Tree.pruneNode cutoff (Tree.Dir es)) as [cl rest] eqn:Ep.
  eexists. split; [reflexivity|]. cbn [fs with_fs fst snd].
  split; [|split; [|exact I]].
  - rewrite lookup_alter_same;
      [reflexivity|assumption|exact (lookupo_Some_not_blocked _ _ _ E)].
  - intros q Hq. now apply lookup_alter_frame.
Qed.

Lemma prunedAt_leftAt cutoff o :
  prunedAt cutoff o (leftAt cutoff o) (clearedAt cutoff o).
Proof.
  destruct o as [[m d|es]|]; simpl; try (split; reflexivity).
  destruct (PruneFacts.pruneNode_Dir cutoff es) as (cl & es' & E).
  exists es'. unfold clearedAt, leftAt in *.
  assert (E' := E). simpl in E'. simpl. rewrite E'. simpl.
  split; [reflexivity|].
  now apply (PruneFacts.pruneNode_spec cutoff (Tree.Dir es)).
Qed.

Lemma cacheDirs_segments h :
  hostOk h ->
  map (segments h) (getCacheDirs h)
  = [ (segments h (userData h) ++ ["Cache"])%list;
      (segments h (userData h) ++ ["Code Cache"])%list;
      (segments h (userData h) ++ ["GPUCache"])%list ].
Proof.
  intros (_ & Hu & _). unfold getCacheDirs. cbn [map].
  now rewrite !segments_join.
Qed.

Lemma cacheDirs_apart h : hostOk h -> apart (map (segments h) (getCacheDirs h)).
Proof.
  intros Hh. rewrite cacheDirs_segments by assumption.
  repeat constructor; apply siblings_apart; discriminate.
Qed.

Lemma cacheDirs_children h :
  hostOk h ->
  Forall (fun dir => exists x,
              segments h dir = (segments h (userData h) ++ [x])%list)
         (getCacheDirs h).
Proof.
  intros (_ & Hu & _). unfold getCacheDirs.
  repeat constructor; eexists; now rewrite segments_join.
Qed.

(** C6.  Without an age threshold [clearCache] returns the sum of what
    [getDirectorySize] measures for the cache directories beforehand and
    leaves every cache directory present and empty.  With a threshold of
    [n > 0] days it returns the sum of the bytes cleared in each cache
    directory, and every cache directory that is a directory is pruned at
    [now - n days]: each regular file not older than the cutoff is still at
    its place with its time stamp and bytes, no regular file older than the
    cutoff is left, no empty directory is left below the cache directory
    (which itself stays), and the bytes cleared are the size before minus
    the size after.  The application-data directory is assumed to exist for
    the first part. *)
Theorem clearCache_spec (h : Host) (w : World) (olderThanDays : option Z) :
  hostOk h ->
  let dirs := getCacheDirs h in
  let at_ (v : World) (dir : string) := Tree.lookup (fs v) (segments h dir) in
  (forall dir, getDirectorySize h dir w = (Ret (measured (at_ w dir)), w))
  /\ (ageThreshold olderThanDays = None ->
      dirAt (fs w) (segments h (userData h)) ->
      exists w',
        clearCache h olderThanDays w
        = (Ret (sumZ (map (fun dir => measured (at_ w dir)) dirs)), w')
        /\ forall dir, In dir dirs -> at_ w' dir = Some (Tree.Dir []))
  /\ (forall n, olderThanDays = Some n -> 0 < n ->
      exists w' cleared,
        clearCache h olderThanDays w = (Ret (sumZ (map cleared dirs)), w')
        /\ forall dir,
            In dir dirs ->
            prunedAt (now w - n * MS_PER_DAY) (at_ w dir) (at_ w' dir)
                     (cleared dir)).
Proof.
  intros Hh dirs at_. split; [reflexivity|split].
  - intros Hnone HU. unfold clearCache. rewrite Hnone.
    destruct (sumOver_local h _ measured (fun _ => Some (Tree.Dir []))
                (fun v => dirAt (fs v) (segments h (userData h)))
                (fun dir => exists x,
                     segments h dir = (segments h (userData h) ++ [x])%list)
                (wholesale_step h (segments h (userData h)))
                (getCacheDirs h) (cacheDirs_children h Hh)
                (cacheDirs_apart h Hh) 0 w HU)
      as (w' & E & Hat & _ & _).
    exists w'. split; [exact E|]. intros dir Hin. now apply Hat.
  - intros n -> Hn. unfold clearCache, ageThreshold.
    assert (Hcond : (negb (n =? 0) && (0 <? n))%bool = true).
    { apply andb_true_iff. split; [apply negb_true_iff; lia|lia]. }
    rewrite Hcond. unfold bind at 1, gets.
    set (cutoff := now w - n * MS_PER_DAY).
    assert (HP : Forall (fun dir => segments h dir <> []) (getCacheDirs h)).
    { eapply Forall_impl; [|apply (cacheDirs_children h Hh)].
      intros dir [x ->]. apply snoc_nonroot. }
    destruct (sumOver_local h _ (clearedAt cutoff) (leftAt cutoff)
                (fun _ => True) (fun dir => segments h dir <> [])
                (deleteOldFiles_step h cutoff)
                (getCacheDirs h) HP (cacheDirs_apart h Hh) 0 w I)
      as (w' & E & Hat & _ & _).
    exists w', (fun dir => clearedAt cutoff (at_ w dir)).
    split; [exact E|]. intros dir Hin. unfold at_. rewrite Hat by assumption.
    apply prunedAt_leftAt.
Qed.

(** The sample cache: cleared wholesale it measures 10 bytes; pruned at one
    day only the 7 old bytes go and [new] stays. *)
Lemma clearCache_spec_witness :
  (exists w',
      clearCache Sample.host None Sample.world = (Ret 10, w')
      /\ Tree.lookup (fs w') ["ud"; "Cache"] = Some (Tree.Dir []))
  /\ (exists w' cleared,
         clearCache Sample.host (Some 1) Sample.world
         = (Ret (sumZ (map cleared (getCacheDirs Sample.host))), w')
         /\ prunedAt (99999999999 - 1 * MS_PER_DAY)
                     (Tree.lookup (fs Sample.world) ["ud"; "Cache"])
                     (Tree.lookup (fs w') ["ud"; "Cache"])
                     (cleared "/ud/Cache")).
Proof.
  assert (Hh : hostOk Sample.host) by (repeat split).
  pose proof (clearCache_spec Sample.host Sample.world None Hh) as HA.
  pose proof (clearCache_spec Sample.host Sample.world (Some 1) Hh) as HB.
  cbv zeta in HA, HB. split.
  - destruct (proj1 (proj2 HA) eq_refl) as (w' & E & Hat).
    + eexists. reflexivity.
    + exists w'. split; [exact E|]. apply (Hat "/ud/Cache"). now left.
  - destruct (proj2 (proj2 HB) 1 eq_refl ltac:(lia)) as (w' & cleared & E & Hat).
    exists w', cleared. split; [exact E|].
    apply (Hat "/ud/Cache"). now left.
Defined.

(** C10.  The age-based branch of [clearCache] is taken exactly when
    [olderThanDays] is a number greater than zero.  With [0], a negative
    number or nothing, [clearCache] is the wholesale branch: every cache
    directory is measured, removed and made again. *)
Theorem clearCache_zero_is_no_threshold (h : Host) (n : Z) :
  (n <= 0 -> clearCache h (Some n) = clearCache h None)
  /\ (0 < n ->
      clearCache h (Some n)
      = (t <- gets now ;;
         sumOver (getCacheDirs h)
                 (fun dir => deleteOldFiles h dir (t - n * MS_PER_DAY)) 0)%js)
  /\ clearCache h (Some 0) = clearCache h None
  /\ clearCache h None
     = sumOver (getCacheDirs h)
               (fun dir =>
                  n <- getDirectorySize h dir ;;
                  swallow (removeDir h dir) ;; ensureDir h dir ;; ret n)%js 0
  /\ (ageThreshold (Some n) = None <-> n <= 0).
Proof.
  assert (Hn : n <= 0 -> ageThreshold (Some n) = None).
  { intros H. unfold ageThreshold.
    destruct (Z.eqb_spec n 0); [reflexivity|]. simpl.
    destruct (Z.ltb_spec 0 n); [lia|reflexivity]. }
  assert (Hp : 0 < n -> ageThreshold (Some n) = Some n).
  { intros H. unfold ageThreshold.
    destruct (Z.eqb_spec n 0); [lia|]. simpl.
    destruct (Z.ltb_spec 0 n); [reflexivity|lia]. }
  repeat split.
  - intros H. unfold clearCache. now rewrite (Hn H).
  - intros H. unfold clearCache. now rewrite (Hp H).
  - destruct (Z_le_gt_dec n 0) as [|Hgt]; [trivial|].
    rewrite Hp by lia. discriminate.
  - exact Hn.
Qed.

(** On the sample cache a threshold of zero days empties the directory,
    the file dated after [now] included; the age-based pruning at the same
    cutoff would have kept that file. *)
Lemma clearCache_zero_is_no_threshold_witness :
  clearCache Sample.host (Some 0) Sample.world
  = clearCache Sample.host None Sample.world
  /\ Tree.lookup (fs (snd (clearCache Sample.host (Some 0) Sample.world)))
                 ["ud"; "Cache"] = Some (Tree.Dir [])
  /\ Tree.lookup
       (fs (snd (deleteOldFiles Sample.host "/ud/Cache" (now Sample.world)
                                Sample.world)))
       ["ud"; "Cache"; "new"] = Some (Tree.File 100000000000 "abc").
Proof.
  split; [|split; vm_compute; reflexivity].
  rewrite (proj1 (clearCache_zero_is_no_threshold Sample.host 0));
    [reflexivity|lia].
Defined.

(** ** Copies on the tree *)

Module CopyFacts.
Import Tree.
Local Open Scope list_scope.

Lemma touch_touch a b n : touch a (touch b n) = touch a n.
Proof.
  induction n as [m d|es IH] using PruneFacts.node_induction; simpl;
    [reflexivity|].
  f_equal. rewrite map_map. simpl.
  induction IH as [|[x c] es Hc _ IHes]; simpl; [reflexivity|].
  simpl in Hc. now rewrite Hc, IHes.
Qed.

Lemma erase_touch a n : erase (touch a n) = erase n.
Proof. apply touch_touch. Qed.

Lemma names_touch now es :
  names (map (fun e => (fst e, touch now (snd e))) es) = names es.
Proof. unfold names. rewrite map_map. reflexivity. Qed.

Lemma assoc_absent x es : ~ In x (names es) -> assoc x es = None.
Proof.
  induction es as [|[y c] es IH]; simpl; [reflexivity|]. intros H.
  destruct (String.eqb_spec x y) as [->|Hxy]; [tauto|].
  apply IH. tauto.
Qed.

Lemma put_entry_absent x n es :
  ~ In x (names es) -> put_entry x n es = es ++ [(x, n)].
Proof.
  induction es as [|[y c] es IH]; simpl; [reflexivity|]. intros H.
  destruct (String.eqb_spec x y) as [->|Hxy]; [tauto|].
  rewrite IH by tauto. reflexivity.
Qed.

Lemma cpNode_absent now c : cpNode now c None = (Some (touch now c), None).
Proof. destruct c; reflexivity. Qed.

(** Copying entries with fresh, distinct names appends their copies. *)
Lemma cpNode_go_fresh now es ds :
  NoDup (names ds ++ names es) ->
  (fix go (es ds : entries_t) : entries_t * option string :=
     match es with
     | [] => (ds, None)
     | (x, c) :: es' =>
         match cpNode now c (assoc x ds) with
         | (r, None) => go es' (set_entry x r ds)
         | (r, Some e) => (set_entry x r ds, Some e)
         end
     end) es ds
  = (ds ++ map (fun e => (fst e, touch now (snd e))) es, None).
Proof.
  revert ds. induction es as [|[x c] es IH]; intros ds Hnd.
  - simpl. now rewrite app_nil_r.
  - assert (Hx : ~ In x (names ds)).
    { simpl in Hnd. apply NoDup_remove_2 in Hnd. intros Hin. apply Hnd.
      apply in_or_app. now left. }
    cbn [map fst snd]. rewrite (assoc_absent x ds Hx), cpNode_absent.
    cbn [set_entry]. rewrite put_entry_absent by assumption.
    rewrite IH.
    + now rewrite <- app_assoc.
    + unfold names in *. rewrite map_app. simpl. rewrite <- app_assoc.
      exact Hnd.
Qed.

(** A directory copied into an empty directory is its copy. *)
Lemma cpNode_into_empty now es :
  NoDup (names es) ->
  cpNode now (Dir es) (Some (Dir [])) = (Some (touch now (Dir es)), None).
Proof.
  intros Hnd. cbn [cpNode].
  rewrite (cpNode_go_fresh now es []) by exact Hnd. reflexivity.
Qed.

Lemma lookup_snoc_dirAt t (U : list string) x n :
  lookup t (U ++ [x]) = Some n -> dirAt t U.
Proof.
  unfold lookup, dirAt. rewrite TreeFacts.lookupo_app. fold (lookup t U).
  destruct (lookup t U) as [[m d|es]|]; simpl; try discriminate.
  intros _. now exists es.
Qed.

Lemma lookup_below_absent t (p r : list string) :
  lookup t p = None -> lookup t (p ++ r) = None.
Proof.
  intros H. unfold lookup. rewrite TreeFacts.lookupo_app. fold (lookup t p).
  rewrite H. apply TreeFacts.lookupo_None.
Qed.

Lemma blockedo_upd_same g p o :
  blockedo o p = false -> blockedo (upd g p o) p = false.
Proof.
  revert o. induction p as [|x p IH]; intros o H; [reflexivity|].
  destruct o as [[m d|es]|]; simpl in *.
  - discriminate.
  - rewrite TreeFacts.assoc_set_same. now apply IH.
  - destruct (upd g p None) eqn:E; [|reflexivity]. simpl.
    rewrite String.eqb_refl. rewrite <- E. apply IH.
    apply TreeFacts.blockedo_None.
Qed.

(** Rewriting at [p] does not put a file in the way to [p]. *)
Lemma blocked_alter_same g p t :
  p <> [] -> blocked t p = false -> blocked (alter g p t) p = false.
Proof.
  intros Hp Hb. unfold blocked, alter.
  destruct (TreeFacts.upd_Some_nonroot g p t Hp) as [t' E]. rewrite E.
  rewrite <- E. now apply blockedo_upd_same.
Qed.

Lemma sameOutside_refl p t : sameOutside p t t.
Proof. intros q _. reflexivity. Qed.

Lemma sameOutside_trans p t1 t2 t3 :
  sameOutside p t1 t2 -> sameOutside p t2 t3 -> sameOutside p t1 t3.
Proof. intros H1 H2 q Hq. rewrite H2, H1 by assumption. reflexivity. Qed.

Lemma sameOutside_alter g p t : sameOutside p t (alter g p t).
Proof. intros q Hq. now apply TreeFacts.lookup_alter_frame. Qed.

Lemma incomparable_snoc_l (p q : list string) x :
  incomparable p q -> incomparable (p ++ [x]) q.
Proof.
  intros [H1 H2]. split.
  - destruct (prefixb (p ++ [x]) q) eqn:E; [|reflexivity].
    apply TreeFacts.prefixb_spec in E as [r ->].
    rewrite <- app_assoc, TreeFacts.prefixb_app in H1. discriminate.
  - destruct (prefixb q (p ++ [x])) eqn:E; [|reflexivity].
    apply TreeFacts.prefixb_spec in E as [r E].
    destruct r as [|y r] using rev_ind.
    + rewrite app_nil_r in E. subst q.
      rewrite TreeFacts.prefixb_app in H1. discriminate.
    + rewrite app_assoc in E. apply app_inj_tail in E as [-> _].
      rewrite TreeFacts.prefixb_app in H2. discriminate.
Qed.

Lemma incomparable_app_l (p q : list string) r :
  incomparable p q -> incomparable (p ++ r) q.
Proof.
  intros H. induction r as [|x r IH] using rev_ind.
  - now rewrite app_nil_r.
  - rewrite app_assoc. now apply incomparable_snoc_l.
Qed.

End CopyFacts.

(** ** Running the primitives *)

Module RunFacts.
Import Tree CopyFacts.
Local Open Scope list_scope.

Lemma tryCatch_bind_gets {A B} (f : World -> A) (k : A -> M B) handler w :
  tryCatch (bind (gets f) k) handler w = tryCatch (k (f w)) handler w.
Proof. reflexivity. Qed.

Lemma bind_gets {A B} (f : World -> A) (k : A -> M B) w :
  bind (gets f) k w = k (f w) w.
Proof. reflexivity. Qed.

Lemma existsSync_run h p w :
  existsSync h p w
  = (Ret (match lookup (fs w) (segments h p) with
          | Some _ => true
          | None => false
          end), w).
Proof. reflexivity. Qed.

Lemma ensureDir_present h p w n :
  lookup (fs w) (segments h p) = Some n -> ensureDir h p w = (Ret tt, w).
Proof.
  intros H. unfold ensureDir, existsSync. rewrite bind_gets, H. reflexivity.
Qed.

Lemma ensureDir_absent h p w :
  lookup (fs w) (segments h p) = None ->
  blocked (fs w) (segments h p) = false ->
  ensureDir h p w
  = (Ret tt,
     with_fs w (alter (fun _ => Some (Dir [])) (segments h p) (fs w))).
Proof.
  intros H Hb. unfold ensureDir, existsSync. rewrite bind_gets, H.
  cbn [negb when]. unfold mkdirSync. now rewrite Hb, H.
Qed.

Lemma swallow_rm h p w :
  blocked (fs w) (segments h p) = false ->
  swallow (removeDir h p) w
  = (Ret tt, with_fs w (alter (fun _ => None) (segments h p) (fs w))).
Proof.
  intros Hb. unfold swallow, tryCatch, removeDir, rm. now rewrite Hb.
Qed.

Lemma cp_fault h s d w residue e :
  cpFault w s d = Some (residue, e) ->
  cp h s d w
  = (Throw e, with_fs w (alter (fun _ => residue) (segments h d) (fs w))).
Proof. intros H. unfold cp. now rewrite H. Qed.

Lemma cp_into_empty h s d w es :
  cpFault w s d = None ->
  lookup (fs w) (segments h s) = Some (Dir es) -> NoDup (names es) ->
  prefixb (segments h s) (segments h d) = false ->
  lookup (fs w) (segments h d) = Some (Dir []) ->
  cp h s d w
  = (Ret tt,
     with_fs w (alter (fun _ => Some (touch (now w) (Dir es)))
                      (segments h d) (fs w))).
Proof.
  intros Hf Hs Hnd Hpre Hd. unfold cp. rewrite Hf, Hs, Hpre.
  rewrite (TreeFacts.lookupo_Some_not_blocked _ _ _ Hd : blocked _ _ = false).
  rewrite Hd, cpNode_into_empty by assumption. reflexivity.
Qed.

(** [copyDir] into a place that is free. *)
Lemma copyDir_fresh h s d w es :
  cpFault w s d = None ->
  lookup (fs w) (segments h s) = Some (Dir es) -> NoDup (names es) ->
  incomparable (segments h d) (segments h s) ->
  lookup (fs w) (segments h d) = None ->
  blocked (fs w) (segments h d) = false ->
  exists t',
    copyDir h s d w = (Ret tt, with_fs w t')
    /\ lookup t' (segments h d) = Some (touch (now w) (Dir es))
    /\ sameOutside (segments h d) (fs w) t'.
Proof.
  intros Hf Hs Hnd Hi Hd Hb.
  destruct (TreeFacts.incomparable_nonroot _ _ Hi) as [Hne _].
  set (D := segments h d) in *.
  set (t1 := alter (fun _ => Some (Dir [])) D (fs w)).
  assert (H1 : lookup t1 D = Some (Dir []))
    by (unfold t1; now rewrite TreeFacts.lookup_alter_same).
  exists (alter (fun _ => Some (touch (now w) (Dir es))) D t1).
  split; [|split].
  - unfold copyDir, bind.
    rewrite ensureDir_absent by assumption. fold D t1.
    rewrite (cp_into_empty h s d (with_fs w t1) es); try assumption.
    + reflexivity.
    + cbn [fs with_fs]. unfold t1.
      now rewrite TreeFacts.lookup_alter_frame.
    + apply Hi.
  - rewrite TreeFacts.lookup_alter_same;
      [reflexivity|assumption|
       exact (TreeFacts.lookupo_Some_not_blocked _ _ _ H1)].
  - eapply sameOutside_trans; apply sameOutside_alter.
Qed.

(** ** Rules for [hoare] *)

Lemma hoare_ret {A} J (a : A) (Q : A -> Prop) : Q a -> hoare J (ret a) Q.
Proof. intros H w Hw. split; [exact Hw|]. intros b [= <-]. exact H. Qed.

Lemma hoare_throw {A} J e (Q : A -> Prop) : hoare J (throw e) Q.
Proof. intros w Hw. split; [exact Hw|]. intros b [=]. Qed.

Lemma hoare_bind {A B} J (m : M A) (k : A -> M B) Q R :
  hoare J m Q -> (forall a, Q a -> hoare J (k a) R) -> hoare J (bind m k) R.
Proof.
  intros Hm Hk w Hw. unfold bind. destruct (Hm w Hw) as [HJ HQ].
  destruct (m w) as [[a|e] w']; simpl in *.
  - apply (Hk a (HQ a eq_refl) w' HJ).
  - split; [exact HJ|]. intros b [=].
Qed.

Lemma hoare_tryCatch {A} J (m : M A) (k : string -> M A) Q :
  hoare J m Q -> (forall e, hoare J (k e) Q) -> hoare J (tryCatch m k) Q.
Proof.
  intros Hm Hk w Hw. unfold tryCatch. destruct (Hm w Hw) as [HJ HQ].
  destruct (m w) as [[a|e] w']; simpl in *.
  - split; [exact HJ|]. intros b [= <-]. now apply HQ.
  - apply (Hk e w' HJ).
Qed.

Lemma hoare_weaken {A} J (m : M A) (Q R : A -> Prop) :
  hoare J m Q -> (forall a, Q a -> R a) -> hoare J m R.
Proof.
  intros Hm HQR w Hw. destruct (Hm w Hw) as [HJ HQ].
  split; [exact HJ|]. intros a Ha. apply HQR, HQ, Ha.
Qed.

Lemma hoare_any {A} J (m : M A) Q : hoare J m Q -> hoare J m (fun _ => True).
Proof. intros H. eapply hoare_weaken; [exact H|trivial]. Qed.

Lemma hoare_when J c m :
  hoare J m (fun _ => True) -> hoare J (when c m) (fun _ => True).
Proof. destruct c; [trivial|intros _; now apply hoare_ret]. Qed.

Lemma hoare_swallow J m :
  hoare J m (fun _ => True) -> hoare J (swallow m) (fun _ => True).
Proof.
  intros H. apply hoare_tryCatch; [exact H|]. intros e. now apply hoare_ret.
Qed.

Lemma hoare_readOnly {A} J (m : M A) :
  readOnly m -> hoare J m (fun _ => True).
Proof. intros H w Hw. rewrite H. split; [exact Hw|trivial]. Qed.

Lemma hoare_gets {A} J (f : World -> A) (Q : A -> Prop) :
  (forall w, J w -> Q (f w)) -> hoare J (gets f) Q.
Proof.
  intros H w Hw. split; [exact Hw|]. intros a [= <-]. now apply H.
Qed.

End RunFacts.

(** ** Import of a source without [projects/] *)

Lemma join_isAbsolute a x :
  isAbsolute a = true -> isAbsolute (join a x) = true.
Proof.
  intros Ha. destruct a as [|c a]; [discriminate|].
  assert (Hn : forall p, isAbsolute p = true -> isAbsolute (normalize p) = true).
  { intros p Hp. rewrite normalize_abs by assumption.
    destruct (normalizeString p false); reflexivity. }
  destruct x as [|d x]; apply Hn; exact Ha.
Qed.

Lemma blockedo_lookupo o p : Tree.blockedo o p = true -> Tree.lookupo o p = None.
Proof.
  revert o. induction p as [|x p IH]; intros o H; [discriminate|].
  destruct o as [[m d|es]|]; simpl in *; auto; discriminate.
Qed.

Lemma put_entry_same x c es :
  Tree.assoc x es = Some c -> Tree.put_entry x c es = es.
Proof.
  induction es as [|[y c'] es IH]; simpl; [discriminate|].
  destruct (String.eqb_spec x y) as [->|Hxy].
  - intros [= ->]. reflexivity.
  - intros H. now rewrite IH.
Qed.

Lemma blockedo_upd o g p : Tree.blockedo o p = true -> Tree.upd g p o = o.
Proof.
  revert o. induction p as [|x p IH]; intros o H; [discriminate|].
  destruct o as [[m d|es]|]; simpl in *; try discriminate; [reflexivity|].
  rewrite IH by assumption.
  destruct (Tree.assoc x es) as [c|] eqn:E;
    [|now rewrite blockedo_None in H].
  simpl. now rewrite put_entry_same.
Qed.

(** After a removal nothing stands at the place. *)
Lemma lookup_removed p t :
  p <> [] -> Tree.lookup (Tree.alter (fun _ => None) p t) p = None.
Proof.
  intros Hp. destruct (Tree.blocked t p) eqn:Hb.
  - rewrite lookup_alter by assumption. unfold Tree.blocked in Hb.
    rewrite blockedo_upd by assumption. now apply blockedo_lookupo.
  - now rewrite lookup_alter_same.
Qed.

Lemma upd_alter g p t : p <> [] -> Tree.upd g p (Some t) = Some (Tree.alter g p t).
Proof.
  intros Hp. unfold Tree.alter.
  destruct (upd_Some_nonroot g p t Hp) as [t' ->]. reflexivity.
Qed.

Section MediaOnlyImport.
Import Tree CopyFacts RunFacts.
Local Open Scope list_scope.

Variable h : Host.
Variable w0 : World.
Variable n0 : node.

Let base := getStorageBasePath h (storageConfig w0).
Let projectsDir := join base "projects".
Let mediaDir := join base "media".
Let backupDir := join (tmpdir h) ("moyin-backup-" ++ ofZ (now w0))%string.
Let P := segments h projectsDir.
Let Mr := segments h mediaDir.
Let B := segments h backupDir.

Hypothesis host_ok : hostOk h.
(** The live project root exists; the backup place is free and lies apart
    from both live roots. *)
Hypothesis live_projects : lookup (fs w0) P = Some n0.
Hypothesis backup_free : lookup (fs w0) B = None.
Hypothesis backup_apart_projects : incomparable B P.
Hypothesis backup_apart_media : incomparable B Mr.

Let Bp := B ++ ["projects"].
Let Bm := B ++ ["media"].
Let J := importInvariant (storageConfig w0) (configFile w0) (now w0) P Bp n0.

Let base_abs : isAbsolute base = true.
Proof. now apply getStorageBasePath_isAbsolute. Qed.

Let backup_abs : isAbsolute backupDir = true.
Proof. apply join_isAbsolute. apply host_ok. Qed.

Let P_eq : P = segments h base ++ ["projects"].
Proof. unfold P, projectsDir. now rewrite segments_join. Qed.

Let M_eq : Mr = segments h base ++ ["media"].
Proof. unfold Mr, mediaDir. now rewrite segments_join. Qed.

Let Bp_eq : segments h (join backupDir "projects") = Bp.
Proof. unfold Bp, B. now rewrite segments_join. Qed.

Let Bm_eq : segments h (join backupDir "media") = Bm.
Proof. unfold Bm, B. now rewrite segments_join. Qed.

Let flag_eq :
  segments h (join3 projectsDir "_p" "_migrated.json") = P ++ flagPath.
Proof.
  unfold join3, P, projectsDir.
  rewrite !segments_join by
      (try reflexivity; repeat apply join_isAbsolute; exact base_abs).
  now rewrite <- app_assoc.
Qed.

(** The places the import writes to, seen from [P] and [Bp]. *)
Let safe (q : list string) : Prop := incomparable q P /\ incomparable q Bp.

Let safe_M : safe Mr.
Proof.
  split.
  - rewrite P_eq, M_eq. apply siblings_apart. discriminate.
  - apply incomparable_sym. unfold Bp. now apply incomparable_snoc_l.
Qed.

Let safe_Bm : safe Bm.
Proof.
  split.
  - unfold Bm. now apply incomparable_snoc_l.
  - unfold Bm, Bp. apply siblings_apart. discriminate.
Qed.

Let J_start : J w0.
Proof.
  unfold J, importInvariant. repeat split.
  - unfold Bp. now apply lookup_below_absent.
  - now left.
Qed.

Let J_alter q g w : safe q -> J w -> J (with_fs w (alter g q (fs w))).
Proof.
  intros [HqP HqB] (Hc & Hf & Ht & HBp & HPn).
  unfold J, importInvariant.
  cbn [snd fs with_fs storageConfig configFile now].
  rewrite !lookup_alter_frame by assumption. auto.
Qed.

Let hoare_mkdirSync q :
  safe (segments h q) -> hoare J (mkdirSync h q) (fun _ => True).
Proof.
  intros Hq w Hw. unfold mkdirSync.
  destruct (blocked (fs w) (segments h q)); [now split|].
  destruct (lookup (fs w) (segments h q)) as [[m d|es]|]; split; trivial.
  now apply J_alter.
Qed.

Let hoare_ensureDir q :
  safe (segments h q) -> hoare J (ensureDir h q) (fun _ => True).
Proof.
  intros Hq. unfold ensureDir.
  eapply hoare_bind; [apply hoare_readOnly, readOnly_existsSync|].
  intros e _. now apply hoare_when, hoare_mkdirSync.
Qed.

Let hoare_rm q :
  safe (segments h q) -> hoare J (removeDir h q) (fun _ => True).
Proof.
  intros Hq w Hw. unfold removeDir, rm.
  destruct (blocked (fs w) (segments h q)); split; trivial.
  now apply J_alter.
Qed.

Let hoare_cp s d :
  safe (segments h d) -> hoare J (cp h s d) (fun _ => True).
Proof.
  intros Hd w Hw. unfold cp.
  destruct (cpFault w s d) as [[residue e]|];
    [split; trivial; now apply J_alter|].
  destruct (lookup (fs w) (segments h s)); [|now split].
  destruct (prefixb _ _); [now split|].
  destruct (blocked (fs w) (segments h d)); [now split|].
  destruct (cpNode _ _ _). split; trivial. now apply J_alter.
Qed.

Let hoare_copyDir s d :
  safe (segments h d) -> hoare J (copyDir h s d) (fun _ => True).
Proof.
  intros Hd. unfold copyDir.
  eapply hoare_bind; [now apply hoare_ensureDir|].
  intros _ _. now apply hoare_cp.
Qed.

(** Removing the backup directory keeps its [projects] place free. *)
Let hoare_rm_backup : hoare J (swallow (removeDir h backupDir)) (fun _ => True).
Proof.
  apply hoare_swallow. intros w Hw. unfold removeDir, rm. fold B.
  destruct (blocked (fs w) B) eqn:Hb; [now split|]. split; [|trivial].
  destruct Hw as (Hc & Hf & Ht & HBp & HPn).
  unfold J, importInvariant.
  cbn [snd fs with_fs storageConfig configFile now].
  rewrite (lookup_alter_frame _ B P) by assumption.
  repeat split; try assumption.
  unfold Bp. rewrite lookup_alter_below; [reflexivity| |assumption].
  destruct (incomparable_nonroot _ _ backup_apart_projects). assumption.
Qed.

(** Clearing the migration marker turns [n0] into [n0] without it. *)
Let hoare_unlink_flag :
  hoare J (unlinkSync h (join3 projectsDir "_p" "_migrated.json"))
        (fun _ => True).
Proof.
  intros w Hw. unfold unlinkSync. rewrite flag_eq.
  destruct (lookup (fs w) (P ++ flagPath)) as [[m d|es]|] eqn:E;
    try (now split).
  split; [|trivial]. destruct Hw as (Hc & Hf & Ht & HBp & HPn).
  unfold J, importInvariant.
  cbn [snd fs with_fs storageConfig configFile now].
  assert (HFB : incomparable (P ++ flagPath) Bp).
  { apply incomparable_app_l, incomparable_sym. unfold Bp.
    now apply incomparable_snoc_l. }
  rewrite (lookup_alter_frame _ _ Bp) by assumption.
  repeat split; try assumption. right.
  destruct HPn as [HPn|HPn].
  - rewrite lookup_alter_above;
      [|now destruct P|exact (lookupo_Some_not_blocked _ _ _ HPn)].
    rewrite HPn. apply upd_alter. discriminate.
  - exfalso. unfold lookup in E. rewrite lookupo_app in E.
    fold (lookup (fs w) P) in E. rewrite HPn in E.
    fold (lookup (alter (fun _ => None) flagPath n0) flagPath) in E.
    rewrite lookup_removed in E; discriminate.
Qed.

(** Nothing was backed up for the project root, so nothing is restored. *)
Let hoare_restore_projects :
  hoare J (restoreRoot h (join backupDir "projects") projectsDir)
        (fun _ => True).
Proof.
  unfold restoreRoot.
  apply (hoare_bind J _ _ (fun e => e = false)).
  - apply hoare_gets. intros w (_ & _ & _ & HBp & _).
    now rewrite Bp_eq, HBp.
  - intros e ->. now apply hoare_ret.
Qed.

Let hoare_restore_media :
  hoare J (restoreRoot h (join backupDir "media") mediaDir) (fun _ => True).
Proof.
  unfold restoreRoot.
  eapply hoare_bind; [apply hoare_readOnly, readOnly_existsSync|].
  intros e _. apply hoare_when.
  eapply hoare_bind; [apply hoare_swallow, hoare_rm, safe_M|].
  intros _ _. apply hoare_swallow, hoare_copyDir, safe_M.
Qed.

Let hoare_backup_media hasMedia :
  hoare J (backupRoot h hasMedia mediaDir (join backupDir "media"))
        (fun _ => True).
Proof.
  unfold backupRoot.
  eapply hoare_bind;
    [apply hoare_readOnly; destruct hasMedia;
     [apply readOnly_existsSync|apply readOnly_ret]|].
  intros e _. apply hoare_when.
  eapply hoare_bind; [apply hoare_readOnly, readOnly_readdir|].
  intros files _. apply hoare_when, hoare_copyDir. rewrite Bm_eq.
  exact safe_Bm.
Qed.

Let hoare_replace_media hasMedia src :
  hoare J (replaceRoot h hasMedia src mediaDir) (fun _ => True).
Proof.
  unfold replaceRoot. apply hoare_when.
  eapply hoare_bind; [apply hoare_swallow, hoare_rm, safe_M|].
  intros _ _. apply hoare_copyDir, safe_M.
Qed.

Let hoare_swap hasMedia srcP srcM :
  hoare J (importSwap h false hasMedia srcP srcM projectsDir mediaDir backupDir)
        (fun _ => True).
Proof.
  unfold importSwap.
  eapply hoare_bind; [apply hoare_readOnly; intros w; reflexivity|].
  intros _ _. eapply hoare_bind; [apply hoare_backup_media|].
  intros _ _. eapply hoare_bind; [apply hoare_readOnly; intros w; reflexivity|].
  intros _ _. eapply hoare_bind; [apply hoare_replace_media|].
  intros _ _. cbv zeta.
  eapply hoare_bind; [apply hoare_readOnly, readOnly_existsSync|].
  intros flagged _.
  eapply hoare_bind; [apply hoare_when, hoare_unlink_flag|].
  intros _ _. eapply hoare_bind; [apply hoare_rm_backup|].
  intros _ _. now apply hoare_ret.
Qed.

Let hoare_rollback e :
  hoare J (importRollback h projectsDir mediaDir backupDir e) (fun _ => True).
Proof.
  unfold importRollback. cbv zeta.
  eapply hoare_bind; [apply hoare_restore_projects|].
  intros _ _. eapply hoare_bind; [apply hoare_restore_media|].
  intros _ _. eapply hoare_bind; [apply hoare_rm_backup|].
  intros _ _. apply hoare_throw.
Qed.

Let hoare_importFrom hasMedia srcP srcM :
  hoare J (importFrom h false hasMedia srcP srcM) (fun _ => True).
Proof.
  unfold importFrom.
  apply (hoare_bind J _ _ (fun t => t = now w0)).
  { apply hoare_gets. intros w (_ & _ & Ht & _). exact Ht. }
  intros t ->. cbv zeta. fold backupDir.
  apply (hoare_bind J _ _ (fun p => p = projectsDir)).
  { unfold getProjectDataRoot.
    apply (hoare_bind J _ _ (fun c => c = storageConfig w0)).
    { apply hoare_gets. intros w (Hc & _). exact Hc. }
    intros c ->. cbv zeta. fold base projectsDir.
    apply (hoare_bind J _ _ (fun _ => True)).
    - intros w Hw. pose proof Hw as (_ & _ & _ & _ & [HPn|HPn]);
        rewrite (ensureDir_present h projectsDir w _ HPn);
        (split; [exact Hw|trivial]).
    - intros _ _. now apply hoare_ret. }
  intros p ->.
  apply (hoare_bind J _ _ (fun p => p = mediaDir)).
  { unfold getMediaRoot.
    apply (hoare_bind J _ _ (fun c => c = storageConfig w0)).
    { apply hoare_gets. intros w (Hc & _). exact Hc. }
    intros c ->. cbv zeta. fold base mediaDir.
    eapply hoare_bind; [apply hoare_ensureDir, safe_M|].
    intros _ _. now apply hoare_ret. }
  intros p ->.
  apply hoare_tryCatch; [apply hoare_swap|apply hoare_rollback].
Qed.

(** C3 (amended).  An import from a source without [projects/] leaves the
    live project root as it was, every file and directory under it
    included, with one exception: the migration marker
    [_p/_migrated.json] may have been removed from it.  The Config Store is
    not written.  The backup place [tmpdir/moyin-backup-<now>] is assumed
    free and apart from both live roots. *)
Theorem import_without_projects_keeps_project_root (sourcePath : string) :
  lookup (fs w0) (segments h (join (normalizePath h sourcePath) "projects"))
  = None ->
  let w' := snd (storage_import_data h sourcePath w0) in
  (lookup (fs w') P = Some n0
   \/ lookup (fs w') P = Some (alter (fun _ => None) flagPath n0))
  /\ sameConfig w0 w'.
Proof.
  intros Hsrc w'.
  assert (HJ : J w').
  { subst w'. unfold storage_import_data.
    destruct sourcePath as [|c s]; [exact J_start|]. cbn [truthy negb].
    cbv zeta. unfold existsSync at 1.
    rewrite tryCatch_bind_gets, Hsrc. unfold existsSync at 1.
    rewrite tryCatch_bind_gets. cbn [negb andb].
    match goal with
    | |- context [tryCatch ?m ?k w0] =>
        assert (Hm : hoare J m (fun _ => True))
    end.
    { match goal with |- context [if ?b then _ else _] => destruct b end;
        [now apply hoare_ret|apply hoare_importFrom]. }
    refine (proj1 (hoare_tryCatch J _ _ _ Hm _ w0 J_start)).
    intros e. now apply hoare_ret. }
  destruct HJ as (Hc & Hf & _ & _ & HP). split; [exact HP|]. now split.
Qed.

End MediaOnlyImport.

(** C3 as stated fails on the migration marker: importing [/src], which
    holds [media/] only, succeeds and removes [_p/_migrated.json] from the
    live project root. *)
Lemma import_without_projects_counterexample :
  let w := Sample.world in
  let w' := snd (storage_import_data Sample.host "/src" w) in
  Tree.lookup (fs w) ["src"; "projects"] = None
  /\ Tree.lookup (fs w) ["src"; "media"] <> None
  /\ fst (storage_import_data Sample.host "/src" w) = Ret (succeeded None)
  /\ Tree.lookup (fs w) ["data"; "base"; "projects"; "_p"; "_migrated.json"]
     = Some (Tree.File 1 "x")
  /\ Tree.lookup (fs w') ["data"; "base"; "projects"; "_p"; "_migrated.json"]
     = None
  /\ Tree.lookup (fs w') ["data"; "base"; "projects"]
     <> Tree.lookup (fs w) ["data"; "base"; "projects"].
Proof. vm_compute. repeat split; discriminate. Qed.

Lemma import_without_projects_keeps_project_root_witness :
  let w' := snd (storage_import_data Sample.host "/src" Sample.world) in
  Tree.lookup (fs w') ["data"; "base"; "projects"]
  = Some (Tree.Dir [ ("a.json", Tree.File 1 "A");
                     ("_p", Tree.Dir [ ("p1", Tree.Dir []) ]) ]).
Proof.
  intros w'.
  destruct (import_without_projects_keeps_project_root
              Sample.host Sample.world
              (Tree.Dir [ ("a.json", Tree.File 1 "A");
                          ("_p", Tree.Dir [ ("_migrated.json", Tree.File 1 "x");
                                            ("p1", Tree.Dir []) ]) ])
              ltac:(repeat split) eq_refl eq_refl
              ltac:(split; reflexivity) ltac:(split; reflexivity)
              "/src" eq_refl) as [[H|H] _].
  - exfalso. revert H. vm_compute. discriminate.
  - exact H.
Defined.

(** ** The blocks of the import, run *)

Module ImportSteps.
Import Tree CopyFacts RunFacts.
Local Open Scope list_scope.

Lemma bind_ret_run {A B} (m : M A) (k : A -> M B) w a w' :
  m w = (Ret a, w') -> bind m k w = k a w'.
Proof. intros E. unfold bind. now rewrite E. Qed.

Lemma bind_throw_run {A B} (m : M A) (k : A -> M B) w e w' :
  m w = (Throw e, w') -> bind m k w = (Throw e, w').
Proof. intros E. unfold bind. now rewrite E. Qed.

Lemma bind_two_run {B} (m1 m2 : M unit) (k : M B) w w' :
  (m1 ;; m2)%js w = (Ret tt, w') -> (m1 ;; m2 ;; k)%js w = k w'.
Proof.
  unfold bind. destruct (m1 w) as [[[]|e] w1]; [|discriminate].
  destruct (m2 w1) as [[[]|e] w2]; [|discriminate].
  intros [= <-]. reflexivity.
Qed.

Lemma tryCatch_throw_run {A} (m : M A) (k : string -> M A) w e w' :
  m w = (Throw e, w') -> tryCatch m k w = k e w'.
Proof. intros E. unfold tryCatch. now rewrite E. Qed.

Lemma swallow_ret_run m w w' : m w = (Ret tt, w') -> swallow m w = (Ret tt, w').
Proof. intros E. unfold swallow, tryCatch. now rewrite E. Qed.

Lemma readdir_run h p w es :
  lookup (fs w) (segments h p) = Some (Dir es) ->
  readdir h p w = (Ret (names es), w).
Proof.
  intros H. unfold readdir, bind, readdirTypes. rewrite H. unfold ret.
  now rewrite map_map.
Qed.

(** A live root that holds something is copied to the backup place. *)
Lemma backupRoot_copy h s d w e es :
  lookup (fs w) (segments h s) = Some (Dir (e :: es)) ->
  backupRoot h true s d w = copyDir h s d w.
Proof.
  intros H. unfold backupRoot.
  rewrite (bind_ret_run _ _ w true w) by (rewrite existsSync_run; now rewrite H).
  cbn [when]. rewrite (bind_ret_run _ _ w _ w (readdir_run h s w _ H)).
  reflexivity.
Qed.

Lemma backupRoot_empty h s d w :
  lookup (fs w) (segments h s) = Some (Dir []) ->
  backupRoot h true s d w = (Ret tt, w).
Proof.
  intros H. unfold backupRoot.
  rewrite (bind_ret_run _ _ w true w) by (rewrite existsSync_run; now rewrite H).
  cbn [when]. rewrite (bind_ret_run _ _ w _ w (readdir_run h s w _ H)).
  reflexivity.
Qed.

Lemma backupRoot_unwanted h s d w : backupRoot h false s d w = (Ret tt, w).
Proof. reflexivity. Qed.

(** The live root is removed, made again, and the copy into it throws. *)
Lemma replaceRoot_fault h s d w n residue e :
  lookup (fs w) (segments h d) = Some n ->
  segments h d <> [] ->
  cpFault w s d = Some (residue, e) ->
  exists t',
    replaceRoot h true s d w = (Throw e, with_fs w t')
    /\ sameOutside (segments h d) (fs w) t'
    /\ blocked t' (segments h d) = false.
Proof.
  intros Hd Hne Hf. set (D := segments h d) in *.
  assert (Hb : blocked (fs w) D = false)
    by exact (TreeFacts.lookupo_Some_not_blocked _ _ _ Hd).
  set (t1 := alter (fun _ => None) D (fs w)).
  set (t2 := alter (fun _ => Some (Dir [])) D t1).
  set (t3 := alter (fun _ => residue) D t2).
  assert (Hb1 : blocked t1 D = false) by now apply blocked_alter_same.
  assert (Hb2 : blocked t2 D = false) by now apply blocked_alter_same.
  exists t3. split; [|split].
  - unfold replaceRoot. cbn [when].
    rewrite (bind_ret_run _ _ w tt (with_fs w t1)) by now apply swallow_rm.
    unfold copyDir.
    rewrite (bind_ret_run _ _ (with_fs w t1) tt (with_fs w t2)).
    + now rewrite (cp_fault h s d (with_fs w t2) residue e).
    + rewrite ensureDir_absent; [reflexivity| |exact Hb1].
      cbn [fs with_fs]. now apply lookup_removed.
  - repeat (eapply sameOutside_trans; [|apply sameOutside_alter]).
    apply sameOutside_refl.
  - now apply blocked_alter_same.
Qed.

(** A root that has a backup is removed and copied back. *)
Lemma restoreRoot_copy h bk d w es :
  lookup (fs w) (segments h bk) = Some (Dir es) -> NoDup (names es) ->
  blocked (fs w) (segments h d) = false ->
  incomparable (segments h d) (segments h bk) ->
  cpFault w bk d = None ->
  exists t',
    restoreRoot h bk d w = (Ret tt, with_fs w t')
    /\ lookup t' (segments h d) = Some (touch (now w) (Dir es))
    /\ sameOutside (segments h d) (fs w) t'.
Proof.
  intros Hbk Hnd Hb Hi Hf.
  destruct (TreeFacts.incomparable_nonroot _ _ Hi) as [Hne _].
  set (D := segments h d) in *.
  set (t1 := alter (fun _ => None) D (fs w)).
  destruct (copyDir_fresh h bk d (with_fs w t1) es) as (t' & E & Hat & Hout);
    try assumption.
  - cbn [fs with_fs]. unfold t1. now rewrite TreeFacts.lookup_alter_frame.
  - cbn [fs with_fs]. now apply lookup_removed.
  - cbn [fs with_fs]. now apply blocked_alter_same.
  - exists t'. split; [|split].
    + unfold restoreRoot.
      rewrite (bind_ret_run _ _ w true w)
        by (rewrite existsSync_run; now rewrite Hbk).
      cbn [when].
      rewrite (bind_ret_run _ _ w tt (with_fs w t1)) by now apply swallow_rm.
      now apply swallow_ret_run.
    + exact Hat.
    + eapply sameOutside_trans; [apply sameOutside_alter|exact Hout].
Qed.

Lemma restoreRoot_skip h bk d w :
  lookup (fs w) (segments h bk) = None ->
  restoreRoot h bk d w = (Ret tt, w).
Proof.
  intros H. unfold restoreRoot.
  rewrite (bind_ret_run _ _ w false w)
    by (rewrite existsSync_run; now rewrite H).
  reflexivity.
Qed.

Lemma root_present h sub w n :
  lookup (fs w)
         (segments h (join (getStorageBasePath h (storageConfig w)) sub))
  = Some n ->
  (c <- gets storageConfig ;;
   let base := join (getStorageBasePath h c) sub in
   ensureDir h base ;; ret base)%js w
  = (Ret (join (getStorageBasePath h (storageConfig w)) sub), w).
Proof.
  intros H. rewrite bind_gets. cbv zeta.
  now rewrite (bind_ret_run _ _ w tt w (ensureDir_present h _ w n H)).
Qed.

(** With [projects/] in the source the handler gets to [importFrom]; the
    live roots exist, so resolving them changes nothing. *)
Lemma import_with_projects h sourcePath w n np nm :
  sourcePath <> ""%string ->
  lookup (fs w) (segments h (join (normalizePath h sourcePath) "projects"))
  = Some n ->
  lookup (fs w)
         (segments h (join (getStorageBasePath h (storageConfig w)) "projects"))
  = Some np ->
  lookup (fs w)
         (segments h (join (getStorageBasePath h (storageConfig w)) "media"))
  = Some nm ->
  let source := normalizePath h sourcePath in
  let base := getStorageBasePath h (storageConfig w) in
  let backupDir :=
    join (tmpdir h) ("moyin-backup-" ++ ofZ (now w))%string in
  let hasMedia :=
    match lookup (fs w) (segments h (join source "media")) with
    | Some _ => true
    | None => false
    end in
  storage_import_data h sourcePath w
  = tryCatch
      (tryCatch
         (importSwap h true hasMedia (join source "projects")
                     (join source "media") (join base "projects")
                     (join base "media") backupDir)
         (importRollback h (join base "projects") (join base "media")
                         backupDir))
      (fun error => ret (failure error)) w.
Proof.
  intros Hne Hsrc HP HM source base backupDir hasMedia.
  unfold storage_import_data.
  destruct sourcePath as [|c s]; [congruence|]. cbn [truthy negb]. cbv zeta.
  unfold existsSync at 1. rewrite tryCatch_bind_gets, Hsrc.
  unfold existsSync at 1. rewrite tryCatch_bind_gets. cbn [negb andb].
  unfold importFrom. rewrite tryCatch_bind_gets. cbv zeta.
  unfold tryCatch at 1 3.
  unfold getProjectDataRoot.
  rewrite (bind_ret_run _ _ w _ w (root_present h "projects" w _ HP)).
  unfold getMediaRoot.
  rewrite (bind_ret_run _ _ w _ w (root_present h "media" w _ HM)).
  reflexivity.
Qed.

End ImportSteps.

(** ** Import whose copy of [projects/] throws *)

Section ImportRollback.
Import Tree CopyFacts RunFacts ImportSteps.
Local Open Scope list_scope.

Variable h : Host.
Variable w0 : World.
Variable sourcePath : string.
Variables es ms : entries_t.
Variable residue : option node.
Variable err : string.

Let source := normalizePath h sourcePath.
Let sourceProjectsDir := join source "projects".
Let sourceMediaDir := join source "media".
Let base := getStorageBasePath h (storageConfig w0).
Let projectsDir := join base "projects".
Let mediaDir := join base "media".
Let backupDir := join (tmpdir h) ("moyin-backup-" ++ ofZ (now w0))%string.
Let backupProjectsDir := join backupDir "projects".
Let backupMediaDir := join backupDir "media".
Let at_ (w : World) (p : string) := lookup (fs w) (segments h p).

Hypothesis host_ok : hostOk h.
Hypothesis path_given : sourcePath <> ""%string.
(** The source has [projects/]. *)
Hypothesis source_projects : at_ w0 sourceProjectsDir <> None.
(** Both live roots are directories with distinct entry names; the project
    root holds something, so that step 1 snapshots it. *)
Hypothesis live_projects : at_ w0 projectsDir = Some (Dir es).
Hypothesis projects_nonempty : es <> [].
Hypothesis projects_distinct : NoDup (names es).
Hypothesis live_media : at_ w0 mediaDir = Some (Dir ms).
Hypothesis media_distinct : NoDup (names ms).
(** The backup place is free, can be created, and lies apart from both
    live roots. *)
Hypothesis backup_free : at_ w0 backupDir = None.
Hypothesis backup_reachable : blocked (fs w0) (segments h backupDir) = false.
Hypothesis backup_apart_projects :
  incomparable (segments h backupDir) (segments h projectsDir).
Hypothesis backup_apart_media :
  incomparable (segments h backupDir) (segments h mediaDir).
(** The one injected failure: the copy of the source's [projects/] into the
    live project root throws [err], leaving [residue] there.  The copies to
    and from the backup place go through. *)
Hypothesis copy_throws :
  cpFault w0 sourceProjectsDir projectsDir = Some (residue, err).
Hypothesis backup_projects_ok :
  cpFault w0 projectsDir backupProjectsDir = None.
Hypothesis backup_media_ok : cpFault w0 mediaDir backupMediaDir = None.
Hypothesis restore_projects_ok :
  cpFault w0 backupProjectsDir projectsDir = None.
Hypothesis restore_media_ok : cpFault w0 backupMediaDir mediaDir = None.

Let P := segments h projectsDir.
Let Mr := segments h mediaDir.
Let B := segments h backupDir.
Let Bp := segments h backupProjectsDir.
Let Bm := segments h backupMediaDir.

Let base_abs : isAbsolute base = true.
Proof. now apply getStorageBasePath_isAbsolute. Qed.

Let backup_abs : isAbsolute backupDir = true.
Proof. apply join_isAbsolute. apply host_ok. Qed.

Let Bp_eq : Bp = B ++ ["projects"].
Proof. unfold Bp, backupProjectsDir, B. now rewrite segments_join. Qed.

Let Bm_eq : Bm = B ++ ["media"].
Proof. unfold Bm, backupMediaDir, B. now rewrite segments_join. Qed.

Let P_M : incomparable P Mr.
Proof.
  unfold P, Mr, projectsDir, mediaDir. rewrite !segments_join by easy.
  apply siblings_apart. discriminate.
Qed.

Let Bp_P : incomparable Bp P.
Proof. rewrite Bp_eq. now apply incomparable_snoc_l. Qed.

Let Bp_M : incomparable Bp Mr.
Proof. rewrite Bp_eq. now apply incomparable_snoc_l. Qed.

Let Bm_P : incomparable Bm P.
Proof. rewrite Bm_eq. now apply incomparable_snoc_l. Qed.

Let Bm_M : incomparable Bm Mr.
Proof. rewrite Bm_eq. now apply incomparable_snoc_l. Qed.

Let Bm_Bp : incomparable Bm Bp.
Proof. rewrite Bm_eq, Bp_eq. apply siblings_apart. discriminate.
Qed.

(** The first two steps: both snapshots are taken (the media one only if
    the source brings media and the media root holds something). *)
Let after_backups hasMedia :
  exists t2,
    (backupRoot h true projectsDir backupProjectsDir ;;
     backupRoot h hasMedia mediaDir backupMediaDir)%js w0
    = (Ret tt, with_fs w0 t2)
    /\ lookup t2 P = Some (Dir es)
    /\ lookup t2 Mr = Some (Dir ms)
    /\ lookup t2 Bp = Some (touch (now w0) (Dir es))
    /\ (lookup t2 Bm = Some (touch (now w0) (Dir ms)) \/ lookup t2 Bm = None)
    /\ (hasMedia = false -> lookup t2 Bm = None).
Proof.
  destruct es as [|e es'] eqn:Ees; [congruence|]. rewrite <- Ees in *.
  destruct (copyDir_fresh h projectsDir backupProjectsDir w0 es)
    as (t1 & E1 & Hat1 & Hout1);
    [ exact backup_projects_ok | exact live_projects | exact projects_distinct
    | exact Bp_P
    | fold Bp; rewrite Bp_eq; now apply lookup_below_absent
    | fold Bp; rewrite Bp_eq; now apply blocked_below_free | ].
  fold Bp in Hat1, Hout1.
  assert (H1P : lookup t1 P = Some (Dir es)) by now rewrite Hout1.
  assert (H1M : lookup t1 Mr = Some (Dir ms)) by now rewrite Hout1.
  assert (H1Bm : lookup t1 Bm = None).
  { rewrite Hout1 by now apply incomparable_sym.
    rewrite Bm_eq. now apply lookup_below_absent. }
  assert (Hstep1 : backupRoot h true projectsDir backupProjectsDir w0
                   = (Ret tt, with_fs w0 t1)).
  { rewrite <- E1. rewrite Ees in live_projects.
    eapply backupRoot_copy. exact live_projects. }
  destruct hasMedia; [destruct ms as [|m ms'] eqn:Ems|].
  - exists t1. split; [|repeat split; auto].
    rewrite (bind_ret_run _ _ _ _ _ Hstep1). now apply backupRoot_empty.
  - rewrite <- Ems in *.
    assert (Hb1 : blocked t1 Bm = false).
    { rewrite Bm_eq. rewrite Bp_eq in Hat1.
      destruct (lookup_snoc_dirAt t1 B "projects" _ Hat1) as [bs Hbs].
      eapply blocked_child. exact Hbs. }
    destruct (copyDir_fresh h mediaDir backupMediaDir (with_fs w0 t1) ms)
      as (t2 & E2 & Hat2 & Hout2);
      [ exact backup_media_ok | exact H1M | exact media_distinct
      | exact Bm_M | exact H1Bm | exact Hb1 | ].
    fold Bm in Hat2, Hout2. cbn [fs with_fs now] in Hat2, Hout2.
    exists t2. split; [|repeat split].
    + rewrite (bind_ret_run _ _ _ _ _ Hstep1).
      rewrite (backupRoot_copy h mediaDir backupMediaDir (with_fs w0 t1) m ms')
        by (rewrite <- Ems; exact H1M).
      exact E2.
    + now rewrite Hout2.
    + now rewrite Hout2.
    + now rewrite Hout2.
    + now left.
    + discriminate.
  - exists t1. split; [|repeat split; auto].
    now rewrite (bind_ret_run _ _ _ _ _ Hstep1).
Qed.

(** The swap throws after the project root has been replaced by the
    residue of the failed copy; nothing else has moved. *)
Let swap_throws hasMedia :
  exists t3,
    importSwap h true hasMedia sourceProjectsDir sourceMediaDir
               projectsDir mediaDir backupDir w0
    = (Throw err, with_fs w0 t3)
    /\ blocked t3 P = false
    /\ lookup t3 Mr = Some (Dir ms)
    /\ lookup t3 Bp = Some (touch (now w0) (Dir es))
    /\ (lookup t3 Bm = Some (touch (now w0) (Dir ms)) \/ lookup t3 Bm = None)
    /\ (hasMedia = false -> lookup t3 Bm = None).
Proof.
  destruct (after_backups hasMedia)
    as (t2 & E2 & H2P & H2M & H2Bp & H2Bm & H2no).
  destruct (replaceRoot_fault h sourceProjectsDir projectsDir (with_fs w0 t2)
              (Dir es) residue err)
    as (t3 & E3 & Hout3 & Hb3);
    [ exact H2P | exact (proj1 (incomparable_nonroot _ _ P_M))
    | exact copy_throws | ].
  fold P in Hout3, Hb3. cbn [fs with_fs] in Hout3.
  exists t3. split; [|repeat split].
  - unfold importSwap. fold backupProjectsDir backupMediaDir.
    rewrite (bind_two_run _ _ _ _ _ E2).
    now rewrite (bind_throw_run _ _ _ _ _ E3).
  - exact Hb3.
  - rewrite Hout3; [assumption|exact P_M].
  - rewrite Hout3; [assumption|now apply incomparable_sym].
  - rewrite !Hout3 by now apply incomparable_sym. exact H2Bm.
  - intros Hno. rewrite Hout3 by now apply incomparable_sym. now apply H2no.
Qed.

(** The roll-back puts the snapshots back and removes the backup place. *)
Let rollback_restores t3 :
  blocked t3 P = false ->
  lookup t3 Mr = Some (Dir ms) ->
  lookup t3 Bp = Some (touch (now w0) (Dir es)) ->
  (lookup t3 Bm = Some (touch (now w0) (Dir ms)) \/ lookup t3 Bm = None) ->
  exists t6,
    importRollback h projectsDir mediaDir backupDir err (with_fs w0 t3)
    = (Throw err, with_fs w0 t6)
    /\ option_map erase (lookup t6 P) = Some (erase (Dir es))
    /\ option_map erase (lookup t6 Mr) = Some (erase (Dir ms))
    /\ lookup t6 B = None
    /\ (lookup t3 Bm = None -> lookup t6 Mr = Some (Dir ms)).
Proof.
  intros Hb3 H3M H3Bp H3Bm.
  destruct (restoreRoot_copy h backupProjectsDir projectsDir (with_fs w0 t3)
              (map (fun e => (fst e, touch (now w0) (snd e))) es))
    as (t4 & E4 & Hat4 & Hout4);
    [ exact H3Bp | now rewrite names_touch | exact Hb3
    | exact (incomparable_sym _ _ Bp_P) | exact restore_projects_ok | ].
  fold P in Hat4, Hout4. cbn [fs with_fs now] in Hat4, Hout4.
  assert (H4M : lookup t4 Mr = Some (Dir ms)) by now rewrite Hout4.
  assert (H4Bp : lookup t4 Bp = Some (touch (now w0) (Dir es)))
    by (rewrite Hout4; [assumption|now apply incomparable_sym]).
  assert (H4Bm : lookup t4 Bm = lookup t3 Bm)
    by (rewrite Hout4; [reflexivity|now apply incomparable_sym]).
  assert (HP4 : option_map erase (lookup t4 P) = Some (erase (Dir es))).
  { rewrite Hat4. cbn [option_map]. f_equal.
    change (Dir (map (fun e => (fst e, touch (now w0) (snd e))) es))
      with (touch (now w0) (Dir es)).
    now rewrite !erase_touch. }
  assert (Hmedia :
            exists t5,
              restoreRoot h backupMediaDir mediaDir (with_fs w0 t4)
              = (Ret tt, with_fs w0 t5)
              /\ option_map erase (lookup t5 P) = Some (erase (Dir es))
              /\ option_map erase (lookup t5 Mr) = Some (erase (Dir ms))
              /\ lookup t5 Bp = Some (touch (now w0) (Dir es))
              /\ (lookup t4 Bm = None -> lookup t5 Mr = Some (Dir ms))).
  { rewrite <- H4Bm in H3Bm. destruct H3Bm as [HBm|HBm].
    - destruct (restoreRoot_copy h backupMediaDir mediaDir (with_fs w0 t4)
                  (map (fun e => (fst e, touch (now w0) (snd e))) ms))
        as (t5 & E5 & Hat5 & Hout5);
        [ exact HBm | now rewrite names_touch
        | exact (lookupo_Some_not_blocked _ _ _ H4M)
        | exact (incomparable_sym _ _ Bm_M) | exact restore_media_ok | ].
      fold Mr in Hat5, Hout5. cbn [fs with_fs now] in Hat5, Hout5.
      exists t5. split; [exact E5|repeat split].
      + rewrite Hout5; [assumption|now apply incomparable_sym].
      + rewrite Hat5. cbn [option_map]. f_equal.
        change (Dir (map (fun e => (fst e, touch (now w0) (snd e))) ms))
          with (touch (now w0) (Dir ms)).
        now rewrite !erase_touch.
      + rewrite Hout5; [assumption|now apply incomparable_sym].
      + intros Hno. congruence.
    - exists t4. split; [now apply restoreRoot_skip|repeat split; trivial].
      now rewrite H4M. }
  destruct Hmedia as (t5 & E5 & H5P & H5M & H5Bp & H5no).
  assert (HB5 : blocked t5 B = false).
  { rewrite Bp_eq in H5Bp.
    destruct (lookup_snoc_dirAt t5 B "projects" _ H5Bp) as [bs Hbs].
    exact (lookupo_Some_not_blocked _ _ _ Hbs). }
  assert (HBne : B <> [])
    by (destruct (incomparable_nonroot _ _ backup_apart_projects); assumption).
  exists (alter (fun _ => None) B t5). split; [|repeat split].
  - unfold importRollback. cbv zeta.
    rewrite (bind_ret_run _ _ _ _ _ E4), (bind_ret_run _ _ _ _ _ E5).
    rewrite (bind_ret_run _ _ _ tt
               (with_fs w0 (alter (fun _ => None) B t5)));
      [reflexivity|].
    now rewrite swallow_rm.
  - rewrite lookup_alter_frame; assumption.
  - rewrite lookup_alter_frame; assumption.
  - now apply lookup_removed.
  - intros Hno. rewrite lookup_alter_frame by assumption.
    apply H5no. now rewrite H4Bm.
Qed.

(** C1 (amended).  The live project root holds something, and the copies
    to and from the backup directory go through.  When the copy of the
    source's [projects/] into the live project root throws, after the
    snapshot was taken and the project root removed and before the media
    root is replaced, the import answers with a failure result that carries
    the error of that copy; the project root again holds the names and
    bytes it held before the import, put back from the snapshot, and so
    does the media root; the backup directory is gone and the Config Store
    is unchanged.  When the source brings no [media/], the media root is
    the very same tree, time stamps included. *)
Theorem import_copy_failure_rolls_back :
  let w' := snd (storage_import_data h sourcePath w0) in
  fst (storage_import_data h sourcePath w0) = Ret (failure err)
  /\ option_map erase (at_ w' projectsDir) = Some (erase (Dir es))
  /\ option_map erase (at_ w' mediaDir) = Some (erase (Dir ms))
  /\ (at_ w0 sourceMediaDir = None -> at_ w' mediaDir = at_ w0 mediaDir)
  /\ at_ w' backupDir = None
  /\ sameConfig w0 w'.
Proof.
  set (hasMedia := match at_ w0 sourceMediaDir with
                   | Some _ => true
                   | None => false
                   end).
  destruct (swap_throws hasMedia)
    as (t3 & E3 & Hb3 & H3M & H3Bp & H3Bm & H3no).
  destruct (rollback_restores t3 Hb3 H3M H3Bp H3Bm)
    as (t6 & E6 & H6P & H6M & H6B & H6no).
  assert (Hrun : storage_import_data h sourcePath w0
                 = (Ret (failure err), with_fs w0 t6)).
  { destruct (at_ w0 sourceProjectsDir) as [n|] eqn:Esrc; [|congruence].
    rewrite (import_with_projects h sourcePath w0 n (Dir es) (Dir ms)
               path_given Esrc live_projects live_media).
    assert (Hin : tryCatch
                    (importSwap h true hasMedia sourceProjectsDir
                                sourceMediaDir projectsDir mediaDir backupDir)
                    (importRollback h projectsDir mediaDir backupDir) w0
                  = (Throw err, with_fs w0 t6))
      by (rewrite (tryCatch_throw_run _ _ _ _ _ E3); exact E6).
    exact (tryCatch_throw_run _ (fun error => ret (failure error)) w0 err
                              (with_fs w0 t6) Hin). }
  rewrite Hrun. cbn [fst snd]. unfold at_ in *. cbn [fs with_fs].
  repeat split; try assumption.
  intros Hno. rewrite live_media. apply H6no, H3no.
  subst hasMedia. now rewrite Hno.
Qed.

End ImportRollback.

(** C1 as stated fails in three places.  With nothing in the live project
    root no snapshot of it is taken, so the roll-back puts nothing back and
    what the failed copy left stays in the project root.  With something in
    both roots the roll-back rewrites them from the snapshots: the media
    root gets its names and bytes back, under new modification times.  And
    when the copy back from the media snapshot throws as well, that failure
    is dropped and the media root, removed for the restoration, is left
    empty. *)
Lemma import_copy_failure_counterexample :
  (let w := Sample.emptyRootWorld in
   let w' := snd (storage_import_data Sample.host "/src3" w) in
   cpFault w "/src3/projects" "/data/base/projects" <> None
   /\ Tree.lookup (fs w) ["data"; "base"; "projects"] = Some (Tree.Dir [])
   /\ fst (storage_import_data Sample.host "/src3" w)
      = Ret (failure "Error: EIO: i/o error, cp")
   /\ Tree.lookup (fs w') ["data"; "base"; "projects"]
      = Some (Tree.Dir [ ("z.json", Tree.File 7 "") ]))
  /\ (let w := Sample.faultyWorld "/src3/projects" in
      let w' := snd (storage_import_data Sample.host "/src3" w) in
      fst (storage_import_data Sample.host "/src3" w)
      = Ret (failure "Error: EIO: i/o error, cp")
      /\ Tree.lookup (fs w) ["data"; "base"; "media"]
         = Some (Tree.Dir [ ("m.png", Tree.File 2 "MM") ])
      /\ Tree.lookup (fs w') ["data"; "base"; "media"]
         = Some (Tree.Dir [ ("m.png", Tree.File 7 "MM") ]))
  /\ (let w := Sample.twiceFaultyWorld "/src3/projects"
                                       "/tmp/moyin-backup-7/media" in
      let w' := snd (storage_import_data Sample.host "/src3" w) in
      fst (storage_import_data Sample.host "/src3" w)
      = Ret (failure "Error: EIO: i/o error, cp")
      /\ Tree.lookup (fs w) ["data"; "base"; "media"]
         = Some (Tree.Dir [ ("m.png", Tree.File 2 "MM") ])
      /\ Tree.lookup (fs w') ["data"; "base"; "media"] = Some (Tree.Dir [])).
Proof.
  split; [|split].
  - split; [discriminate|]. vm_compute. repeat split.
  - vm_compute. repeat split.
  - vm_compute. repeat split.
Qed.

(** The sample import of [/src3] whose copy of [projects/] throws: both
    roots are back to their bytes, the backup directory is gone. *)
Lemma import_copy_failure_rolls_back_witness :
  let w := Sample.faultyWorld "/src3/projects" in
  let w' := snd (storage_import_data Sample.host "/src3" w) in
  fst (storage_import_data Sample.host "/src3" w)
  = Ret (failure "Error: EIO: i/o error, cp")
  /\ option_map Tree.erase (Tree.lookup (fs w') ["data"; "base"; "projects"])
     = option_map Tree.erase (Tree.lookup (fs w) ["data"; "base"; "projects"])
  /\ option_map Tree.erase (Tree.lookup (fs w') ["data"; "base"; "media"])
     = option_map Tree.erase (Tree.lookup (fs w) ["data"; "base"; "media"])
  /\ Tree.lookup (fs w') ["tmp"; "moyin-backup-7"] = None.
Proof.
  intros w w'.
  assert (Hp : NoDup (Tree.names [ ("a.json", Tree.File 1 "A");
                                   ("_p", Tree.Dir [ ("_migrated.json",
                                                      Tree.File 1 "x");
                                                     ("p1", Tree.Dir []) ]) ])).
  { repeat constructor; simpl; intuition discriminate. }
  assert (Hm : NoDup (Tree.names [ ("m.png", Tree.File 2 "MM") ])).
  { repeat constructor; simpl; intuition. }
  destruct (import_copy_failure_rolls_back
              Sample.host w "/src3" _ _
              (Some (Tree.Dir [ ("z.json", Tree.File 7 "") ]))
              "Error: EIO: i/o error, cp"
              ltac:(repeat split) ltac:(discriminate) ltac:(discriminate)
              eq_refl ltac:(discriminate) Hp eq_refl Hm eq_refl eq_refl
              ltac:(split; reflexivity) ltac:(split; reflexivity)
              eq_refl eq_refl eq_refl eq_refl eq_refl)
    as (Hr & HP & HM & _ & HB & _).
  repeat split; assumption.
Defined.

(* ================================================================== *)
(** * Further properties of the path helpers *)
(* ================================================================== *)

Module ResolveFacts.
Import JsString Path PathFacts SegmentFacts.
Local Open Scope list_scope.

(** [path.resolve] writes out the segments the path denotes. *)
Lemma resolve_segments h p :
  isAbsolute (cwd h) = true ->
  resolve (cwd h) p = ("/" ++ unsplit (segments h p))%string.
Proof.
  intros Hc. unfold resolve, segments, normalizeString.
  destruct p as [|c p].
  - rewrite Hc. cbn [isAbsolute]. rewrite split_app_sep, normalizeSegs_app.
    simpl. now rewrite rev_involutive.
  - destruct (isAbsolute (String c p)) eqn:E; rewrite ?E; [reflexivity|].
    assert (Hf : isAbsolute (cwd h ++ "/" ++ String c p) = true)
      by (destruct (cwd h); [discriminate|exact Hc]).
    now rewrite Hf.
Qed.

Lemma segments_plain h p : forallb plainName (segments h p) = true.
Proof.
  unfold segments. apply normalizeSegs_plain;
    [reflexivity|apply split_all_sepFree].
Qed.

Lemma sepFree_lower x : sepFree (toLowerCase x) = sepFree x.
Proof.
  induction x as [|c x IH]; [reflexivity|]. simpl.
  now rewrite is_sep_lower, IH.
Qed.

Lemma plainName_lower x : plainName (toLowerCase x) = plainName x.
Proof.
  unfold plainName.
  now rewrite eqb_lower_empty, eqb_lower_dot, eqb_lower_dotdot, sepFree_lower.
Qed.

Lemma forallb_plain_lower xs :
  forallb plainName (map toLowerCase xs) = forallb plainName xs.
Proof.
  induction xs as [|x xs IH]; [reflexivity|]. simpl.
  now rewrite plainName_lower, IH.
Qed.

(** The rendering with a closing separator, for a path that is not the
    root. *)
Lemma render_trail xs :
  xs <> [] -> (("/" ++ unsplit xs) ++ "/")%string = ("/" ++ trail xs)%string.
Proof.
  intros Hne. induction xs as [|x xs IH]; [congruence|].
  destruct xs as [|y xs]; [reflexivity|].
  change (unsplit (x :: y :: xs)) with (x ++ "/" ++ unsplit (y :: xs))%string.
  specialize (IH ltac:(discriminate)).
  change (trail (x :: y :: xs)) with (x ++ "/" ++ trail (y :: xs))%string.
  rewrite <- IH. simpl. f_equal. now rewrite !append_assoc.
Qed.

Lemma prefix_cons c a d b :
  String.prefix (String c a) (String d b)
  = (Ascii.eqb c d && String.prefix a b)%bool.
Proof.
  change (String.prefix (String c a) (String d b))
    with (if ascii_dec c d then String.prefix a b else false).
  destruct (ascii_dec c d) as [->|H].
  - now rewrite Ascii.eqb_refl.
  - apply Ascii.eqb_neq in H. now rewrite H.
Qed.

Lemma not_sep_eqb c : negb (is_sep c) = true -> Ascii.eqb "/" c = false.
Proof.
  unfold is_sep. rewrite Ascii.eqb_sym. now destruct (Ascii.eqb "/" c).
Qed.

(** One segment of a prefix test: the segments are compared whole. *)
Lemma prefix_segment x y a b :
  sepFree x = true -> sepFree y = true ->
  String.prefix (x ++ "/" ++ a) (y ++ "/" ++ b)
  = (String.eqb x y && String.prefix a b)%bool.
Proof.
  revert y. induction x as [|c x IH]; intros y Hx Hy.
  - destruct y as [|d y].
    + change (String.prefix ("" ++ "/" ++ a) ("" ++ "/" ++ b))
        with (String.prefix (String "/" a) (String "/" b)).
      now rewrite prefix_cons.
    + simpl in Hy. apply andb_true_iff in Hy as [Hd _].
      change (String.prefix ("" ++ "/" ++ a) (String d y ++ "/" ++ b))
        with (String.prefix (String "/" a) (String d (y ++ "/" ++ b))).
      now rewrite prefix_cons, not_sep_eqb.
  - simpl in Hx. apply andb_true_iff in Hx as [Hc Hx].
    destruct y as [|d y].
    + change (String.prefix (String c x ++ "/" ++ a) ("" ++ "/" ++ b))
        with (String.prefix (String c (x ++ "/" ++ a)) (String "/" b)).
      rewrite prefix_cons, Ascii.eqb_sym. now rewrite not_sep_eqb.
    + simpl in Hy. apply andb_true_iff in Hy as [_ Hy].
      change (String.prefix (String c x ++ "/" ++ a) (String d y ++ "/" ++ b))
        with (String.prefix (String c (x ++ "/" ++ a))
                            (String d (y ++ "/" ++ b))).
      rewrite prefix_cons, IH by assumption.
      change (String.eqb (String c x) (String d y))
        with (Ascii.eqb c d && String.eqb x y)%bool.
      now rewrite andb_assoc.
Qed.

Lemma prefix_trail P C :
  forallb plainName P = true -> forallb plainName C = true ->
  String.prefix (trail P) (trail C) = Tree.prefixb P C.
Proof.
  revert C. induction P as [|x P IH]; intros C HP HC;
    [now destruct (trail C)|].
  simpl in HP. apply andb_true_iff in HP as [Hx HP].
  destruct C as [|y C].
  - cbn [trail Tree.prefixb].
    pose proof (plainName_nonempty x Hx) as Hne.
    destruct x; [congruence|reflexivity].
  - simpl in HC. apply andb_true_iff in HC as [Hy HC].
    cbn [trail Tree.prefixb].
    rewrite prefix_segment by now apply plainName_sepFree.
    now rewrite IH.
Qed.

Lemma plain_head x :
  plainName x = true ->
  exists c x', x = String c x' /\ Ascii.eqb "/" c = false.
Proof.
  intros Hx. pose proof (plainName_nonempty x Hx) as Hn.
  apply plainName_sepFree in Hx. destruct x as [|c x]; [congruence|].
  simpl in Hx. apply andb_true_iff in Hx as [Hc _].
  exists c, x. split; [reflexivity|now apply not_sep_eqb].
Qed.

(** A rendered path that is not the root does not start with two
    separators. *)
Lemma prefix_root_trail C :
  forallb plainName C = true -> C <> [] ->
  String.prefix "//" ("/" ++ trail C) = false.
Proof.
  intros HC Hne. destruct C as [|y C]; [congruence|].
  simpl in HC. apply andb_true_iff in HC as [Hy _].
  destruct (plain_head y Hy) as (d & y' & -> & Hd).
  change (String.prefix "//" ("/" ++ trail (String d y' :: C)))
    with (String.prefix (String "/" "/")
                        (String "/" (String d (y' ++ "/" ++ trail C)))).
  now rewrite !prefix_cons, Hd.
Qed.

Lemma lower_resolve_sep h p :
  isAbsolute (cwd h) = true ->
  (toLowerCase (resolve (cwd h) p) ++ sep)%string
  = match segments h p with
    | [] => "//"
    | _ => ("/" ++ trail (map toLowerCase (segments h p)))%string
    end.
Proof.
  intros Hc. rewrite resolve_segments by assumption.
  rewrite (toLowerCase_app "/"), unsplit_lower.
  change (toLowerCase "/") with "/". unfold sep.
  destruct (segments h p) as [|x xs] eqn:E; [reflexivity|].
  apply render_trail. discriminate.
Qed.

(** A rendered path that is not the root is not a prefix of the doubled
    separator. *)
Lemma prefix_trail_root P :
  forallb plainName P = true -> P <> [] ->
  String.prefix ("/" ++ trail P) "//" = false.
Proof.
  intros HP Hne. destruct P as [|x P]; [congruence|].
  simpl in HP. apply andb_true_iff in HP as [Hx _].
  destruct (plain_head x Hx) as (c & x' & -> & Hc).
  change (String.prefix ("/" ++ trail (String c x' :: P)) "//")
    with (String.prefix (String "/" (String c (x' ++ "/" ++ trail P)))
                        (String "/" "/")).
  now rewrite !prefix_cons, (Ascii.eqb_sym c), Hc.
Qed.

End ResolveFacts.

Module ConflictFacts.
Import JsString Path PathFacts SegmentFacts ResolveFacts.
Local Open Scope list_scope.

Lemma prefix_antisym a b :
  String.prefix a b = true -> String.prefix b a = true -> a = b.
Proof.
  revert b. induction a as [|c a IH]; intros [|d b] H1 H2;
    try reflexivity; try discriminate.
  rewrite prefix_cons in H1, H2.
  apply andb_true_iff in H1 as [E H1]. apply andb_true_iff in H2 as [_ H2].
  apply Ascii.eqb_eq in E. subst d. f_equal. now apply IH.
Qed.

Lemma append_sep_inj (a b : string) :
  (a ++ sep)%string = (b ++ sep)%string -> a = b.
Proof.
  intros E. apply (f_equal list_ascii_of_string) in E.
  rewrite !list_ascii_app in E. apply app_inj_tail in E as [E _].
  apply (f_equal string_of_list_ascii) in E.
  now rewrite !string_of_list_ascii_of_string in E.
Qed.

(** Two different resolved paths are never below one another both ways. *)
Lemma isSubdirectory_one_way h a b :
  String.eqb (toLowerCase (resolve (cwd h) a))
             (toLowerCase (resolve (cwd h) b)) = false ->
  isSubdirectory h a b = true -> isSubdirectory h b a = false.
Proof.
  intros Hne Hab. destruct (isSubdirectory h b a) eqn:Hba; [|reflexivity].
  unfold isSubdirectory, startsWith in Hab, Hba.
  apply String.eqb_neq in Hne. exfalso. apply Hne.
  apply append_sep_inj. now apply prefix_antisym.
Qed.

Lemma messages_differ : DEST_IN_SOURCE <> SOURCE_IN_DEST.
Proof. discriminate. Qed.

Lemma segments_root_resolve h p :
  isAbsolute (cwd h) = true ->
  segments h p = [] -> resolve (cwd h) p = "/".
Proof. intros Hc E. now rewrite resolve_segments, E. Qed.

Lemma resolve_root_segments h p :
  isAbsolute (cwd h) = true ->
  toLowerCase (resolve (cwd h) p) = "/" -> segments h p = [].
Proof.
  intros Hc E. rewrite resolve_segments in E by assumption.
  pose proof (segments_plain h p) as Hp.
  destruct (segments h p) as [|x xs]; [reflexivity|].
  simpl in Hp. apply andb_true_iff in Hp as [Hx _].
  destruct (plain_head x Hx) as (c & x' & -> & _).
  destruct xs; discriminate.
Qed.

End ConflictFacts.

(** X1.  For paths written in ASCII characters, the working directory
    included, [isSubdirectory] compares the two paths segment by segment,
    the case of the letters [A] to [Z] apart: below a parent that is not
    the file-system root it holds exactly of the parent and of the paths
    under it; with the root as parent it holds of the root alone. *)
Theorem isSubdirectory_compares_segments
        (h : Host) (parentPath childPath : string) :
  Path.isAbsolute (cwd h) = true ->
  isAscii (cwd h) = true ->
  isAscii parentPath = true -> isAscii childPath = true ->
  isSubdirectory h parentPath childPath
  = match segments h parentPath with
    | [] => match segments h childPath with [] => true | _ => false end
    | _ =>
        Tree.prefixb (map JsString.toLowerCase (segments h parentPath))
                     (map JsString.toLowerCase (segments h childPath))
    end.
Proof.
  intros Hc _ _ _. unfold isSubdirectory, JsString.startsWith.
  rewrite !ResolveFacts.lower_resolve_sep by assumption.
  pose proof (ResolveFacts.segments_plain h parentPath) as HP.
  pose proof (ResolveFacts.segments_plain h childPath) as HC.
  rewrite <- ResolveFacts.forallb_plain_lower in HP, HC.
  destruct (segments h parentPath) as [|x P];
    destruct (segments h childPath) as [|y C].
  - reflexivity.
  - apply ResolveFacts.prefix_root_trail; [assumption|discriminate].
  - apply ResolveFacts.prefix_trail_root; [assumption|discriminate].
  - change (String.prefix ("/" ++ ?a) ("/" ++ ?b))
      with (String.prefix (String "/" a) (String "/" b)).
    rewrite ResolveFacts.prefix_cons. now apply ResolveFacts.prefix_trail.
Qed.

Lemma isSubdirectory_compares_segments_witness :
  Path.isAbsolute (cwd Sample.host) = true
  /\ isAscii (cwd Sample.host) = true
  /\ isAscii "sub/../../DATA/Base/x" = true
  /\ isSubdirectory Sample.host "/data/base" "sub/../../DATA/Base/x" = true
  /\ isSubdirectory Sample.host "/data/base" "/data/basement" = false
  /\ isSubdirectory Sample.host "/" "/data" = false.
Proof.
  split; [reflexivity|]. split; [reflexivity|]. split; [reflexivity|].
  split; [|split];
    rewrite (isSubdirectory_compares_segments Sample.host) by reflexivity;
    reflexivity.
Defined.

(** X2.  [pathsConflict] is the same verdict seen from either side: it
    reports the destination to lie inside the source exactly when, with the
    arguments exchanged, it reports the source to lie inside the
    destination, and it reports no conflict one way exactly when it reports
    none the other way. *)
Theorem pathsConflict_exchange (h : Host) (source dest : string) :
  (pathsConflict h source dest = Some DEST_IN_SOURCE
   <-> pathsConflict h dest source = Some SOURCE_IN_DEST)
  /\ (pathsConflict h source dest = None
      <-> pathsConflict h dest source = None).
Proof.
  unfold pathsConflict.
  rewrite (String.eqb_sym (JsString.toLowerCase (Path.resolve (cwd h) dest))).
  destruct (String.eqb _ _) eqn:Hne; [split; split; congruence|].
  pose proof ConflictFacts.messages_differ as Hm.
  destruct (isSubdirectory h source dest) eqn:Hsd.
  - rewrite (ConflictFacts.isSubdirectory_one_way h source dest Hne Hsd).
    split; split; congruence.
  - destruct (isSubdirectory h dest source); split; split; congruence.
Qed.

(** X3.  Against the file-system root [pathsConflict] never reports a
    conflict, whichever side the root stands on and whatever the other path
    is. *)
Theorem pathsConflict_blind_at_root (h : Host) (root other : string) :
  Path.isAbsolute (cwd h) = true -> segments h root = [] ->
  pathsConflict h root other = None /\ pathsConflict h other root = None.
Proof.
  intros Hc Hr. unfold pathsConflict.
  rewrite (String.eqb_sym (JsString.toLowerCase (Path.resolve (cwd h) other))).
  destruct (String.eqb _ _) eqn:Hne; [now split|].
  assert (Ho : segments h other <> []).
  { intros Ho. apply String.eqb_neq in Hne. apply Hne.
    now rewrite !ConflictFacts.segments_root_resolve. }
  pose proof (ResolveFacts.segments_plain h other) as Hp.
  rewrite <- ResolveFacts.forallb_plain_lower in Hp.
  unfold isSubdirectory, JsString.startsWith.
  rewrite !ResolveFacts.lower_resolve_sep, Hr by assumption.
  destruct (segments h other) as [|x xs]; [congruence|].
  rewrite ResolveFacts.prefix_root_trail, ResolveFacts.prefix_trail_root
    by (assumption || discriminate).
  now split.
Qed.

Lemma pathsConflict_blind_at_root_witness :
  pathsConflict Sample.host "/" "/data/base" = None
  /\ pathsConflict Sample.host "/data/base" "/" = None.
Proof.
  apply (pathsConflict_blind_at_root Sample.host "/" "/data/base");
    reflexivity.
Defined.

(** X4.  [normalizePath] gives an absolute path that names the same place
    as its argument, and normalising once more changes nothing. *)
Theorem normalizePath_absolute_and_stable (h : Host) (inputPath : string) :
  Path.isAbsolute (cwd h) = true ->
  Path.isAbsolute (normalizePath h inputPath) = true
  /\ segments h (normalizePath h inputPath) = segments h inputPath
  /\ normalizePath h (normalizePath h inputPath) = normalizePath h inputPath.
Proof.
  intros Hc.
  pose proof (SegmentFacts.normalizePath_isAbsolute h inputPath Hc) as Ha.
  split; [exact Ha|split].
  - unfold normalizePath in *.
    destruct (Path.isAbsolute inputPath) eqn:E; [reflexivity|].
    rewrite SegmentFacts.segments_abs by exact Ha.
    rewrite ResolveFacts.resolve_segments by assumption.
    apply SegmentFacts.absSegs_render, ResolveFacts.segments_plain.
  - unfold normalizePath at 1. now rewrite Ha.
Qed.

Lemma normalizePath_absolute_and_stable_witness :
  normalizePath Sample.host "a/../b/" = "/work/b"
  /\ segments Sample.host (normalizePath Sample.host "a/../b/")
     = segments Sample.host "a/../b/".
Proof.
  split; [reflexivity|].
  apply (normalizePath_absolute_and_stable Sample.host "a/../b/" eq_refl).
Defined.

(* ================================================================== *)
(** * Linking and repointing *)
(* ================================================================== *)

Module LinkFacts.
Import JsString Path.

(** The base path resolved from a configuration that has just been
    repointed. *)
Lemma base_of_repoint h c target :
  isAbsolute target = true -> trim target = target ->
  getStorageBasePath h (spread c (repoint target)) = target.
Proof.
  intros Ha Ht. unfold getStorageBasePath, spread, repoint, orElse, trimmed.
  cbn [basePath]. rewrite Ht.
  destruct target as [|ch target]; [discriminate|].
  cbn [truthy]. unfold normalizePath. now rewrite Ha.
Qed.

Lemma moveCommit_config h target roots w :
  storageConfig (snd (moveCommit h target roots w))
  = spread (storageConfig w) (repoint target).
Proof.
  destruct roots as [p m]. unfold moveCommit, bind, mergeStorageConfig,
    saveStorageConfig, modify, when, swallow, tryCatch, removeDir, rm, ret.
  simpl.
  repeat match goal with
         | |- context [if ?c then _ else _] => destruct c; simpl
         end; reflexivity.
Qed.

End LinkFacts.

(** X5.  [storage-link-data] always answers with a result and changes no
    file or directory other than the stored configuration.  A failure
    leaves the whole state as it was; a success carries the normalised
    directory, makes it the configured base path with the legacy paths
    cleared, and keeps the auto-clean settings. *)
Theorem link_data_only_repoints (h : Host) (dirPath : string) (w : World) :
  exists r,
    fst (storage_link_data h dirPath w) = Ret r
    /\ fs (snd (storage_link_data h dirPath w)) = fs w
    /\ (success r = false -> snd (storage_link_data h dirPath w) = w)
    /\ (success r = true ->
        path r = Some (normalizePath h dirPath)
        /\ storageConfig (snd (storage_link_data h dirPath w))
           = {| basePath := Some (normalizePath h dirPath);
                projectPath := Some ""; mediaPath := Some "";
                autoCleanEnabled := autoCleanEnabled (storageConfig w);
                autoCleanDays := autoCleanDays (storageConfig w) |}).
Proof.
  unfold storage_link_data, tryCatch, bind, existsSync, gets, ret,
    mergeStorageConfig, saveStorageConfig, modify.
  destruct (negb (JsString.truthy dirPath));
    [eexists; repeat split; try reflexivity; discriminate|].
  cbn beta iota.
  destruct (Tree.lookup (fs w) (segments h (normalizePath h dirPath)));
    cbn [negb];
    [|eexists; repeat split; try reflexivity; discriminate].
  destruct (Tree.lookup (fs w) (segments h (Path.join _ "projects")));
    destruct (Tree.lookup (fs w) (segments h (Path.join _ "media")));
    cbn [negb andb];
    eexists; repeat split; try reflexivity; discriminate.
Qed.

(** X6.  After a successful [storage-link-data] the base path resolved by
    [getStorageBasePath] is the linked directory, provided its name has no
    white space at either end (the resolution trims the configured
    value). *)
Theorem link_data_then_base_path (h : Host) (dirPath : string) (w : World) :
  Path.isAbsolute (cwd h) = true ->
  JsString.trim (normalizePath h dirPath) = normalizePath h dirPath ->
  forall r,
    fst (storage_link_data h dirPath w) = Ret r -> success r = true ->
    getStorageBasePath h (storageConfig (snd (storage_link_data h dirPath w)))
    = normalizePath h dirPath.
Proof.
  intros Hc Ht r Hr Hs.
  pose proof (SegmentFacts.normalizePath_isAbsolute h dirPath Hc) as Ha.
  revert Hr. unfold storage_link_data, tryCatch, bind, existsSync, gets, ret,
    mergeStorageConfig, saveStorageConfig, modify.
  destruct (negb (JsString.truthy dirPath));
    [intros [= <-]; discriminate|].
  cbn beta iota.
  destruct (Tree.lookup (fs w) (segments h (normalizePath h dirPath)));
    cbn [negb]; [|intros [= <-]; discriminate].
  destruct (Tree.lookup (fs w) (segments h (Path.join _ "projects")));
    destruct (Tree.lookup (fs w) (segments h (Path.join _ "media")));
    cbn [negb andb]; intros [= <-]; try discriminate;
    cbn [snd storageConfig with_config with_configFile];
    now apply LinkFacts.base_of_repoint.
Qed.

Lemma link_data_then_base_path_witness :
  exists r,
    fst (storage_link_data Sample.host "/src3" Sample.world) = Ret r
    /\ success r = true
    /\ getStorageBasePath Sample.host
         (storageConfig (snd (storage_link_data Sample.host "/src3"
                                                Sample.world)))
       = "/src3".
Proof.
  eexists. split; [reflexivity|]. split; [reflexivity|].
  exact (link_data_then_base_path Sample.host "/src3" Sample.world
           eq_refl eq_refl _ eq_refl eq_refl).
Defined.

(** X7.  Whenever [storage-move-data] reports success, the result carries
    the normalised target and the base path resolved afterwards is that
    target, provided its name has no white space at either end. *)
Theorem move_data_then_base_path (h : Host) (newPath : string) (w : World) :
  Path.isAbsolute (cwd h) = true ->
  JsString.trim (normalizePath h newPath) = normalizePath h newPath ->
  forall r,
    fst (storage_move_data h newPath w) = Ret r -> success r = true ->
    path r = Some (normalizePath h newPath)
    /\ getStorageBasePath h
         (storageConfig (snd (storage_move_data h newPath w)))
       = normalizePath h newPath.
Proof.
  intros Hc Ht r Hr Hs.
  pose proof (SegmentFacts.normalizePath_isAbsolute h newPath Hc) as Ha.
  revert Hr. unfold storage_move_data, tryCatch.
  destruct (negb (JsString.truthy newPath));
    [intros [= <-]; discriminate|].
  rewrite RunFacts.bind_gets. cbv zeta.
  destruct (String.eqb_spec (getStorageBasePath h (storageConfig w))
                            (normalizePath h newPath)) as [E|_].
  - intros [= <-]. cbn [snd path succeeded ret]. now rewrite E.
  - destruct (pathsConflict h _ _); [intros [= <-]; discriminate|].
    unfold moveData, bind.
    pose proof (keepsConfig_moveCopy h (normalizePath h newPath) w)
      as [Hk _].
    destruct (moveCopy h (normalizePath h newPath) w) as [[roots|e] w1];
      [|intros [= <-]; discriminate].
    cbn [snd] in Hk.
    pose proof (moveCommit_succeeds h (normalizePath h newPath) roots w1)
      as Hok.
    pose proof (LinkFacts.moveCommit_config h (normalizePath h newPath)
                                            roots w1) as Hcf.
    destruct (moveCommit h (normalizePath h newPath) roots w1) as [o w2].
    cbn [fst snd] in *. subst o. intros [= <-]. split; [reflexivity|].
    cbn [snd]. rewrite Hcf. now apply LinkFacts.base_of_repoint.
Qed.

Lemma move_data_then_base_path_witness :
  exists r,
    fst (storage_move_data Sample.host "/elsewhere" Sample.world) = Ret r
    /\ success r = true
    /\ path r = Some "/elsewhere"
    /\ getStorageBasePath Sample.host
         (storageConfig (snd (storage_move_data Sample.host "/elsewhere"
                                                Sample.world)))
       = "/elsewhere".
Proof.
  eexists. split; [reflexivity|]. split; [reflexivity|].
  exact (move_data_then_base_path Sample.host "/elsewhere" Sample.world
           eq_refl eq_refl _ eq_refl eq_refl).
Defined.

Module ValidateFacts.

Lemma countProjects_missing h projectsDir w :
  Tree.lookup (fs w) (segments h projectsDir) = None ->
  countProjects h projectsDir w = (Ret 0, w).
Proof.
  intros H. unfold countProjects, existsSync.
  now rewrite RunFacts.bind_gets, H.
Qed.

Lemma countMedia_missing h mediaDir w :
  Tree.lookup (fs w) (segments h mediaDir) = None ->
  countMedia h mediaDir w = (Ret 0, w).
Proof.
  intros H. unfold countMedia, existsSync.
  now rewrite RunFacts.bind_gets, H.
Qed.

(** A directory with neither [projects/] nor [media/] does not validate. *)
Lemma validate_without_data h dirPath w :
  Tree.lookup (fs w)
    (segments h (Path.join (normalizePath h dirPath) "projects")) = None ->
  Tree.lookup (fs w)
    (segments h (Path.join (normalizePath h dirPath) "media")) = None ->
  exists v, fst (validateDataDirInternal h dirPath w) = Ret v
            /\ valid v = false.
Proof.
  intros Hp Hm. unfold validateDataDirInternal, tryCatch.
  destruct (negb (JsString.truthy dirPath)); [now eexists|].
  unfold existsSync at 1. rewrite RunFacts.bind_gets.
  destruct (Tree.lookup (fs w) (segments h (normalizePath h dirPath)));
    cbn [negb]; [|now eexists].
  unfold bind at 1. rewrite countProjects_missing by assumption.
  unfold bind at 1. rewrite countMedia_missing by assumption.
  now eexists.
Qed.

End ValidateFacts.

(** X8.  A directory that [storage-validate-data-dir] accepts can be
    linked: on the same state [storage-link-data] answers with success for
    it. *)
Theorem valid_dir_can_be_linked (h : Host) (dirPath : string) (w : World) :
  forall v,
    fst (validateDataDirInternal h dirPath w) = Ret v -> valid v = true ->
    exists r,
      fst (storage_link_data h dirPath w) = Ret r /\ success r = true.
Proof.
  intros v Hv Hvalid.
  unfold storage_link_data, tryCatch.
  destruct (negb (JsString.truthy dirPath)) eqn:Et.
  { revert Hv. unfold validateDataDirInternal, tryCatch. rewrite Et.
    intros [= <-]. discriminate. }
  unfold existsSync. rewrite !RunFacts.bind_gets.
  destruct (Tree.lookup (fs w) (segments h (normalizePath h dirPath))) eqn:E0;
    cbn [negb].
  2:{ revert Hv. unfold validateDataDirInternal, tryCatch, existsSync.
      rewrite Et, RunFacts.bind_gets, E0. intros [= <-]. discriminate. }
  rewrite !RunFacts.bind_gets.
  destruct (Tree.lookup (fs w)
              (segments h (Path.join (normalizePath h dirPath) "projects")))
    eqn:Ep;
    destruct (Tree.lookup (fs w)
                (segments h (Path.join (normalizePath h dirPath) "media")))
      eqn:Em;
    cbn [negb andb]; try (eexists; split; reflexivity).
  destruct (ValidateFacts.validate_without_data h dirPath w Ep Em)
    as (v' & Hv' & Hinv).
  congruence.
Qed.

Lemma valid_dir_can_be_linked_witness :
  exists v r,
    fst (validateDataDirInternal Sample.host "/src3" Sample.world) = Ret v
    /\ valid v = true
    /\ fst (storage_link_data Sample.host "/src3" Sample.world) = Ret r
    /\ success r = true.
Proof.
  destruct (valid_dir_can_be_linked Sample.host "/src3" Sample.world
              _ eq_refl eq_refl) as (r & Hr & Hs).
  eexists; exists r. repeat split; try reflexivity; assumption.
Defined.

(* ================================================================== *)
(** * The cache size and the cache clearing *)
(* ================================================================== *)

Module CacheSizeFacts.
Local Open Scope list_scope.

Lemma sizeEach_run h dirs w :
  sizeEach h dirs w
  = (Ret (map (fun d => (d, measured (Tree.lookup (fs w) (segments h d))))
              dirs), w).
Proof.
  induction dirs as [|d ds IH]; [reflexivity|].
  cbn [sizeEach map]. unfold bind at 1. unfold getDirectorySize at 1, gets.
  unfold bind at 1. rewrite IH. reflexivity.
Qed.

Lemma fold_left_sum (l : list (string * Z)) (acc : Z) :
  fold_left (fun sum item => sum + snd item) l acc = acc + sumZ (map snd l).
Proof.
  revert acc. induction l as [|x l IH]; intros acc; simpl; [lia|].
  rewrite IH. unfold sumZ. lia.
Qed.

Lemma get_cache_size_run h w :
  storage_get_cache_size h w
  = (Ret {| total :=
              sumZ (map (fun d => measured (Tree.lookup (fs w) (segments h d)))
                        (getCacheDirs h));
            details :=
              map (fun d => (d, measured (Tree.lookup (fs w) (segments h d))))
                  (getCacheDirs h) |}, w).
Proof.
  unfold storage_get_cache_size, bind. rewrite sizeEach_run.
  unfold ret. rewrite fold_left_sum, map_map. reflexivity.
Qed.

Lemma sumZ_zero {A} (f : A -> Z) (l : list A) :
  (forall x, In x l -> f x = 0) -> sumZ (map f l) = 0.
Proof.
  induction l as [|x l IH]; intros H; [reflexivity|].
  cbn [map sumZ fold_right]. rewrite (H x) by now left.
  fold (sumZ (map f l)). rewrite IH; [reflexivity|].
  intros y Hy. apply H. now right.
Qed.

End CacheSizeFacts.

(** X9.  [storage-get-cache-size] changes nothing and its total is the sum
    of the sizes it lists, one for each cache directory.  On the same
    state, [storage-clear-cache] without a threshold reports exactly that
    total as the bytes cleared, and the size taken right after it is
    zero.  The application-data directory is assumed to exist. *)
Theorem cache_size_is_what_clear_reports (h : Host) (w : World) :
  hostOk h -> dirAt (fs w) (segments h (userData h)) ->
  exists size w',
    storage_get_cache_size h w = (Ret size, w)
    /\ map fst (details size) = getCacheDirs h
    /\ total size = sumZ (map snd (details size))
    /\ storage_clear_cache h None w
       = (Ret {| success := true; path := None; error := None;
                 clearedBytes := Some (total size) |}, w')
    /\ exists size',
        storage_get_cache_size h w' = (Ret size', w')
        /\ total size' = 0.
Proof.
  intros Hh HU.
  destruct (sumOver_local h _ measured (fun _ => Some (Tree.Dir []))
              (fun v => dirAt (fs v) (segments h (userData h)))
              (fun dir => exists x,
                   segments h dir = (segments h (userData h) ++ [x])%list)
              (wholesale_step h (segments h (userData h)))
              (getCacheDirs h) (cacheDirs_children h Hh)
              (cacheDirs_apart h Hh) 0 w HU)
    as (w' & E & Hat & _ & _).
  eexists; exists w'.
  split; [apply CacheSizeFacts.get_cache_size_run|].
  cbn [total details]. split; [|split; [|split]].
  - rewrite map_map. cbn [fst]. apply map_id.
  - rewrite map_map. reflexivity.
  - assert (Ec : clearCache h None w
                 = (Ret (sumZ (map (fun d => measured
                                      (Tree.lookup (fs w) (segments h d)))
                                   (getCacheDirs h))), w')) by exact E.
    unfold storage_clear_cache, tryCatch, bind. now rewrite Ec.
  - eexists. split; [apply CacheSizeFacts.get_cache_size_run|].
    cbn [total]. apply CacheSizeFacts.sumZ_zero.
    intros d Hd. now rewrite Hat.
Qed.

Lemma cache_size_is_what_clear_reports_witness :
  exists size w',
    storage_get_cache_size Sample.host Sample.world = (Ret size, Sample.world)
    /\ total size = 10
    /\ storage_clear_cache Sample.host None Sample.world
       = (Ret {| success := true; path := None; error := None;
                 clearedBytes := Some 10 |}, w').
Proof.
  assert (Hh : hostOk Sample.host) by (repeat split).
  destruct (cache_size_is_what_clear_reports Sample.host Sample.world Hh)
    as (size & w' & E1 & _ & _ & E2 & _).
  - eexists. reflexivity.
  - exists size, w'. split; [exact E1|].
    assert (Ht : total size = 10).
    { pose proof (CacheSizeFacts.get_cache_size_run Sample.host Sample.world)
        as E. rewrite E1 in E. injection E as ->. reflexivity. }
    split; [exact Ht|]. now rewrite <- Ht.
Defined.

(* ================================================================== *)
(** * Pruning once more *)
(* ================================================================== *)

Module PruneAgain.
Import Tree PruneFacts.
Local Open Scope list_scope.

(** Writing back what already stands at a path changes nothing. *)
Lemma upd_same_value p : forall o n,
  lookupo o p = Some n -> upd (fun _ => Some n) p o = o.
Proof.
  induction p as [|x p IH]; intros o n H; simpl in *; [now symmetry|].
  destruct o as [[m d|es]|]; try discriminate.
  destruct (assoc x es) as [c|] eqn:E;
    [|rewrite TreeFacts.lookupo_None in H; discriminate].
  rewrite (IH _ _ H). cbn [set_entry]. now rewrite put_entry_same.
Qed.

Lemma alter_same_value p t n :
  lookup t p = Some n -> alter (fun _ => Some n) p t = t.
Proof. intros H. unfold alter. now rewrite upd_same_value. Qed.

(** What [pruneNode] leaves is left as it is by a second pruning. *)
Lemma pruneNode_again cutoff n :
  forall cl n', pruneNode cutoff n = (cl, n') -> pruneNode cutoff n' = (0, n').
Proof.
  induction n as [m d|es IH] using node_induction; intros cl n' E.
  - injection E as <- <-. reflexivity.
  - revert cl n' E. induction IH as [|[x c] es Hc _ IHes]; intros cl n' E.
    + rewrite pruneNode_nil in E. now injection E as <- <-.
    + simpl in Hc. destruct (pruneNode_Dir cutoff es) as (rest & es' & Ees).
      specialize (IHes rest (Dir es') Ees).
      rewrite (pruneNode_cons cutoff x c es rest es' Ees) in E.
      injection E as <- <-.
      destruct (snd (pruneEntry cutoff c)) as [c'|] eqn:Es; [|exact IHes].
      rewrite (pruneNode_cons cutoff x c' es' 0 es' IHes).
      assert (Hk : pruneEntry cutoff c' = (0, Some c')).
      { destruct c as [m d|cs]; cbn [pruneEntry] in Es.
        - destruct (Z.ltb_spec m cutoff); cbn [snd] in Es; [discriminate|].
          injection Es as <-. cbn [pruneEntry].
          destruct (Z.ltb_spec m cutoff); [lia|reflexivity].
        - destruct (pruneNode_Dir cutoff cs) as (cl1 & cs' & Ecs).
          rewrite Ecs in Es. specialize (Hc _ _ Ecs).
          destruct cs' as [|e cs']; cbn [snd] in Es; [discriminate|].
          injection Es as <-. cbn [pruneEntry]. now rewrite Hc. }
      rewrite Hk. reflexivity.
Qed.

Lemma fileSize_nonneg d : 0 <= fileSize d.
Proof. unfold fileSize. lia. Qed.

Lemma sizeOf_nonneg n : 0 <= sizeOf n.
Proof.
  induction n as [m d|es IH] using node_induction;
    [apply fileSize_nonneg|].
  induction IH as [|[x c] es Hc _ IHes]; [simpl; lia|].
  rewrite sizeOf_cons. simpl in Hc. lia.
Qed.

Lemma pruneNode_cleared_nonneg cutoff n : 0 <= fst (pruneNode cutoff n).
Proof.
  induction n as [m d|es IH] using node_induction; [simpl; lia|].
  induction IH as [|[x c] es Hc _ IHes]; [simpl; lia|].
  destruct (pruneNode_Dir cutoff es) as (rest & es' & Ees).
  rewrite (pruneNode_cons cutoff x c es rest es' Ees).
  rewrite Ees in IHes. cbn [fst] in *.
  assert (0 <= fst (pruneEntry cutoff c)); [|lia].
  destruct c as [m d|cs]; cbn [pruneEntry].
  - destruct (m <? cutoff); cbn [fst]; [apply fileSize_nonneg|lia].
  - cbn beta in Hc. cbn [snd] in Hc.
    destruct (pruneNode cutoff (Dir cs)) as [cl1 c1].
    cbn [fst] in Hc. now destruct c1 as [|[|]].
Qed.

End PruneAgain.

(** X10.  [deleteOldFiles] settles at once: run a second time with the same
    cutoff on what the first run left, it clears nothing more and leaves
    the state as it is. *)
Theorem deleteOldFiles_twice
        (h : Host) (dirPath : string) (cutoffTime : Z) (w : World) :
  deleteOldFiles h dirPath cutoffTime
                 (snd (deleteOldFiles h dirPath cutoffTime w))
  = (Ret 0, snd (deleteOldFiles h dirPath cutoffTime w)).
Proof.
  unfold deleteOldFiles at 2 3.
  destruct (Tree.lookup (fs w) (segments h dirPath)) as [[m d|es]|] eqn:E;
    try (cbn [snd]; unfold deleteOldFiles; now rewrite E).
  destruct (PruneFacts.pruneNode_Dir cutoffTime es) as (cl & es' & Ep).
  rewrite Ep. cbn [snd].
  pose proof (PruneAgain.pruneNode_again _ _ _ _ Ep) as Hagain.
  set (p := segments h dirPath) in *.
  set (t1 := Tree.alter (fun _ => Some (Tree.Dir es')) p (fs w)).
  assert (H1 : Tree.lookup t1 p = Some (Tree.Dir es')).
  { unfold t1. destruct p as [|x p]; [reflexivity|].
    rewrite lookup_alter_same;
      [reflexivity|discriminate
      |exact (lookupo_Some_not_blocked _ _ _ E)]. }
  unfold deleteOldFiles. fold p. cbn [fs with_fs]. fold t1.
  rewrite H1, Hagain. rewrite (PruneAgain.alter_same_value _ _ _ H1).
  reflexivity.
Qed.

(** X11.  What [deleteOldFiles] reports lies between zero and the size
    [getDirectorySize] measured beforehand, and the size measured
    afterwards is smaller by exactly that amount; the call always
    returns. *)
Theorem deleteOldFiles_accounts_for_size
        (h : Host) (dirPath : string) (cutoffTime : Z) (w : World) :
  exists cleared w' before after,
    deleteOldFiles h dirPath cutoffTime w = (Ret cleared, w')
    /\ getDirectorySize h dirPath w = (Ret before, w)
    /\ getDirectorySize h dirPath w' = (Ret after, w')
    /\ 0 <= cleared <= before
    /\ after = before - cleared.
Proof.
  unfold deleteOldFiles, getDirectorySize, gets.
  destruct (Tree.lookup (fs w) (segments h dirPath)) as [[m d|es]|] eqn:E.
  - exists 0, w. do 2 eexists. rewrite E. repeat split; lia.
  - destruct (PruneFacts.pruneNode_Dir cutoffTime es) as (cl & es' & Ep).
    pose proof (PruneAgain.pruneNode_cleared_nonneg cutoffTime (Tree.Dir es))
      as Hnn.
    pose proof (PruneFacts.pruneNode_spec _ _ _ _ Ep eq_refl)
      as (_ & _ & _ & Hs).
    pose proof (PruneAgain.sizeOf_nonneg (Tree.Dir es')) as Hafter.
    rewrite Ep in *. cbn [fst] in Hnn.
    set (p := segments h dirPath) in *.
    assert (H1 : Tree.lookup
                   (Tree.alter (fun _ => Some (Tree.Dir es')) p (fs w)) p
                 = Some (Tree.Dir es')).
    { destruct p as [|x p]; [reflexivity|].
      rewrite lookup_alter_same;
        [reflexivity|discriminate
        |exact (lookupo_Some_not_blocked _ _ _ E)]. }
    do 4 eexists. split; [reflexivity|]. split; [reflexivity|].
    cbn [fs with_fs]. rewrite H1. split; [reflexivity|]. lia.
  - exists 0, w. do 2 eexists. rewrite E. repeat split; lia.
Qed.

(* ================================================================== *)
(** * Copying and moving a directory *)
(* ================================================================== *)

Module FrameFacts.
Import Tree CopyFacts.
Local Open Scope list_scope.

(** Each primitive rewrites the tree at its own path only. *)
Lemma mkdirSync_frame h p w :
  sameOutside (segments h p) (fs w) (fs (snd (mkdirSync h p w))).
Proof.
  unfold mkdirSync. destruct (blocked _ _); [apply sameOutside_refl|].
  destruct (lookup _ _) as [[m d|es]|];
    try apply sameOutside_refl. apply sameOutside_alter.
Qed.

Lemma ensureDir_frame h p w :
  sameOutside (segments h p) (fs w) (fs (snd (ensureDir h p w))).
Proof.
  unfold ensureDir, existsSync. rewrite RunFacts.bind_gets.
  destruct (lookup _ _); cbn [negb when];
    [apply sameOutside_refl|apply mkdirSync_frame].
Qed.

Lemma rm_frame h p w :
  sameOutside (segments h p) (fs w) (fs (snd (rm h p w))).
Proof.
  unfold rm. destruct (blocked _ _);
    [apply sameOutside_refl|apply sameOutside_alter].
Qed.

Lemma cp_frame h s d w :
  sameOutside (segments h d) (fs w) (fs (snd (cp h s d w))).
Proof.
  unfold cp. destruct (cpFault w s d) as [[residue e]|];
    [apply sameOutside_alter|].
  destruct (lookup _ _); [|apply sameOutside_refl].
  destruct (prefixb _ _); [apply sameOutside_refl|].
  destruct (blocked _ _); [apply sameOutside_refl|].
  destruct (cpNode _ _ _). apply sameOutside_alter.
Qed.

Lemma copyDir_frame h s d w :
  sameOutside (segments h d) (fs w) (fs (snd (copyDir h s d w))).
Proof.
  unfold copyDir, bind.
  pose proof (ensureDir_frame h d w) as H1.
  destruct (ensureDir h d w) as [[[]|e] w1]; [|exact H1].
  eapply sameOutside_trans; [exact H1|apply cp_frame].
Qed.

(** The clock and the injected faults are never written. *)
Lemma ensureDir_now h p w : now (snd (ensureDir h p w)) = now w.
Proof.
  unfold ensureDir, existsSync. rewrite RunFacts.bind_gets.
  destruct (lookup _ _); cbn [negb when]; [reflexivity|].
  unfold mkdirSync. destruct (blocked _ _); [reflexivity|].
  now destruct (lookup _ _) as [[m d|es]|].
Qed.

End FrameFacts.

(** X12.  [moveDir] between two places that are not above or below one
    another: when it throws, what stood at the source is still there
    unchanged; when it returns, nothing stands at the source any more.
    With a directory at the source, a free destination and no failing
    copy it returns, the destination holds the names and bytes of the
    source stamped with the time of the copy, and the rest of the tree is
    as before.  With the same string for both it does nothing. *)
Theorem moveDir_moves_or_keeps
        (h : Host) (source destination : string) (w : World) :
  Tree.incomparable (segments h destination) (segments h source) ->
  moveDir h source source w = (Ret tt, w)
  /\ (forall e w',
        moveDir h source destination w = (Throw e, w') ->
        Tree.lookup (fs w') (segments h source)
        = Tree.lookup (fs w) (segments h source))
  /\ (forall w',
        moveDir h source destination w = (Ret tt, w') ->
        Tree.lookup (fs w') (segments h source) = None)
  /\ (forall es,
        Tree.lookup (fs w) (segments h source) = Some (Tree.Dir es) ->
        NoDup (Tree.names es) ->
        cpFault w source destination = None ->
        Tree.lookup (fs w) (segments h destination) = None ->
        Tree.blocked (fs w) (segments h destination) = false ->
        exists w',
          moveDir h source destination w = (Ret tt, w')
          /\ Tree.lookup (fs w') (segments h destination)
             = Some (Tree.touch (now w) (Tree.Dir es))
          /\ forall q,
              Tree.incomparable (segments h source) q ->
              Tree.incomparable (segments h destination) q ->
              Tree.lookup (fs w') q = Tree.lookup (fs w) q).
Proof.
  intros Hi.
  destruct (incomparable_nonroot _ _ Hi) as [Hd Hs].
  assert (Hne : String.eqb source destination = false).
  { apply String.eqb_neq. intros ->. destruct Hi as [Hi _].
    now rewrite prefixb_refl in Hi. }
  split; [|split; [|split]].
  - unfold moveDir. now rewrite String.eqb_refl.
  - intros e w'. unfold moveDir. rewrite Hne. unfold bind.
    pose proof (FrameFacts.copyDir_frame h source destination w) as Hf.
    destruct (copyDir h source destination w) as [[[]|e1] w1].
    + pose proof (FrameFacts.rm_frame h source w1) as Hr.
      unfold removeDir, rm in *. destruct (Tree.blocked _ _);
        intros [= <- <-]; cbn [snd] in *. now apply Hf.
    + intros [= <- <-]. now apply Hf.
  - intros w'. unfold moveDir. rewrite Hne. unfold bind.
    destruct (copyDir h source destination w) as [[[]|e1] w1];
      [|discriminate].
    unfold removeDir, rm. destruct (Tree.blocked _ _); [discriminate|].
    intros [= <-]. cbn [fs with_fs]. now apply lookup_removed.
  - intros es Hsrc Hnd Hflt Hfree Hb.
    destruct (RunFacts.copyDir_fresh h source destination w es
                Hflt Hsrc Hnd Hi Hfree Hb) as (t' & Ec & Hat & Hout).
    assert (Hbs : Tree.blocked t' (segments h source) = false).
    { apply (lookupo_Some_not_blocked _ _ (Tree.Dir es)).
      fold (Tree.lookup t' (segments h source)).
      now rewrite Hout. }
    eexists. split; [|split].
    + unfold moveDir. rewrite Hne. unfold bind. rewrite Ec.
      unfold removeDir, rm. cbn [fs with_fs]. rewrite Hbs. reflexivity.
    + cbn [fs with_fs]. rewrite lookup_alter_frame
        by now apply incomparable_sym.
      exact Hat.
    + intros q Hq1 Hq2. cbn [fs with_fs].
      rewrite lookup_alter_frame by assumption. now apply Hout.
Qed.

Lemma moveDir_moves_or_keeps_witness :
  exists w',
    moveDir Sample.host "/src3" "/tmp/moved" Sample.world = (Ret tt, w')
    /\ Tree.lookup (fs w') ["src3"] = None
    /\ Tree.lookup (fs w') ["tmp"; "moved"; "projects"; "q.json"]
       = Some (Tree.File 99999999999 "Q").
Proof.
  assert (Hi : Tree.incomparable (segments Sample.host "/tmp/moved")
                                 (segments Sample.host "/src3"))
    by (split; reflexivity).
  destruct (moveDir_moves_or_keeps Sample.host "/src3" "/tmp/moved"
              Sample.world Hi) as (_ & _ & Hgone & _).
  eexists. split; [reflexivity|]. split; [|reflexivity].
  apply Hgone. reflexivity.
Defined.

(** X13.  [copyDir] makes the destination before it looks at the source:
    with nothing at the source, a free destination and no injected fault
    it throws, and an empty directory stays behind at the destination. *)
Theorem copyDir_missing_source_leaves_directory
        (h : Host) (source destination : string) (w : World) :
  Tree.lookup (fs w) (segments h source) = None ->
  Tree.lookup (fs w) (segments h destination) = None ->
  Tree.blocked (fs w) (segments h destination) = false ->
  segments h destination <> [] ->
  Tree.incomparable (segments h destination) (segments h source) ->
  cpFault w source destination = None ->
  exists e w',
    copyDir h source destination w = (Throw e, w')
    /\ Tree.lookup (fs w') (segments h destination) = Some (Tree.Dir [])
    /\ sameOutside (segments h destination) (fs w) (fs w').
Proof.
  intros Hs Hd Hb Hne Hi Hf. unfold copyDir, bind.
  rewrite RunFacts.ensureDir_absent by assumption.
  unfold cp. cbn [cpFault fs with_fs]. rewrite Hf.
  rewrite lookup_alter_frame by assumption. rewrite Hs.
  do 2 eexists. split; [reflexivity|]. cbn [fs with_fs]. split.
  - now rewrite lookup_alter_same.
  - apply CopyFacts.sameOutside_alter.
Qed.

Lemma copyDir_missing_source_leaves_directory_witness :
  exists e w',
    copyDir Sample.host "/nowhere" "/tmp/out" Sample.world = (Throw e, w')
    /\ Tree.lookup (fs w') ["tmp"; "out"] = Some (Tree.Dir []).
Proof.
  destruct (copyDir_missing_source_leaves_directory
              Sample.host "/nowhere" "/tmp/out" Sample.world)
    as (e & w' & E & Hat & _);
    try reflexivity; try discriminate; try (split; reflexivity).
  exists e, w'. split; [exact E|exact Hat].
Defined.

(* ================================================================== *)
(** * The retired import handlers *)
(* ================================================================== *)

Module ReplaceFacts.
Import Tree CopyFacts RunFacts ImportSteps.
Local Open Scope list_scope.

Lemma rm_present h d w n :
  lookup (fs w) (segments h d) = Some n ->
  rm h d w
  = (Ret tt, with_fs w (alter (fun _ => None) (segments h d) (fs w))).
Proof.
  intros H. unfold rm.
  now rewrite (TreeFacts.lookupo_Some_not_blocked _ _ _ H : blocked _ _ = false).
Qed.

Lemma ensureDir_removed h d w n :
  lookup (fs w) (segments h d) = Some n -> segments h d <> [] ->
  ensureDir h d (with_fs w (alter (fun _ => None) (segments h d) (fs w)))
  = (Ret tt, with_fs w (emptied (segments h d) (fs w))).
Proof.
  intros H Hne.
  rewrite ensureDir_absent; [reflexivity| |].
  - cbn [fs with_fs]. now apply lookup_removed.
  - cbn [fs with_fs]. apply blocked_alter_same; [assumption|].
    exact (TreeFacts.lookupo_Some_not_blocked _ _ _ H).
Qed.

Lemma emptied_at D t n :
  lookup t D = Some n -> D <> [] -> lookup (emptied D t) D = Some (Dir []).
Proof.
  intros H Hne. unfold emptied.
  rewrite TreeFacts.lookup_alter_same; [reflexivity|assumption|].
  apply blocked_alter_same; [assumption|].
  exact (TreeFacts.lookupo_Some_not_blocked _ _ _ H).
Qed.

Lemma emptied_outside D t : sameOutside D t (emptied D t).
Proof.
  unfold emptied. eapply sameOutside_trans; apply sameOutside_alter.
Qed.

(** What stands at or under a root that has just been emptied. *)
Lemma emptied_below D r t n :
  lookup t D = Some n -> D <> [] ->
  lookup (emptied D t) (D ++ r)
  = match r with [] => Some (Dir []) | _ => None end.
Proof.
  intros H Hne. unfold emptied.
  rewrite TreeFacts.lookup_alter_below;
    [|assumption
     |apply blocked_alter_same;
      [assumption|exact (TreeFacts.lookupo_Some_not_blocked _ _ _ H)]].
  destruct r as [|x r]; [reflexivity|]. simpl. apply TreeFacts.lookupo_None.
Qed.

(** A place where nothing stood is still free after another root has been
    emptied. *)
Lemma emptied_absent D S t n :
  lookup t D = Some n -> D <> [] -> lookup t S = None ->
  lookup (emptied D t) S = None.
Proof.
  intros H Hne Hs.
  destruct (prefixb D S) eqn:E1.
  - apply TreeFacts.prefixb_spec in E1 as [r ->].
    rewrite (emptied_below D r t n) by assumption.
    destruct r; [|reflexivity]. rewrite app_nil_r in Hs. congruence.
  - destruct (prefixb S D) eqn:E2.
    + apply TreeFacts.prefixb_spec in E2 as [r ->].
      rewrite (lookup_below_absent t S r Hs) in H. discriminate.
    + rewrite emptied_outside; [assumption|now split].
Qed.

End ReplaceFacts.

(** X14.  [storage-import-media-data] tells the media root from the source
    by comparing the two path strings.  Given the media root itself, as
    the very string the handler resolves, it answers with success and
    changes nothing.  Given a directory at or under the media root under
    any other spelling, it removes the media root first: it answers with a
    failure, and the media root is left an empty directory. *)
Theorem import_media_from_inside_empties_root
        (h : Host) (sourcePath : string) (w : World) (n : Tree.node) :
  let mediaDir :=
    Path.join (getStorageBasePath h (storageConfig w)) "media" in
  hostOk h -> sourcePath <> "" ->
  Tree.lookup (fs w) (segments h mediaDir) = Some n ->
  (normalizePath h sourcePath = mediaDir ->
   storage_import_media_data h sourcePath w = (Ret (succeeded None), w))
  /\ (normalizePath h sourcePath <> mediaDir ->
      Tree.prefixb (segments h mediaDir)
                   (segments h (normalizePath h sourcePath)) = true ->
      cpFault w (normalizePath h sourcePath) mediaDir = None ->
      exists e w',
        storage_import_media_data h sourcePath w = (Ret (failure e), w')
        /\ Tree.lookup (fs w') (segments h mediaDir) = Some (Tree.Dir [])
        /\ sameOutside (segments h mediaDir) (fs w) (fs w')
        /\ sameConfig w w').
Proof.
  intros mediaDir Hh Hne Hm.
  assert (Ht : JsString.truthy sourcePath = true)
    by (destruct sourcePath; [congruence|reflexivity]).
  assert (Hroot : getMediaRoot h w = (Ret mediaDir, w))
    by exact (ImportSteps.root_present h "media" w n Hm).
  assert (HT : segments h mediaDir <> []).
  { unfold mediaDir. rewrite segments_join;
      [apply snoc_nonroot|now apply getStorageBasePath_isAbsolute|reflexivity]. }
  split.
  - intros E. unfold storage_import_media_data, tryCatch. rewrite Ht.
    cbn [negb]. unfold bind at 1. rewrite Hroot, E.
    now rewrite String.eqb_refl.
  - intros E Hpre Hf.
    apply TreeFacts.prefixb_spec in Hpre as [r Hr].
    set (t2 := emptied (segments h mediaDir) (fs w)).
    assert (Hcp : exists e,
               cp h (normalizePath h sourcePath) mediaDir (with_fs w t2)
               = (Throw e, with_fs w t2)).
    { unfold cp. cbn [cpFault fs with_fs]. rewrite Hf, Hr.
      unfold t2. rewrite (ReplaceFacts.emptied_below _ r _ n) by assumption.
      destruct r as [|x r]; [|eexists; reflexivity].
      rewrite app_nil_r, prefixb_refl. eexists; reflexivity. }
    destruct Hcp as [e Hcp].
    exists e, (with_fs w t2). split; [|split; [|split]].
    + unfold storage_import_media_data, tryCatch. rewrite Ht.
      cbn [negb]. unfold bind at 1. rewrite Hroot.
      apply String.eqb_neq in E. rewrite E.
      unfold bind at 1. unfold removeDir.
      rewrite (ReplaceFacts.rm_present h mediaDir w n Hm).
      unfold bind at 1. unfold copyDir at 1. unfold bind at 1.
      rewrite (ReplaceFacts.ensureDir_removed h mediaDir w n Hm HT).
      fold t2. now rewrite Hcp.
    + cbn [fs with_fs]. now apply (ReplaceFacts.emptied_at _ _ n).
    + cbn [fs with_fs]. apply ReplaceFacts.emptied_outside.
    + apply sameConfig_with_fs.
Qed.

Lemma import_media_from_inside_empties_root_witness :
  exists e w',
    storage_import_media_data Sample.host "/data/base/media/" Sample.world
    = (Ret (failure e), w')
    /\ Tree.lookup (fs w') ["data"; "base"; "media"] = Some (Tree.Dir []).
Proof.
  destruct (import_media_from_inside_empties_root
              Sample.host "/data/base/media/" Sample.world
              (Tree.Dir [ ("m.png", Tree.File 2 "MM") ]))
    as (_ & Hin);
    [repeat split|discriminate|reflexivity|].
  destruct Hin as (e & w' & E & Hat & _);
    [discriminate|reflexivity|reflexivity|].
  exists e, w'. split; [exact E|exact Hat].
Defined.

(** X15.  [storage-import-project-data] keeps nothing aside: given a path
    at which nothing stands, it has already removed the project root when
    the copy fails, so it answers with a failure and the project root is
    left an empty directory. *)
Theorem import_project_data_missing_source_empties_root
        (h : Host) (sourcePath : string) (w : World) (n : Tree.node) :
  let projectsDir :=
    Path.join (getStorageBasePath h (storageConfig w)) "projects" in
  hostOk h -> sourcePath <> "" ->
  Tree.lookup (fs w) (segments h projectsDir) = Some n ->
  Tree.lookup (fs w) (segments h (normalizePath h sourcePath)) = None ->
  cpFault w (normalizePath h sourcePath) projectsDir = None ->
  exists e w',
    storage_import_project_data h sourcePath w = (Ret (failure e), w')
    /\ Tree.lookup (fs w') (segments h projectsDir) = Some (Tree.Dir [])
    /\ sameOutside (segments h projectsDir) (fs w) (fs w')
    /\ sameConfig w w'.
Proof.
  intros projectsDir Hh Hne Hp Hs Hf.
  assert (Ht : JsString.truthy sourcePath = true)
    by (destruct sourcePath; [congruence|reflexivity]).
  assert (Hc : Path.isAbsolute (cwd h) = true) by apply Hh.
  assert (HP : segments h projectsDir <> []).
  { unfold projectsDir. rewrite segments_join;
      [apply snoc_nonroot|now apply getStorageBasePath_isAbsolute|reflexivity]. }
  set (source := normalizePath h sourcePath) in *.
  set (t2 := emptied (segments h projectsDir) (fs w)).
  assert (Hroot : getProjectDataRoot h w = (Ret projectsDir, w))
    by exact (ImportSteps.root_present h "projects" w n Hp).
  assert (Hroot2 : getProjectDataRoot h (with_fs w t2)
                   = (Ret projectsDir, with_fs w t2)).
  { apply (ImportSteps.root_present h "projects" (with_fs w t2) (Tree.Dir [])).
    cbn [fs with_fs storageConfig]. now apply (ReplaceFacts.emptied_at _ _ n). }
  assert (Hroot1 :
            getProjectDataRoot h
              (with_fs w (Tree.alter (fun _ => None)
                                     (segments h projectsDir) (fs w)))
            = (Ret projectsDir, with_fs w t2)).
  { unfold getProjectDataRoot. rewrite RunFacts.bind_gets.
    cbn [storageConfig with_fs]. cbv zeta. fold projectsDir.
    unfold bind. now rewrite (ReplaceFacts.ensureDir_removed h _ w n Hp HP). }
  assert (Hsub : Tree.lookup (fs w)
                   (segments h (Path.join source "projects")) = None).
  { rewrite segments_join;
      [now apply CopyFacts.lookup_below_absent
      |now apply normalizePath_isAbsolute|reflexivity]. }
  exists "Error: ENOENT: no such file or directory, cp", (with_fs w t2).
  split; [|split; [|split]].
  - unfold storage_import_project_data, tryCatch. rewrite Ht. cbn [negb].
    fold source. unfold existsSync at 1. rewrite RunFacts.bind_gets, Hsub.
    unfold bind at 1. unfold bind at 1. rewrite Hroot.
    unfold bind at 1. unfold swallow, tryCatch, removeDir.
    rewrite (ReplaceFacts.rm_present h projectsDir w n Hp).
    unfold bind at 1. rewrite Hroot1.
    unfold copyDir, bind.
    rewrite (RunFacts.ensureDir_present h projectsDir (with_fs w t2)
               (Tree.Dir []))
      by (cbn [fs with_fs]; now apply (ReplaceFacts.emptied_at _ _ n)).
    unfold cp. cbn [cpFault fs with_fs]. rewrite Hf.
    unfold t2.
    now rewrite (ReplaceFacts.emptied_absent _ _ _ n Hp HP Hs).
  - cbn [fs with_fs]. now apply (ReplaceFacts.emptied_at _ _ n).
  - cbn [fs with_fs]. apply ReplaceFacts.emptied_outside.
  - apply sameConfig_with_fs.
Qed.

Lemma import_project_data_missing_source_empties_root_witness :
  exists e w',
    storage_import_project_data Sample.host "/nowhere" Sample.world
    = (Ret (failure e), w')
    /\ Tree.lookup (fs w') ["data"; "base"; "projects"] = Some (Tree.Dir []).
Proof.
  destruct (import_project_data_missing_source_empties_root
              Sample.host "/nowhere" Sample.world
              (Tree.Dir [ ("a.json", Tree.File 1 "A");
                          ("_p", Tree.Dir [ ("_migrated.json", Tree.File 1 "x");
                                            ("p1", Tree.Dir []) ]) ]))
    as (e & w' & E & Hat & _);
    [repeat split|discriminate|reflexivity|reflexivity|reflexivity|].
  exists e, w'. split; [exact E|exact Hat].
Defined.

(* ================================================================== *)
(** * Export *)
(* ================================================================== *)

Module ExportFacts.
Import JsString Path PathFacts SegmentFacts JsDate.
Local Open Scope list_scope.

Example toISOString_epoch : toISOString 0 = "1970-01-01T00:00:00.000Z".
Proof. reflexivity. Qed.

Example toISOString_leap_day :
  toISOString 1709164800123 = "2024-02-29T00:00:00.123Z".
Proof. reflexivity. Qed.

Example toISOString_before_epoch :
  toISOString (-1) = "1969-12-31T23:59:59.999Z".
Proof. reflexivity. Qed.

Example toISOString_five_digit_year :
  toISOString 253402300800000 = "+010000-01-01T00:00:00.000Z".
Proof. reflexivity. Qed.

Example exportName_sample :
  exportName 1700000000000 = "moyin-data-2023-11-14T22-13-20-000Z".
Proof. reflexivity. Qed.

Lemma digit_not_sep n : is_sep (digit n) = false.
Proof.
  unfold digit.
  destruct (Z.to_nat (n mod 10)) as [|[|[|[|[|[|[|[|[|k]]]]]]]]];
    reflexivity.
Qed.

Lemma sepFree_app a b : sepFree (a ++ b) = (sepFree a && sepFree b)%bool.
Proof.
  induction a as [|c a IH]; [reflexivity|]. simpl.
  now rewrite IH, andb_assoc.
Qed.

Lemma sepFree_pad width n : sepFree (pad width n) = true.
Proof.
  revert n. induction width as [|k IH]; intros n; [reflexivity|].
  cbn [pad]. rewrite sepFree_app, IH. simpl. now rewrite digit_not_sep.
Qed.

Lemma sepFree_year y : sepFree (year y) = true.
Proof.
  unfold year. destruct (_ && _)%bool; [apply sepFree_pad|].
  rewrite sepFree_app, sepFree_pad. now destruct (y <? 0).
Qed.

Lemma sepFree_toISOString t : sepFree (toISOString t) = true.
Proof.
  unfold toISOString. destruct (civil _) as [[y m] d].
  repeat (rewrite sepFree_app; rewrite ?sepFree_year, ?sepFree_pad;
          cbn [andb]).
  reflexivity.
Qed.

Lemma sepFree_dashed s : sepFree s = true -> sepFree (dashed s) = true.
Proof.
  induction s as [|c s IH]; [reflexivity|]. simpl.
  intros H. apply andb_true_iff in H as [Hc Hs]. rewrite (IH Hs).
  destruct (Ascii.eqb c ":" || Ascii.eqb c ".")%bool;
    [reflexivity|now rewrite Hc].
Qed.

(** The name of a snapshot is one path component. *)
Lemma exportName_plain t : plainName (exportName t) = true.
Proof.
  unfold exportName, plainName.
  change ("moyin-data-" ++ ?s)%string
    with (String "m" ("oyin-data-" ++ s)%string).
  cbn [String.eqb Ascii.eqb Bool.eqb negb andb sepFree is_sep].
  change (String "o" ?s) with ("o" ++ s)%string.
  rewrite sepFree_app.
  now rewrite sepFree_dashed by apply sepFree_toISOString.
Qed.

End ExportFacts.

Module SnapshotFacts.
Import Tree CopyFacts RunFacts ImportSteps.
Local Open Scope list_scope.

(** Making the first sub-directory of a directory that is not there yet
    makes that directory. *)
Lemma first_child_made t (E : list string) x :
  lookup t E = None -> blocked t E = false ->
  lookup (alter (fun _ => Some (Dir [])) (E ++ [x]) t) E
  = Some (Dir [(x, Dir [])]).
Proof.
  intros Hn Hb.
  rewrite TreeFacts.lookup_alter_above by (assumption || apply snoc_nonroot).
  now rewrite Hn.
Qed.

Lemma incomparable_child (E q : list string) x :
  incomparable E q -> incomparable (E ++ [x]) q.
Proof. apply incomparable_snoc_l. Qed.

(** [copyDir] into a directory that is there and empty. *)
Lemma copyDir_into_empty h s d w es :
  cpFault w s d = None ->
  lookup (fs w) (segments h s) = Some (Dir es) -> NoDup (names es) ->
  prefixb (segments h s) (segments h d) = false ->
  lookup (fs w) (segments h d) = Some (Dir []) ->
  copyDir h s d w
  = (Ret tt,
     with_fs w (alter (fun _ => Some (touch (now w) (Dir es)))
                      (segments h d) (fs w))).
Proof.
  intros Hf Hs Hnd Hpre Hd. unfold copyDir.
  rewrite (bind_ret_run _ _ w tt w (ensureDir_present h d w _ Hd)).
  now apply cp_into_empty.
Qed.

End SnapshotFacts.

(** X16.  [storage-export-data] into a place that is free and lies apart
    from the live roots: the handler answers with success and the path of
    the snapshot, a new directory directly under the target whose name is
    [moyin-data-] followed by the time stamp; its [projects/] and [media/]
    hold the names and bytes of the two live roots; nothing outside the
    snapshot directory is changed, the live roots and the Config Store
    included.  The two live roots are directories whose entries have
    distinct names, and the two copies are assumed not to fail. *)
Theorem export_data_takes_snapshot
        (h : Host) (targetPath : string) (w : World)
        (ps ms : Tree.entries_t) :
  let base := getStorageBasePath h (storageConfig w) in
  let projectsDir := Path.join base "projects" in
  let mediaDir := Path.join base "media" in
  let exportDir :=
    Path.join (normalizePath h targetPath) (exportName (now w)) in
  let E := segments h exportDir in
  hostOk h -> targetPath <> "" ->
  Tree.lookup (fs w) (segments h projectsDir) = Some (Tree.Dir ps) ->
  NoDup (Tree.names ps) ->
  Tree.lookup (fs w) (segments h mediaDir) = Some (Tree.Dir ms) ->
  NoDup (Tree.names ms) ->
  Tree.lookup (fs w) E = None -> Tree.blocked (fs w) E = false ->
  Tree.incomparable E (segments h projectsDir) ->
  Tree.incomparable E (segments h mediaDir) ->
  cpFault w projectsDir (Path.join exportDir "projects") = None ->
  cpFault w mediaDir (Path.join exportDir "media") = None ->
  E = (segments h targetPath ++ [exportName (now w)])%list
  /\ exists w',
      storage_export_data h targetPath w
      = (Ret (succeeded (Some exportDir)), w')
      /\ Tree.lookup (fs w') (E ++ ["projects"])%list
         = Some (Tree.touch (now w) (Tree.Dir ps))
      /\ Tree.lookup (fs w') (E ++ ["media"])%list
         = Some (Tree.touch (now w) (Tree.Dir ms))
      /\ sameOutside E (fs w) (fs w')
      /\ sameConfig w w'.
Proof.
  intros base projectsDir mediaDir exportDir E
         Hh Hne Hp Hpd Hm Hmd Hfree Hreach HiP HiM HfP HfM.
  assert (Hc : Path.isAbsolute (cwd h) = true) by apply Hh.
  assert (Ht : JsString.truthy targetPath = true)
    by (destruct targetPath; [congruence|reflexivity]).
  assert (Habs : Path.isAbsolute exportDir = true).
  { apply join_abs_isAbsolute;
      [now apply normalizePath_isAbsolute|apply ExportFacts.exportName_plain]. }
  assert (HE : E = (segments h targetPath ++ [exportName (now w)])%list).
  { unfold E, exportDir. rewrite segments_join;
      [|now apply normalizePath_isAbsolute|apply ExportFacts.exportName_plain].
    f_equal. unfold normalizePath.
    destruct (Path.isAbsolute targetPath) eqn:Ea; [reflexivity|].
    rewrite segments_abs by now apply resolve_isAbsolute.
    rewrite ResolveFacts.resolve_segments by assumption.
    apply absSegs_render, ResolveFacts.segments_plain. }
  split; [exact HE|].
  set (Ep := (E ++ ["projects"])%list).
  set (Em := (E ++ ["media"])%list).
  assert (HEp : segments h (Path.join exportDir "projects") = Ep)
    by (now apply segments_join).
  assert (HEm : segments h (Path.join exportDir "media") = Em)
    by (now apply segments_join).
  assert (Hsib : Tree.incomparable Ep Em)
    by (apply siblings_apart; discriminate).
  assert (HpE : Tree.incomparable Ep (segments h projectsDir))
    by now apply CopyFacts.incomparable_snoc_l.
  assert (HmE : Tree.incomparable Em (segments h projectsDir))
    by now apply CopyFacts.incomparable_snoc_l.
  assert (HpM : Tree.incomparable Ep (segments h mediaDir))
    by now apply CopyFacts.incomparable_snoc_l.
  assert (HmM : Tree.incomparable Em (segments h mediaDir))
    by now apply CopyFacts.incomparable_snoc_l.
  set (now0 := now w).
  set (t1 := Tree.alter (fun _ => Some (Tree.Dir [])) Ep (fs w)).
  set (t2 := Tree.alter (fun _ => Some (Tree.Dir [])) Em t1).
  set (t3 := Tree.alter (fun _ => Some (Tree.touch now0 (Tree.Dir ps))) Ep t2).
  set (t4 := Tree.alter (fun _ => Some (Tree.touch now0 (Tree.Dir ms))) Em t3).
  assert (Hb0 : Tree.blocked (fs w) Ep = false)
    by now apply blocked_below_free.
  assert (H1E : Tree.lookup t1 E = Some (Tree.Dir [("projects", Tree.Dir [])]))
    by now apply SnapshotFacts.first_child_made.
  assert (Hb1 : Tree.blocked t1 Em = false)
    by (eapply blocked_child; exact H1E).
  assert (H1m : Tree.lookup t1 Em = None).
  { unfold t1. rewrite lookup_alter_frame by assumption.
    now apply CopyFacts.lookup_below_absent. }
  assert (H2p : Tree.lookup t2 Ep = Some (Tree.Dir [])).
  { unfold t2. rewrite lookup_alter_frame by now apply incomparable_sym.
    unfold t1. rewrite lookup_alter_same;
      [reflexivity|apply snoc_nonroot|assumption]. }
  assert (H2m : Tree.lookup t2 Em = Some (Tree.Dir [])).
  { unfold t2. rewrite lookup_alter_same;
      [reflexivity|apply snoc_nonroot|assumption]. }
  assert (H3m : Tree.lookup t3 Em = Some (Tree.Dir []))
    by (unfold t3; now rewrite lookup_alter_frame).
  assert (H3p : Tree.lookup t3 Ep = Some (Tree.touch now0 (Tree.Dir ps))).
  { unfold t3. rewrite lookup_alter_same;
      [reflexivity|apply snoc_nonroot
      |exact (lookupo_Some_not_blocked _ _ _ H2p)]. }
  assert (H2P : Tree.lookup t2 (segments h projectsDir) = Some (Tree.Dir ps))
    by (unfold t2, t1; now rewrite !lookup_alter_frame).
  assert (H3M : Tree.lookup t3 (segments h mediaDir) = Some (Tree.Dir ms))
    by (unfold t3, t2, t1; now rewrite !lookup_alter_frame).
  exists (with_fs w t4). split; [|split; [|split; [|split]]].
  - unfold storage_export_data, tryCatch. rewrite Ht. cbn [negb].
    rewrite RunFacts.bind_gets. cbv zeta. fold exportDir.
    rewrite (ImportSteps.bind_ret_run _ _ w tt (with_fs w t1)).
    2:{ rewrite RunFacts.ensureDir_absent; rewrite HEp;
          [reflexivity|now apply CopyFacts.lookup_below_absent|assumption]. }
    rewrite (ImportSteps.bind_ret_run _ _ (with_fs w t1) tt (with_fs w t2)).
    2:{ rewrite RunFacts.ensureDir_absent; rewrite HEm;
          [reflexivity|exact H1m|exact Hb1]. }
    rewrite (ImportSteps.bind_ret_run _ _ (with_fs w t2) projectsDir
                                      (with_fs w t2)).
    2:{ exact (ImportSteps.root_present h "projects" (with_fs w t2) _ H2P). }
    rewrite (ImportSteps.bind_ret_run _ _ (with_fs w t2) tt (with_fs w t3)).
    2:{ rewrite SnapshotFacts.copyDir_into_empty with (es := ps);
          rewrite ?HEp; try assumption; [reflexivity|apply HpE]. }
    rewrite (ImportSteps.bind_ret_run _ _ (with_fs w t3) mediaDir
                                      (with_fs w t3)).
    2:{ exact (ImportSteps.root_present h "media" (with_fs w t3) _ H3M). }
    rewrite (ImportSteps.bind_ret_run _ _ (with_fs w t3) tt (with_fs w t4)).
    2:{ rewrite SnapshotFacts.copyDir_into_empty with (es := ms);
          rewrite ?HEm; try assumption; [reflexivity|apply HmM]. }
    reflexivity.
  - cbn [fs with_fs]. unfold t4.
    rewrite lookup_alter_frame by now apply incomparable_sym.
    exact H3p.
  - cbn [fs with_fs]. unfold t4. rewrite lookup_alter_same;
      [reflexivity|apply snoc_nonroot
      |exact (lookupo_Some_not_blocked _ _ _ H3m)].
  - intros q Hq. cbn [fs with_fs]. unfold t4, t3, t2, t1.
    rewrite !lookup_alter_frame
      by now apply CopyFacts.incomparable_snoc_l.
    reflexivity.
  - apply sameConfig_with_fs.
Qed.

Lemma export_data_takes_snapshot_witness :
  exists w',
    storage_export_data Sample.host "/tmp" Sample.world
    = (Ret (succeeded (Some "/tmp/moyin-data-1973-03-03T09-46-39-999Z")), w')
    /\ Tree.lookup (fs w')
         ["tmp"; "moyin-data-1973-03-03T09-46-39-999Z"; "media"]
       = Some (Tree.Dir [ ("m.png", Tree.File 99999999999 "MM") ])
    /\ sameConfig Sample.world w'.
Proof.
  destruct (export_data_takes_snapshot
              Sample.host "/tmp" Sample.world
              [ ("a.json", Tree.File 1 "A");
                ("_p", Tree.Dir [ ("_migrated.json", Tree.File 1 "x");
                                  ("p1", Tree.Dir []) ]) ]
              [ ("m.png", Tree.File 2 "MM") ])
    as (_ & w' & E & _ & Hm & _ & Hc);
    [ repeat split
    | discriminate
    | vm_compute; reflexivity
    | repeat constructor; simpl; intuition discriminate
    | vm_compute; reflexivity
    | repeat constructor; simpl; intuition discriminate
    | vm_compute; reflexivity
    | vm_compute; reflexivity
    | split; vm_compute; reflexivity
    | split; vm_compute; reflexivity
    | reflexivity
    | reflexivity
    | ].
  exists w'. split; [exact E|]. split; [exact Hm|exact Hc].
Defined.

(* ================================================================== *)
(** * Keys and the paths they name *)
(* ================================================================== *)

Module KeyFacts.
Import JsString Path PathFacts SegmentFacts ResolveFacts.
Local Open Scope list_scope.

(** Without [..] among the segments nothing kept so far is dropped. *)
Lemma normalizeSegs_noDotDot acc xs :
  noDotDot xs = true ->
  normalizeSegs false acc xs = rev acc ++ normalizeSegs false [] xs.
Proof.
  revert acc. induction xs as [|x xs IH]; intros acc H; simpl.
  - now rewrite app_nil_r.
  - simpl in H. apply andb_true_iff in H as [Hx Hxs].
    apply negb_true_iff in Hx. rewrite Hx.
    destruct (String.eqb x "" || String.eqb x ".")%bool; [now apply IH|].
    rewrite (IH (x :: acc)), (IH [x]) by assumption.
    simpl. now rewrite <- app_assoc.
Qed.

(** The head of the first segment is the head of the string. *)
Lemma split_head s c x xs :
  split s = String c x :: xs -> exists s', s = String c s'.
Proof.
  destruct s as [|d s]; [discriminate|]. simpl.
  destruct (is_sep d); [discriminate|].
  destruct (split s) as [|y ys]; intros [= -> _ _]; now eexists.
Qed.

Lemma includes_tail c s sub :
  JsText.includes s sub = true -> JsText.includes (String c s) sub = true.
Proof. intros H. cbn [JsText.includes]. rewrite H. apply orb_true_r. Qed.

(** A segment [..] shows as two dots in the string. *)
Lemma dotdot_segment_included s :
  In ".." (split s) -> JsText.includes s ".." = true.
Proof.
  induction s as [|c s IH]; [intros [H|[]]; discriminate|].
  cbn [split]. destruct (is_sep c).
  - intros [H|H]; [discriminate|]. now apply includes_tail, IH.
  - destruct (split s) as [|y ys] eqn:E; [now apply split_nonempty in E|].
    intros [H|H].
    + injection H as -> ->.
      destruct (split_head s "." "" ys E) as [s' ->].
      cbn [JsText.includes]. rewrite !prefix_cons.
      cbn [Ascii.eqb Bool.eqb andb]. now destruct s'.
    + apply includes_tail, IH. now right.
Qed.

Lemma noDotDot_split key :
  JsText.includes key ".." = false -> noDotDot (split key) = true.
Proof.
  intros H. unfold noDotDot. apply forallb_forall. intros x Hx.
  apply negb_true_iff. destruct (String.eqb_spec x "..") as [->|]; [|reflexivity].
  apply dotdot_segment_included in Hx. congruence.
Qed.

(** Appending a separator-free text extends the last segment. *)
Lemma split_app_sepFree a b :
  sepFree b = true ->
  split (a ++ b) = removelast (split a) ++ [last (split a) "" ++ b]%string.
Proof.
  intros Hb. induction a as [|c a IH].
  - simpl. now apply split_sepFree.
  - cbn [append split]. destruct (is_sep c).
    + rewrite IH.
      destruct (split a) as [|y ys] eqn:E; [now apply split_nonempty in E|].
      reflexivity.
    + rewrite IH.
      destruct (split a) as [|y ys] eqn:E; [now apply split_nonempty in E|].
      destruct ys as [|z zs]; reflexivity.
Qed.

Lemma in_removelast {A} (x : A) l : In x (removelast l) -> In x l.
Proof.
  induction l as [|y l IH]; [intros []|].
  destruct l as [|z l]; [intros []|].
  intros [->|H]; [now left|right; now apply IH].
Qed.

Lemma last_in {A} (l : list A) d : l <> [] -> In (last l d) l.
Proof.
  induction l as [|y l IH]; [congruence|]. intros _.
  destruct l as [|z l]; [now left|]. right. apply IH. discriminate.
Qed.

(** The segments of [key + '.json'] when [key] has no two dots in a row. *)
Lemma noDotDot_keyFile key :
  JsText.includes key ".." = false ->
  noDotDot (split (key ++ ".json")) = true.
Proof.
  intros H. rewrite split_app_sepFree by reflexivity.
  pose proof (noDotDot_split key H) as Hk. unfold noDotDot in *.
  rewrite forallb_forall in Hk.
  rewrite forallb_app. apply andb_true_iff. split.
  - apply forallb_forall. intros x Hx. apply Hk. now apply in_removelast.
  - cbn [forallb]. rewrite andb_true_r. apply negb_true_iff.
    apply String.eqb_neq. intros E. apply (f_equal String.length) in E.
    rewrite append_length in E. simpl in E. lia.
Qed.

(** The file name of a key is kept by the normalisation. *)
Lemma keyFile_last key :
  exists xs name,
    split (key ++ ".json") = xs ++ [name]
    /\ (String.eqb name "" || String.eqb name ".")%bool = false
    /\ String.eqb name ".." = false.
Proof.
  rewrite split_app_sepFree by reflexivity.
  exists (removelast (split key)), (last (split key) "" ++ ".json")%string.
  split; [reflexivity|].
  set (l := last (split key) "").
  assert (Hlen : (5 <= String.length (l ++ ".json"))%nat)
    by (rewrite append_length; simpl; lia).
  split.
  - apply orb_false_iff. split; apply String.eqb_neq; intros E;
      rewrite E in Hlen; simpl in Hlen; lia.
  - apply String.eqb_neq. intros E. rewrite E in Hlen. simpl in Hlen. lia.
Qed.

Lemma normalizeSegs_last_kept acc xs name :
  (String.eqb name "" || String.eqb name ".")%bool = false ->
  String.eqb name ".." = false ->
  normalizeSegs false acc (xs ++ [name])
  = normalizeSegs false acc xs ++ [name].
Proof.
  intros H1 H2. rewrite normalizeSegs_app. simpl. rewrite H1, H2.
  simpl. now rewrite rev_involutive.
Qed.

Lemma endsWithSep_keyFile a key :
  endsWithSep (a ++ "/" ++ key ++ ".json") = false.
Proof.
  rewrite <- (append_assoc a "/" (key ++ ".json")).
  rewrite <- (append_assoc (a ++ "/") key ".json").
  now rewrite endsWithSep_app by discriminate.
Qed.

(** Where the file of a key stands: below the directory it is joined to. *)
Lemma segments_keyFile h D key :
  isAbsolute D = true -> JsText.includes key ".." = false ->
  exists r,
    r <> [] /\ forallb plainName r = true
    /\ segments h (join D (key ++ ".json")) = absSegs D ++ r
    /\ join D (key ++ ".json") = ("/" ++ unsplit (absSegs D ++ r))%string.
Proof.
  intros HD Hk.
  destruct (keyFile_last key) as (xs & name & Es & Hn1 & Hn2).
  assert (Hj : join D (key ++ ".json")
               = normalize (D ++ "/" ++ key ++ ".json")).
  { destruct D as [|c D]; [discriminate|].
    destruct (key ++ ".json")%string eqn:E; [|reflexivity].
    apply (f_equal String.length) in E. rewrite append_length in E.
    simpl in E. lia. }
  assert (Ha : isAbsolute (D ++ "/" ++ key ++ ".json") = true)
    by (destruct D; [discriminate|exact HD]).
  set (X := normalizeSegs false [] (split (D ++ "/" ++ key ++ ".json"))).
  assert (HX : X = absSegs D ++ normalizeSegs false [] xs ++ [name]).
  { unfold X. rewrite split_app_sep, normalizeSegs_app. fold (absSegs D).
    rewrite normalizeSegs_noDotDot by now apply noDotDot_keyFile.
    rewrite rev_involutive, Es. f_equal.
    now apply normalizeSegs_last_kept. }
  assert (Hplain : forallb plainName X = true)
    by (apply normalizeSegs_plain; [reflexivity|apply split_all_sepFree]).
  assert (Hne : unsplit X <> ""%string).
  { rewrite HX, app_assoc. apply unsplit_snoc_nonempty.
    intros ->. discriminate. }
  assert (Hs : join D (key ++ ".json") = ("/" ++ unsplit X)%string).
  { rewrite Hj, normalize_abs by assumption. unfold normalizeString.
    fold X. rewrite endsWithSep_keyFile.
    destruct (unsplit X); [congruence|reflexivity]. }
  exists (normalizeSegs false [] xs ++ [name]).
  split; [now destruct (normalizeSegs false [] xs)|].
  split.
  { rewrite HX, forallb_app in Hplain.
    now apply andb_true_iff in Hplain as [_ Hplain]. }
  rewrite <- HX. split; [|exact Hs].
  rewrite Hs, segments_abs by reflexivity. now apply absSegs_render.
Qed.

(** ** [path.dirname] of a rendered path *)

Lemma dropWhile_app_stop f l c l' :
  forallb f l = true -> f c = false ->
  dropWhile f (l ++ c :: l') = c :: l'.
Proof.
  intros Hl Hc. induction l as [|d l IH]; simpl; [now rewrite Hc|].
  simpl in Hl. apply andb_true_iff in Hl as [Hd Hl]. rewrite Hd. now apply IH.
Qed.

Lemma dropWhile_all f l : forallb f l = true -> dropWhile f l = [].
Proof.
  induction l as [|d l IH]; [reflexivity|]. simpl.
  intros H. apply andb_true_iff in H as [Hd Hl]. rewrite Hd. now apply IH.
Qed.

Lemma dirname_unfold c0 rest :
  dirname (String c0 rest)
  = match dropWhile (fun c => negb (is_sep c))
                    (dropWhile is_sep (rev (list_ascii_of_string rest))) with
    | [] => if is_sep c0 then "/" else "."
    | _ :: before =>
        match before with
        | [] => if is_sep c0 then "//" else String c0 EmptyString
        | _ => String c0 (string_of_list_ascii (rev before))
        end
    end%string.
Proof. reflexivity. Qed.

Lemma sepFree_forallb x :
  sepFree x = true ->
  forallb (fun c => negb (is_sep c)) (list_ascii_of_string x) = true.
Proof.
  induction x as [|c x IH]; [reflexivity|]. simpl.
  intros H. apply andb_true_iff in H as [Hc Hx]. now rewrite Hc, IH.
Qed.

(** The parent of a rendered path is the rendering without its last
    segment. *)
Lemma dirname_render xs x :
  forallb plainName xs = true -> plainName x = true ->
  dirname ("/" ++ unsplit (xs ++ [x])) = ("/" ++ unsplit xs)%string.
Proof.
  intros Hxs Hx.
  change ("/" ++ unsplit (xs ++ [x]))%string
    with (String "/" (unsplit (xs ++ [x]))).
  rewrite dirname_unfold. cbn [is_sep Ascii.eqb Bool.eqb].
  pose proof (sepFree_forallb x (plainName_sepFree x Hx)) as Hfree.
  pose proof (plainName_nonempty x Hx) as Hnx.
  assert (Hrev : forallb (fun c => negb (is_sep c))
                         (rev (list_ascii_of_string x)) = true).
  { rewrite forallb_forall in *. intros c Hc. apply Hfree.
    now apply in_rev. }
  assert (Hfirst : dropWhile is_sep (rev (list_ascii_of_string x) )
                   = rev (list_ascii_of_string x)).
  { destruct (rev (list_ascii_of_string x)) as [|c l] eqn:E; [reflexivity|].
    simpl in Hrev. apply andb_true_iff in Hrev as [Hc _].
    simpl. now destruct (is_sep c). }
  destruct xs as [|y ys].
  - cbn [app unsplit]. rewrite Hfirst, dropWhile_all by assumption.
    reflexivity.
  - rewrite unsplit_app by discriminate.
    rewrite list_ascii_app, rev_app_distr. change (unsplit [x]) with x.
    change (list_ascii_of_string ("/" ++ x))
      with ("/"%char :: list_ascii_of_string x).
    cbn [rev]. rewrite <- app_assoc. cbn [app].
    set (L := rev (list_ascii_of_string (unsplit (y :: ys)))).
    assert (Hd1 : dropWhile is_sep
                    (rev (list_ascii_of_string x) ++ "/"%char :: L)
                  = rev (list_ascii_of_string x) ++ "/"%char :: L).
    { destruct (rev (list_ascii_of_string x)) as [|c l] eqn:E.
      - apply (f_equal (@rev ascii)) in E. rewrite rev_involutive in E.
        destruct x; [congruence|discriminate].
      - simpl in Hrev. apply andb_true_iff in Hrev as [Hc _].
        simpl. now destruct (is_sep c). }
    rewrite Hd1, dropWhile_app_stop by (assumption || reflexivity).
    assert (HL : L <> []).
    { assert (Hu : unsplit (y :: ys) <> ""%string).
      { destruct ys as [|z zs] using rev_ind.
        - simpl in Hxs. apply andb_true_iff in Hxs as [Hy _].
          now apply plainName_nonempty.
        - change (y :: zs ++ [z]) with ((y :: zs) ++ [z]).
          apply unsplit_snoc_nonempty.
          rewrite forallb_forall in Hxs.
          apply plainName_nonempty, Hxs. right. apply in_or_app.
          right. now left. }
      unfold L. intros E. apply (f_equal (@rev ascii)) in E.
      rewrite rev_involutive in E.
      apply (f_equal string_of_list_ascii) in E.
      rewrite string_of_list_ascii_of_string in E. exact (Hu E). }
    destruct L as [|c L'] eqn:EL; [congruence|].
    rewrite <- EL. unfold L. rewrite rev_involutive.
    now rewrite string_of_list_ascii_of_string.
Qed.

(** The directory the file of a key goes into: at or below the directory
    the key is joined to. *)
Lemma segments_keyFile_parent h D key :
  isAbsolute D = true -> JsText.includes key ".." = false ->
  exists r',
    segments h (dirname (join D (key ++ ".json"))) = absSegs D ++ r'.
Proof.
  intros HD Hk.
  destruct (segments_keyFile h D key HD Hk) as (r & Hne & Hpl & _ & Hs).
  destruct (exists_last Hne) as (r' & x & ->).
  rewrite forallb_app in Hpl. apply andb_true_iff in Hpl as [Hr' Hx].
  simpl in Hx. rewrite andb_true_r in Hx.
  assert (Hall : forallb plainName (absSegs D ++ r') = true)
    by now rewrite forallb_app, absSegs_plain, Hr'.
  exists r'. rewrite Hs, app_assoc, dirname_render by assumption.
  rewrite segments_abs by reflexivity. now apply absSegs_render.
Qed.

End KeyFacts.

(* ================================================================== *)
(** * The file storage *)
(* ================================================================== *)

Module StoreFacts.
Import Tree CopyFacts RunFacts ImportSteps.
Local Open Scope list_scope.

Lemma fsOnly_refl w : fsOnly w w.
Proof. exists (fs w). now destruct w. Qed.

Lemma fsOnly_with_fs w t : fsOnly w (with_fs w t).
Proof. now exists t. Qed.

Lemma fsOnly_trans w1 w2 w3 : fsOnly w1 w2 -> fsOnly w2 w3 -> fsOnly w1 w3.
Proof. intros [t ->] [t' ->]. now exists t'. Qed.

Lemma fsOnly_config w w' : fsOnly w w' -> storageConfig w' = storageConfig w.
Proof. now intros [t ->]. Qed.

Lemma fsOnly_sameConfig w w' : fsOnly w w' -> sameConfig w w'.
Proof. intros [t ->]. apply sameConfig_with_fs. Qed.

Lemma fsOnly_mkdirSync h p w : fsOnly w (snd (mkdirSync h p w)).
Proof.
  unfold mkdirSync. destruct (blocked _ _); [apply fsOnly_refl|].
  destruct (lookup _ _) as [[m d|es]|];
    try apply fsOnly_refl. apply fsOnly_with_fs.
Qed.

Lemma fsOnly_ensureDir h p w : fsOnly w (snd (ensureDir h p w)).
Proof.
  unfold ensureDir, existsSync. rewrite bind_gets.
  destruct (lookup _ _); cbn [negb when];
    [apply fsOnly_refl|apply fsOnly_mkdirSync].
Qed.

Lemma fsOnly_unlinkSync h p w : fsOnly w (snd (unlinkSync h p w)).
Proof.
  unfold unlinkSync. destruct (lookup _ _) as [[m d|es]|];
    try apply fsOnly_refl. apply fsOnly_with_fs.
Qed.

Lemma fsOnly_writeFileSync h p v w : fsOnly w (snd (writeFileSync h p v w)).
Proof.
  unfold writeFileSync. destruct (blocked _ _); [apply fsOnly_refl|].
  destruct (lookup (fs w) (segments h p)) as [[m d|es]|];
    try apply fsOnly_refl; try apply fsOnly_with_fs.
  destruct (lookup _ _) as [[m d|es]|];
    try apply fsOnly_refl. apply fsOnly_with_fs.
Qed.

Lemma unlinkSync_frame h p w :
  sameOutside (segments h p) (fs w) (fs (snd (unlinkSync h p w))).
Proof.
  unfold unlinkSync. destruct (lookup _ _) as [[m d|es]|];
    try apply sameOutside_refl. apply sameOutside_alter.
Qed.

Lemma writeFileSync_frame h p v w :
  sameOutside (segments h p) (fs w) (fs (snd (writeFileSync h p v w))).
Proof.
  unfold writeFileSync. destruct (blocked _ _); [apply sameOutside_refl|].
  destruct (lookup (fs w) (segments h p)) as [[m d|es]|];
    try apply sameOutside_refl; try apply sameOutside_alter.
  destruct (lookup _ _) as [[m d|es]|];
    try apply sameOutside_refl. apply sameOutside_alter.
Qed.

(** A frame below [P] is a frame at [P]. *)
Lemma sameOutside_below (P r : list string) t t' :
  sameOutside (P ++ r) t t' -> sameOutside P t t'.
Proof.
  intros H q Hq. apply H. now apply incomparable_app_l.
Qed.

(** What stands at a path has all its ancestors. *)
Lemma ancestor_present t (P r : list string) n :
  lookup t (P ++ r) = Some n -> exists m, lookup t P = Some m.
Proof.
  unfold lookup. rewrite TreeFacts.lookupo_app.
  destruct (lookupo (Some t) P) as [m|]; [now exists m|].
  now rewrite TreeFacts.lookupo_None.
Qed.

(** ** [getDataDir] *)

Lemma getDataDir_present h w n :
  lookup (fs w)
    (segments h (Path.join (getStorageBasePath h (storageConfig w))
                           "projects")) = Some n ->
  getDataDir h w
  = (Ret (Path.join (getStorageBasePath h (storageConfig w)) "projects"), w).
Proof.
  intros H. unfold getDataDir.
  rewrite (bind_ret_run _ _ w _ w (root_present h "projects" w n H)).
  unfold existsSync. rewrite bind_gets, H. reflexivity.
Qed.

(** However [getDataDir] ends, it has touched the project root at most,
    and when it returns, it returns the project root and something stands
    there. *)
Lemma getDataDir_run h w :
  let dataDir :=
    Path.join (getStorageBasePath h (storageConfig w)) "projects" in
  fsOnly w (snd (getDataDir h w))
  /\ sameOutside (segments h dataDir) (fs w) (fs (snd (getDataDir h w)))
  /\ forall d, fst (getDataDir h w) = Ret d ->
               d = dataDir
               /\ exists n,
                   lookup (fs (snd (getDataDir h w))) (segments h dataDir)
                   = Some n.
Proof.
  intros dataDir.
  destruct (lookup (fs w) (segments h dataDir)) as [n|] eqn:E.
  - rewrite (getDataDir_present h w n E). cbn [fst snd].
    split; [apply fsOnly_refl|]. split; [apply sameOutside_refl|].
    intros d [= <-]. split; [reflexivity|now exists n].
  - destruct (blocked (fs w) (segments h dataDir)) eqn:Hb.
    + assert (Hroot : exists e, getProjectDataRoot h w = (Throw e, w)).
      { unfold getProjectDataRoot. rewrite bind_gets. cbv zeta.
        fold dataDir. unfold ensureDir, existsSync, bind, gets.
        rewrite E. cbn [negb when]. unfold mkdirSync.
        rewrite Hb. now eexists. }
      destruct Hroot as [e Hroot]. unfold getDataDir.
      rewrite (bind_throw_run _ _ w e w Hroot). cbn [fst snd].
      split; [apply fsOnly_refl|]. split; [apply sameOutside_refl|].
      intros d. discriminate.
    + assert (Hne : segments h dataDir <> []).
      { intros Hr. rewrite Hr in E. unfold lookup in E. discriminate. }
      set (t1 := alter (fun _ => Some (Dir [])) (segments h dataDir) (fs w)).
      assert (H1 : lookup t1 (segments h dataDir) = Some (Dir []))
        by (unfold t1; now rewrite TreeFacts.lookup_alter_same).
      assert (Hroot : getProjectDataRoot h w = (Ret dataDir, with_fs w t1)).
      { unfold getProjectDataRoot. rewrite bind_gets. cbv zeta.
        fold dataDir.
        now rewrite (bind_ret_run _ _ w tt (with_fs w t1)
                       (ensureDir_absent h dataDir w E Hb)). }
      unfold getDataDir.
      rewrite (bind_ret_run _ _ w dataDir (with_fs w t1) Hroot).
      unfold existsSync. rewrite bind_gets. cbn [fs with_fs]. rewrite H1.
      cbn [negb when bind ret fst snd].
      split; [apply fsOnly_with_fs|].
      split; [apply sameOutside_alter|].
      intros d [= <-]. split; [reflexivity|]. cbn [fs with_fs].
      now exists (Dir []).
Qed.

End StoreFacts.

Module StoreRuns.
Import Tree CopyFacts RunFacts ImportSteps StoreFacts.
Local Open Scope list_scope.

Lemma writeFileSync_success h p v w w2 :
  writeFileSync h p v w = (Ret tt, w2) ->
  blocked (fs w) (segments h p) = false
  /\ w2 = with_fs w (alter (fun _ => Some (File (now w) v)) (segments h p)
                           (fs w)).
Proof.
  unfold writeFileSync. destruct (blocked _ _); [discriminate|].
  destruct (lookup (fs w) (segments h p)) as [[m d|es]|];
    try discriminate; [intros [= <-]; now split|].
  destruct (lookup _ _) as [[m d|es]|]; try discriminate.
  intros [= <-]. now split.
Qed.

Lemma readFileSync_file h p w m d :
  lookup (fs w) (segments h p) = Some (File m d) ->
  readFileSync h p w = (Ret d, w).
Proof.
  intros H. unfold readFileSync.
  rewrite (TreeFacts.lookupo_Some_not_blocked _ _ _ H : blocked _ _ = false).
  now rewrite H.
Qed.

(** Rewriting below a directory leaves a directory there. *)
Lemma dir_kept_above g (P r : list string) t es :
  lookup t P = Some (Dir es) -> r <> [] ->
  exists es', lookup (alter g (P ++ r) t) P = Some (Dir es').
Proof.
  intros H Hr.
  rewrite TreeFacts.lookup_alter_above;
    [|now destruct P, r|exact (TreeFacts.lookupo_Some_not_blocked _ _ _ H)].
  rewrite H. destruct r as [|x r]; [congruence|]. simpl. now eexists.
Qed.

(** An ancestor of something that is there is a directory. *)
Lemma ancestor_is_dir t (P r : list string) n :
  lookup t (P ++ r) = Some n -> r <> [] -> exists es, lookup t P = Some (Dir es).
Proof.
  unfold lookup. rewrite TreeFacts.lookupo_app. intros H Hr.
  destruct (lookupo (Some t) P) as [[m d|es]|].
  - rewrite TreeFacts.lookupo_File in H by assumption. discriminate.
  - now exists es.
  - rewrite TreeFacts.lookupo_None in H. discriminate.
Qed.

Lemma dataDir_absolute h w :
  hostOk h ->
  Path.isAbsolute
    (Path.join (getStorageBasePath h (storageConfig w)) "projects") = true.
Proof.
  intros Hh. apply join_isAbsolute. now apply getStorageBasePath_isAbsolute.
Qed.

End StoreRuns.

(** X17.  The file storage gives back what it was given: when
    [file-storage-set] answers [true] for a key and a value,
    [file-storage-get] for that key, asked right after it, answers with
    that value. *)
Theorem file_storage_set_then_get
        (h : Host) (key value : string) (w : World) :
  hostOk h ->
  fst (file_storage_set h key value w) = Ret true ->
  fst (file_storage_get h key (snd (file_storage_set h key value w)))
  = Ret (Some value).
Proof.
  intros Hh Hset.
  set (dataDir :=
         Path.join (getStorageBasePath h (storageConfig w)) "projects").
  set (filePath := Path.join dataDir (key ++ ".json")).
  assert (Hd : Path.isAbsolute dataDir = true)
    by now apply StoreRuns.dataDir_absolute.
  destruct (invalidKey key) eqn:Ek;
    [unfold file_storage_set, tryCatch in Hset; rewrite Ek in Hset;
     discriminate|].
  assert (Hk : JsText.includes key ".." = false)
    by (unfold invalidKey in Ek; now apply orb_false_iff in Ek as [Ek _]).
  destruct (KeyFacts.segments_keyFile h dataDir key Hd Hk)
    as (r & Hr & _ & HF & _). fold filePath in HF.
  rewrite <- (segments_abs h dataDir Hd) in HF.
  destruct (StoreFacts.getDataDir_run h w) as (Hfs1 & _ & Hret).
  fold dataDir in Hret.
  assert (Hrun : exists w2 m,
             file_storage_set h key value w = (Ret true, w2)
             /\ fsOnly w w2
             /\ Tree.lookup (fs w2) (segments h filePath)
                = Some (Tree.File m value)).
  { unfold file_storage_set, tryCatch in Hset |- *. rewrite Ek in Hset |- *.
    destruct (getDataDir h w) as [[d|e] w1] eqn:Eg;
      [|rewrite (ImportSteps.bind_throw_run _ _ w e w1 Eg) in Hset;
        discriminate].
    destruct (Hret d eq_refl) as [-> _]. cbn [snd] in Hfs1.
    rewrite (ImportSteps.bind_ret_run _ _ w _ w1 Eg) in Hset |- *.
    cbv zeta in Hset |- *. fold filePath in Hset |- *.
    pose proof (StoreFacts.fsOnly_ensureDir h (Path.dirname filePath) w1)
      as Hfs2.
    destruct (ensureDir h (Path.dirname filePath) w1) as [[[]|e] w1'] eqn:Ee;
      [|rewrite (ImportSteps.bind_throw_run _ _ w1 e w1' Ee) in Hset;
        discriminate].
    cbn [snd] in Hfs2.
    rewrite (ImportSteps.bind_ret_run _ _ w1 _ w1' Ee) in Hset |- *.
    destruct (writeFileSync h filePath value w1') as [[[]|e] w2] eqn:Ew;
      [|rewrite (ImportSteps.bind_throw_run _ _ w1' e w2 Ew) in Hset;
        discriminate].
    rewrite (ImportSteps.bind_ret_run _ _ w1' _ w2 Ew).
    destruct (StoreRuns.writeFileSync_success _ _ _ _ _ Ew) as [Hb ->].
    eexists; eexists. split; [reflexivity|]. split.
    - eapply StoreFacts.fsOnly_trans; [exact Hfs1|].
      eapply StoreFacts.fsOnly_trans; [exact Hfs2|].
      apply StoreFacts.fsOnly_with_fs.
    - cbn [fs with_fs]. rewrite lookup_alter_same;
        [reflexivity|rewrite HF; now destruct (segments h dataDir), r
        |exact Hb]. }
  destruct Hrun as (w2 & m & -> & Hfs & Hat). cbn [snd].
  assert (Hcfg : storageConfig w2 = storageConfig w)
    by now apply StoreFacts.fsOnly_config.
  assert (Hroot : exists n, Tree.lookup (fs w2) (segments h dataDir) = Some n).
  { rewrite HF in Hat. exact (StoreFacts.ancestor_present _ _ _ _ Hat). }
  destruct Hroot as [n Hn].
  unfold file_storage_get, tryCatch. rewrite Ek. unfold bind at 1.
  rewrite (StoreFacts.getDataDir_present h w2 n)
    by (rewrite Hcfg; exact Hn).
  rewrite Hcfg. fold dataDir filePath.
  unfold existsSync. rewrite RunFacts.bind_gets, Hat. unfold bind.
  now rewrite (StoreRuns.readFileSync_file h filePath w2 m value Hat).
Qed.

Lemma file_storage_set_then_get_witness :
  fst (file_storage_set Sample.host "_p/p1/script" "{}" Sample.world)
  = Ret true
  /\ fst (file_storage_get Sample.host "_p/p1/script"
            (snd (file_storage_set Sample.host "_p/p1/script" "{}"
                                   Sample.world)))
     = Ret (Some "{}").
Proof.
  split; [reflexivity|].
  apply (file_storage_set_then_get Sample.host "_p/p1/script" "{}"
           Sample.world); [repeat split|reflexivity].
Defined.

(** X18.  After [file-storage-remove] has answered [true] for a key, the
    key is gone: [file-storage-exists] answers [false] and
    [file-storage-get] answers [null] for it. *)
Theorem file_storage_remove_then_absent (h : Host) (key : string) (w : World) :
  hostOk h ->
  fst (file_storage_remove h key w) = Ret true ->
  fst (file_storage_exists h key (snd (file_storage_remove h key w)))
  = Ret false
  /\ fst (file_storage_get h key (snd (file_storage_remove h key w)))
     = Ret None.
Proof.
  intros Hh Hrm.
  set (dataDir :=
         Path.join (getStorageBasePath h (storageConfig w)) "projects").
  set (filePath := Path.join dataDir (key ++ ".json")).
  assert (Hd : Path.isAbsolute dataDir = true)
    by now apply StoreRuns.dataDir_absolute.
  destruct (invalidKey key) eqn:Ek;
    [unfold file_storage_remove, tryCatch in Hrm; rewrite Ek in Hrm;
     discriminate|].
  assert (Hk : JsText.includes key ".." = false)
    by (unfold invalidKey in Ek; now apply orb_false_iff in Ek as [Ek _]).
  destruct (KeyFacts.segments_keyFile h dataDir key Hd Hk)
    as (r & Hr & _ & HF & _). fold filePath in HF.
  rewrite <- (segments_abs h dataDir Hd) in HF.
  destruct (StoreFacts.getDataDir_run h w) as (Hfs1 & _ & Hret).
  fold dataDir in Hret.
  assert (Hrun : exists w2 n,
             file_storage_remove h key w = (Ret true, w2)
             /\ fsOnly w w2
             /\ Tree.lookup (fs w2) (segments h dataDir) = Some n
             /\ Tree.lookup (fs w2) (segments h filePath) = None).
  { unfold file_storage_remove, tryCatch in Hrm |- *.
    rewrite Ek in Hrm |- *.
    destruct (getDataDir h w) as [[d|e] w1] eqn:Eg;
      [|rewrite (ImportSteps.bind_throw_run _ _ w e w1 Eg) in Hrm;
        discriminate].
    destruct (Hret d eq_refl) as [-> [n Hn]]. cbn [snd] in Hfs1, Hn.
    rewrite (ImportSteps.bind_ret_run _ _ w _ w1 Eg) in Hrm |- *.
    cbv zeta in Hrm |- *. fold filePath in Hrm |- *.
    unfold existsSync in Hrm |- *. rewrite RunFacts.bind_gets in Hrm |- *.
    destruct (Tree.lookup (fs w1) (segments h filePath)) as [c|] eqn:Ef.
    - cbn [when] in Hrm |- *. unfold bind, unlinkSync in Hrm |- *.
      rewrite Ef in Hrm |- *.
      destruct c as [m d|es]; [|discriminate].
      rewrite HF in Ef.
      destruct (StoreRuns.ancestor_is_dir _ _ _ _ Ef Hr) as [es Hes].
      destruct (StoreRuns.dir_kept_above (fun _ => None) _ r _ _ Hes Hr)
        as [es' Hes'].
      eexists; eexists. split; [reflexivity|]. cbn [fs with_fs].
      split; [|split].
      + eapply StoreFacts.fsOnly_trans; [exact Hfs1|].
        apply StoreFacts.fsOnly_with_fs.
      + rewrite HF. exact Hes'.
      + apply lookup_removed. rewrite HF. now destruct (segments h dataDir), r.
    - cbn [when bind ret]. eexists; eexists. split; [reflexivity|].
      split; [exact Hfs1|]. split; [exact Hn|exact Ef]. }
  destruct Hrun as (w2 & n & -> & Hfs & Hn & Hat). cbn [snd].
  assert (Hcfg : storageConfig w2 = storageConfig w)
    by now apply StoreFacts.fsOnly_config.
  assert (Hroot : getDataDir h w2 = (Ret dataDir, w2)).
  { rewrite (StoreFacts.getDataDir_present h w2 n);
      rewrite Hcfg; [reflexivity|exact Hn]. }
  split.
  - unfold file_storage_exists, tryCatch. rewrite Ek.
    rewrite (ImportSteps.bind_ret_run _ _ w2 _ w2 Hroot).
    fold filePath. unfold existsSync, gets. now rewrite Hat.
  - unfold file_storage_get, tryCatch. rewrite Ek.
    rewrite (ImportSteps.bind_ret_run _ _ w2 _ w2 Hroot).
    fold filePath. unfold existsSync. rewrite RunFacts.bind_gets.
    now rewrite Hat.
Qed.

Lemma file_storage_remove_then_absent_witness :
  fst (file_storage_get Sample.host "a" Sample.world) = Ret (Some "A")
  /\ fst (file_storage_remove Sample.host "a" Sample.world) = Ret true
  /\ fst (file_storage_get Sample.host "a"
            (snd (file_storage_remove Sample.host "a" Sample.world)))
     = Ret None.
Proof.
  split; [reflexivity|]. split; [reflexivity|].
  apply (file_storage_remove_then_absent Sample.host "a" Sample.world);
    [repeat split|reflexivity].
Defined.

Module WithinFacts.
Import Tree CopyFacts RunFacts ImportSteps StoreFacts.
Local Open Scope list_scope.

Lemma within_refl P w : within P w w.
Proof. split; [apply fsOnly_refl|apply sameOutside_refl]. Qed.

Lemma within_trans P w1 w2 w3 :
  within P w1 w2 -> within P w2 w3 -> within P w1 w3.
Proof.
  intros [F1 S1] [F2 S2]. split;
    [eapply fsOnly_trans|eapply sameOutside_trans]; eassumption.
Qed.

Lemma within_below (P r : list string) w w' :
  within (P ++ r) w w' -> within P w w'.
Proof. intros [F S]. split; [exact F|now apply sameOutside_below in S]. Qed.

Lemma within_bind {A B} P (m : M A) (k : A -> M B) w :
  within P w (snd (m w)) ->
  (forall a, fst (m w) = Ret a -> within P (snd (m w)) (snd (k a (snd (m w))))) ->
  within P w (snd (bind m k w)).
Proof.
  intros Hm Hk. unfold bind. destruct (m w) as [[a|e] w1]; cbn [fst snd] in *.
  - eapply within_trans; [exact Hm|]. now apply Hk.
  - exact Hm.
Qed.

Lemma within_tryCatch_ret {A} P (m : M A) (x : A) w :
  within P w (snd (m w)) ->
  within P w (snd (tryCatch m (fun _ => ret x) w)).
Proof.
  intros H. unfold tryCatch. now destruct (m w) as [[a|e] w1].
Qed.

Lemma within_ret {A} P (a : A) w : within P w (snd (ret a w)).
Proof. apply within_refl. Qed.

Lemma within_ensureDir h p w :
  within (segments h p) w (snd (ensureDir h p w)).
Proof. split; [apply fsOnly_ensureDir|apply FrameFacts.ensureDir_frame]. Qed.

Lemma within_writeFileSync h p v w :
  within (segments h p) w (snd (writeFileSync h p v w)).
Proof. split; [apply fsOnly_writeFileSync|apply writeFileSync_frame]. Qed.

Lemma within_unlinkSync h p w :
  within (segments h p) w (snd (unlinkSync h p w)).
Proof. split; [apply fsOnly_unlinkSync|apply unlinkSync_frame]. Qed.

Lemma within_existsSync h P p w : within P w (snd (existsSync h p w)).
Proof. apply within_refl. Qed.

Lemma within_readFileSync h P p w : within P w (snd (readFileSync h p w)).
Proof.
  unfold readFileSync. destruct (blocked _ _); [apply within_refl|].
  destruct (lookup _ _) as [[m d|es]|]; apply within_refl.
Qed.

Lemma within_getDataDir h w :
  within (segments h (Path.join (getStorageBasePath h (storageConfig w))
                                "projects"))
         w (snd (getDataDir h w)).
Proof. destruct (getDataDir_run h w) as (F & S & _). now split. Qed.

Lemma within_config P w w' :
  within P w w' -> storageConfig w' = storageConfig w.
Proof. intros [F _]. now apply fsOnly_config. Qed.

End WithinFacts.

(** X19.  The keyed handlers of the file storage stay inside the project
    data root: whatever the key and however the call ends, [set], [get],
    [remove] and [exists] leave the Config Store alone and change nothing
    in the file system that is not at, above or below the project data
    root.  A key that contains two dots in a row or is an absolute path is
    turned away before anything is touched. *)
Theorem file_storage_stays_in_data_root
        (h : Host) (key value : string) (w : World) :
  hostOk h ->
  let P := segments h (Path.join (getStorageBasePath h (storageConfig w))
                                 "projects") in
  within P w (snd (file_storage_set h key value w))
  /\ within P w (snd (file_storage_get h key w))
  /\ within P w (snd (file_storage_remove h key w))
  /\ within P w (snd (file_storage_exists h key w))
  /\ (invalidKey key = true ->
      file_storage_set h key value w = (Ret false, w)
      /\ file_storage_get h key w = (Ret None, w)
      /\ file_storage_remove h key w = (Ret false, w)
      /\ file_storage_exists h key w = (Ret false, w)).
Proof.
  intros Hh P.
  set (dataDir :=
         Path.join (getStorageBasePath h (storageConfig w)) "projects").
  assert (Hd : Path.isAbsolute dataDir = true)
    by now apply StoreRuns.dataDir_absolute.
  assert (HP : P = absSegs dataDir) by now apply segments_abs.
  destruct (StoreFacts.getDataDir_run h w) as (_ & _ & Hret).
  fold dataDir in Hret.
  destruct (invalidKey key) eqn:Ek.
  { unfold file_storage_set, file_storage_get, file_storage_remove,
      file_storage_exists, tryCatch. rewrite Ek. cbn [ret snd].
    do 4 (split; [apply WithinFacts.within_refl|]).
    intros _. repeat split. }
  assert (Hk : JsText.includes key ".." = false)
    by (unfold invalidKey in Ek; now apply orb_false_iff in Ek as [Ek _]).
  destruct (KeyFacts.segments_keyFile h dataDir key Hd Hk)
    as (r & _ & _ & HF & _).
  destruct (KeyFacts.segments_keyFile_parent h dataDir key Hd Hk)
    as (r' & HF').
  rewrite <- HP in HF, HF'.
  assert (Hfile : forall v, within P v
                    (snd (writeFileSync h (Path.join dataDir (key ++ ".json"))
                                        value v))).
  { intros v. apply (WithinFacts.within_below P r). rewrite <- HF.
    apply WithinFacts.within_writeFileSync. }
  assert (Hparent : forall v, within P v
                      (snd (ensureDir h
                              (Path.dirname
                                 (Path.join dataDir (key ++ ".json"))) v))).
  { intros v. apply (WithinFacts.within_below P r'). rewrite <- HF'.
    apply WithinFacts.within_ensureDir. }
  assert (Hunlink : forall v, within P v
                      (snd (unlinkSync h (Path.join dataDir (key ++ ".json"))
                                       v))).
  { intros v. apply (WithinFacts.within_below P r). rewrite <- HF.
    apply WithinFacts.within_unlinkSync. }
  split; [|split; [|split; [|split; [|discriminate]]]].
  - unfold file_storage_set. rewrite Ek.
    apply WithinFacts.within_tryCatch_ret, WithinFacts.within_bind;
      [apply WithinFacts.within_getDataDir|].
    intros d Hdd. destruct (Hret d Hdd) as [-> _]. cbv zeta.
    apply WithinFacts.within_bind; [apply Hparent|]. intros _ _.
    apply WithinFacts.within_bind; [apply Hfile|]. intros _ _.
    apply WithinFacts.within_ret.
  - unfold file_storage_get. rewrite Ek.
    apply WithinFacts.within_tryCatch_ret, WithinFacts.within_bind;
      [apply WithinFacts.within_getDataDir|].
    intros d Hdd. cbv zeta.
    apply WithinFacts.within_bind; [apply WithinFacts.within_existsSync|].
    intros [] _; [|apply WithinFacts.within_ret].
    apply WithinFacts.within_bind; [apply WithinFacts.within_readFileSync|].
    intros data _. apply WithinFacts.within_ret.
  - unfold file_storage_remove. rewrite Ek.
    apply WithinFacts.within_tryCatch_ret, WithinFacts.within_bind;
      [apply WithinFacts.within_getDataDir|].
    intros d Hdd. destruct (Hret d Hdd) as [-> _]. cbv zeta.
    apply WithinFacts.within_bind; [apply WithinFacts.within_existsSync|].
    intros e _. apply WithinFacts.within_bind;
      [|intros _ _; apply WithinFacts.within_ret].
    destruct e; cbn [when]; [apply Hunlink|apply WithinFacts.within_ret].
  - unfold file_storage_exists. rewrite Ek.
    apply WithinFacts.within_tryCatch_ret, WithinFacts.within_bind;
      [apply WithinFacts.within_getDataDir|].
    intros d Hdd. cbv zeta. apply WithinFacts.within_existsSync.
Qed.

Lemma file_storage_stays_in_data_root_witness :
  file_storage_set Sample.host "../media/m" "x" Sample.world
  = (Ret false, Sample.world)
  /\ within ["data"; "base"; "projects"] Sample.world
            (snd (file_storage_set Sample.host "notes/today" "x"
                                   Sample.world)).
Proof.
  assert (Hh : hostOk Sample.host) by (repeat split).
  split.
  - apply (file_storage_stays_in_data_root Sample.host "../media/m" "x"
             Sample.world Hh). reflexivity.
  - apply (file_storage_stays_in_data_root Sample.host "notes/today" "x"
             Sample.world Hh).
Defined.

(* ================================================================== *)
(** * The retired link handlers *)
(* ================================================================== *)

Module ParentFacts.
Import JsString Path PathFacts SegmentFacts ResolveFacts.
Local Open Scope list_scope.

(** The parent of [base/name] is [base], written out in normal form. *)
Lemma dirname_join B x :
  isAbsolute B = true -> plainName x = true ->
  dirname (join B x) = ("/" ++ unsplit (absSegs B))%string.
Proof.
  intros HB Hx. rewrite join_abs_plain by assumption.
  apply KeyFacts.dirname_render; [apply absSegs_plain|assumption].
Qed.

Lemma absSegs_normal B :
  absSegs ("/" ++ unsplit (absSegs B)) = absSegs B.
Proof. apply absSegs_render, absSegs_plain. Qed.

Lemma join_normal B x :
  isAbsolute B = true -> plainName x = true ->
  join ("/" ++ unsplit (absSegs B)) x = join B x.
Proof.
  intros HB Hx. rewrite !join_abs_plain by (assumption || reflexivity).
  now rewrite absSegs_normal.
Qed.

End ParentFacts.

(** X20.  The retired handlers [storage-link-project-data] and
    [storage-link-media-data] check nothing: for every path they answer
    with success, change no file or directory other than the stored
    configuration and make the parent of the normalised path the
    configured base path.  Given [base/name] for an
    absolute [base] they point the base path at [base]; provided [base] in
    normal form has no white space at either end, joining the base path
    resolved afterwards with [name] gives back the path that was handed
    in. *)
Theorem legacy_link_takes_parent
        (h : Host) (base name : string) (w : World) :
  (forall dirPath,
      storage_link_media_data h dirPath w = storage_link_project_data h dirPath w
      /\ exists w',
          storage_link_project_data h dirPath w
          = (Ret (succeeded (Some (Path.dirname (normalizePath h dirPath)))),
             w')
          /\ fs w' = fs w
          /\ basePath (storageConfig w')
             = Some (Path.dirname (normalizePath h dirPath)))
  /\ (hostOk h -> Path.isAbsolute base = true -> plainName name = true ->
      let dirPath := Path.join base name in
      JsString.trim (Path.dirname dirPath) = Path.dirname dirPath ->
      segments h (Path.dirname dirPath) = segments h base
      /\ Path.join
           (getStorageBasePath h
              (storageConfig (snd (storage_link_project_data h dirPath w))))
           name
         = dirPath).
Proof.
  split.
  - intros dirPath. split; [reflexivity|].
    eexists. split; [reflexivity|]. now split.
  - intros Hh HB Hx dirPath Htrim.
    assert (Hd : Path.dirname dirPath
                 = ("/" ++ Path.unsplit (absSegs base))%string)
      by now apply ParentFacts.dirname_join.
    assert (Hj : Path.isAbsolute dirPath = true)
      by now apply join_abs_isAbsolute.
    split.
    + rewrite Hd, !segments_abs by (assumption || reflexivity).
      apply ParentFacts.absSegs_normal.
    + unfold storage_link_project_data, bind, mergeStorageConfig,
        saveStorageConfig, modify, ret. cbn [snd storageConfig with_config
                                             with_configFile].
      assert (Hn : normalizePath h dirPath = dirPath)
        by (unfold normalizePath; now rewrite Hj).
      rewrite Hn, LinkFacts.base_of_repoint;
        [|rewrite Hd; reflexivity|exact Htrim].
      rewrite Hd. now apply ParentFacts.join_normal.
Qed.

Lemma legacy_link_takes_parent_witness :
  Path.join
    (getStorageBasePath Sample.host
       (storageConfig
          (snd (storage_link_project_data Sample.host "/src2/projects"
                                          Sample.world))))
    "projects"
  = "/src2/projects".
Proof.
  apply (legacy_link_takes_parent Sample.host "/src2" "projects"
           Sample.world); try reflexivity. repeat split.
Defined.

(* ================================================================== *)
(** * Resolving the roots *)
(* ================================================================== *)

Module RootFacts.
Import Tree CopyFacts RunFacts ImportSteps.
Local Open Scope list_scope.

(** The three ways in which a root is resolved: it is there, it cannot be
    made, or it is made. *)
Lemma root_run h sub w :
  let dir := Path.join (getStorageBasePath h (storageConfig w)) sub in
  let run := (c <- gets storageConfig ;;
              let base := Path.join (getStorageBasePath h c) sub in
              ensureDir h base ;; ret base)%js in
  (exists n, lookup (fs w) (segments h dir) = Some n /\ run w = (Ret dir, w))
  \/ (exists e, lookup (fs w) (segments h dir) = None /\ run w = (Throw e, w))
  \/ (lookup (fs w) (segments h dir) = None
      /\ blocked (fs w) (segments h dir) = false
      /\ segments h dir <> []
      /\ run w
         = (Ret dir,
            with_fs w (alter (fun _ => Some (Dir [])) (segments h dir)
                             (fs w)))).
Proof.
  intros dir run.
  destruct (lookup (fs w) (segments h dir)) as [n|] eqn:E.
  - left. exists n. split; [reflexivity|].
    exact (root_present h sub w n E).
  - right. destruct (blocked (fs w) (segments h dir)) eqn:Hb.
    + left. unfold run. rewrite bind_gets. cbv zeta. fold dir.
      unfold ensureDir, existsSync, bind, gets. rewrite E.
      cbn [negb when]. unfold mkdirSync. rewrite Hb. now eexists.
    + right. repeat split; try assumption.
      * intros Hr. rewrite Hr in E. unfold lookup in E. discriminate.
      * unfold run. rewrite bind_gets. cbv zeta. fold dir.
        now rewrite (bind_ret_run _ _ w tt _ (ensureDir_absent h dir w E Hb)).
Qed.

Lemma roots_apart h c :
  hostOk h ->
  incomparable
    (segments h (Path.join (getStorageBasePath h c) "projects"))
    (segments h (Path.join (getStorageBasePath h c) "media")).
Proof.
  intros Hh. rewrite !segments_join
    by (try reflexivity; now apply getStorageBasePath_isAbsolute).
  apply siblings_apart. discriminate.
Qed.

End RootFacts.

(** X21.  [storage-get-paths] may make the two roots, but it settles at
    once: called again on the state it left, it ends the same way, with
    the same answer or the same error, and changes nothing.  When it
    returns, both roots are there. *)
Theorem get_paths_settles (h : Host) (w : World) :
  hostOk h ->
  storage_get_paths h (snd (storage_get_paths h w)) = storage_get_paths h w
  /\ forall p,
      fst (storage_get_paths h w) = Ret p ->
      Tree.lookup (fs (snd (storage_get_paths h w)))
                  (segments h (StoragePaths.projectPath p)) <> None
      /\ Tree.lookup (fs (snd (storage_get_paths h w)))
                     (segments h (StoragePaths.mediaPath p)) <> None.
Proof.
  intros Hh.
  pose proof (RootFacts.roots_apart h (storageConfig w) Hh) as Hap.
  set (P := segments h (Path.join (getStorageBasePath h (storageConfig w))
                                  "projects")) in *.
  set (Mr := segments h (Path.join (getStorageBasePath h (storageConfig w))
                                   "media")) in *.
  assert (Hstep :
            forall w1 n,
              storageConfig w1 = storageConfig w ->
              Tree.lookup (fs w1) P = Some n ->
              exists r w2,
                (mediaPath <- getMediaRoot h ;;
                 ret (StoragePaths.mk
                        (getStorageBasePath h (storageConfig w))
                        (Path.join (getStorageBasePath h (storageConfig w))
                                   "projects")
                        mediaPath
                        (Path.join (userData h) "Cache")))%js w1 = (r, w2)
                /\ storageConfig w2 = storageConfig w
                /\ Tree.lookup (fs w2) P <> None
                /\ (mediaPath <- getMediaRoot h ;;
                    ret (StoragePaths.mk
                           (getStorageBasePath h (storageConfig w))
                           (Path.join (getStorageBasePath h (storageConfig w))
                                      "projects")
                           mediaPath
                           (Path.join (userData h) "Cache")))%js w2 = (r, w2)
                /\ forall p, r = Ret p ->
                             StoragePaths.mediaPath p
                             = Path.join
                                 (getStorageBasePath h (storageConfig w))
                                 "media"
                             /\ StoragePaths.projectPath p
                                = Path.join
                                    (getStorageBasePath h (storageConfig w))
                                    "projects"
                             /\ Tree.lookup (fs w2) Mr <> None).
  { intros w1 n Hc1 Hn.
    destruct (RootFacts.root_run h "media" w1)
      as [(m & Hm & E)|[(e & Hm & E)|(Hm & Hb & Hne & E)]];
      rewrite Hc1 in *; fold Mr in Hm, E.
    - exists (Ret (StoragePaths.mk
                     (getStorageBasePath h (storageConfig w))
                     (Path.join (getStorageBasePath h (storageConfig w))
                                "projects")
                     (Path.join (getStorageBasePath h (storageConfig w))
                                "media")
                     (Path.join (userData h) "Cache"))), w1.
      unfold getMediaRoot.
      rewrite (ImportSteps.bind_ret_run _ _ w1 _ w1 E).
      split; [reflexivity|]. split; [exact Hc1|].
      split; [congruence|]. split; [reflexivity|].
      intros p [= <-].
      cbn [StoragePaths.mediaPath StoragePaths.projectPath].
      repeat split. congruence.
    - exists (Throw e), w1. unfold getMediaRoot.
      rewrite (ImportSteps.bind_throw_run _ _ w1 e w1 E).
      split; [reflexivity|]. split; [exact Hc1|].
      split; [congruence|]. split; [reflexivity|]. intros p. discriminate.
    - fold Mr in Hb, Hne.
      set (w2 := with_fs w1 (Tree.alter (fun _ => Some (Tree.Dir [])) Mr
                                        (fs w1))) in *.
      assert (H2 : Tree.lookup (fs w2) Mr = Some (Tree.Dir []))
        by (unfold w2; cbn [fs with_fs]; now rewrite lookup_alter_same).
      exists (Ret (StoragePaths.mk
                     (getStorageBasePath h (storageConfig w))
                     (Path.join (getStorageBasePath h (storageConfig w))
                                "projects")
                     (Path.join (getStorageBasePath h (storageConfig w))
                                "media")
                     (Path.join (userData h) "Cache"))), w2.
      unfold getMediaRoot.
      rewrite (ImportSteps.bind_ret_run _ _ w1 _ w2 E).
      split; [reflexivity|]. split; [exact Hc1|]. split.
      { unfold w2. cbn [fs with_fs].
        rewrite lookup_alter_frame by now apply incomparable_sym.
        congruence. }
      split.
      { pose proof (ImportSteps.root_present h "media" w2 (Tree.Dir [])) as Hr.
        replace (storageConfig w2) with (storageConfig w) in Hr
          by (symmetry; exact Hc1).
        now rewrite (ImportSteps.bind_ret_run _ _ w2 _ w2 (Hr H2)). }
      intros p [= <-].
      cbn [StoragePaths.mediaPath StoragePaths.projectPath].
      repeat split. congruence. }
  unfold storage_get_paths. rewrite !RunFacts.bind_gets. cbv zeta.
  destruct (RootFacts.root_run h "projects" w)
    as [(n & Hn & E)|[(e & Hn & E)|(Hn & Hb & Hne & E)]]; fold P in Hn, E.
  - unfold getProjectDataRoot.
    rewrite (ImportSteps.bind_ret_run _ _ w _ w E).
    destruct (Hstep w n eq_refl Hn) as (r & w2 & E1 & Hc2 & HP2 & E2 & Hr).
    rewrite E1. cbn [fst snd]. rewrite Hc2.
    destruct (Tree.lookup (fs w2) P) as [n2|] eqn:En2; [|congruence].
    pose proof (ImportSteps.root_present h "projects" w2 n2) as Hr2.
    rewrite Hc2 in Hr2. fold P in Hr2.
    rewrite (ImportSteps.bind_ret_run _ _ w2 _ w2 (Hr2 En2)).
    split; [exact E2|].
    intros p Hp. destruct (Hr p Hp) as (-> & -> & HM).
    fold P Mr. split; congruence.
  - unfold getProjectDataRoot.
    rewrite (ImportSteps.bind_throw_run _ _ w e w E). cbn [fst snd].
    rewrite (ImportSteps.bind_throw_run _ _ w e w E).
    split; [reflexivity|]. intros p. discriminate.
  - fold P in Hb, Hne.
    set (w1 := with_fs w (Tree.alter (fun _ => Some (Tree.Dir [])) P (fs w)))
      in *.
    assert (H1 : Tree.lookup (fs w1) P = Some (Tree.Dir []))
      by (unfold w1; cbn [fs with_fs]; now rewrite lookup_alter_same).
    unfold getProjectDataRoot.
    rewrite (ImportSteps.bind_ret_run _ _ w _ w1 E).
    destruct (Hstep w1 _ eq_refl H1) as (r & w2 & E1 & Hc2 & HP2 & E2 & Hr).
    rewrite E1. cbn [fst snd]. rewrite Hc2.
    destruct (Tree.lookup (fs w2) P) as [n2|] eqn:En2; [|congruence].
    pose proof (ImportSteps.root_present h "projects" w2 n2) as Hr2.
    rewrite Hc2 in Hr2. fold P in Hr2.
    rewrite (ImportSteps.bind_ret_run _ _ w2 _ w2 (Hr2 En2)).
    split; [exact E2|].
    intros p Hp. destruct (Hr p Hp) as (-> & -> & HM).
    fold P Mr. split; congruence.
Qed.

Lemma get_paths_settles_witness :
  let w := Sample.worldAt "/fresh" in
  Tree.lookup (fs w) ["fresh"] = None
  /\ Tree.lookup (fs (snd (storage_get_paths Sample.host w)))
                 ["fresh"; "media"] = Some (Tree.Dir [])
  /\ storage_get_paths Sample.host (snd (storage_get_paths Sample.host w))
     = storage_get_paths Sample.host w.
Proof.
  split; [reflexivity|]. split; [reflexivity|].
  apply (get_paths_settles Sample.host (Sample.worldAt "/fresh")).
  repeat split.
Defined.

(* ================================================================== *)
(** * The auto-clean schedule *)
(* ================================================================== *)

Module ScheduleFacts.

Lemma negative_days_wholesale h d :
  d < 0 -> clearCache h (Some d) = clearCache h None.
Proof.
  intros Hd. unfold clearCache, ageThreshold.
  destruct (Z.ltb_spec 0 d); [lia|]. now rewrite andb_false_r.
Qed.

Lemma assignKey_again {A} (stored : option A) key :
  assignKey (assignKey stored key) key = assignKey stored key.
Proof. now destruct key. Qed.

(** The days a clean is started with: [autoCleanDays || 30]. *)
Lemma days_or_default (days : option Z) :
  (if truthyNumber days then days
   else autoCleanDays DEFAULT_STORAGE_CONFIG)
  = Some match days with
         | Some n => if n =? 0 then 30 else n
         | None => 30
         end.
Proof.
  unfold truthyNumber. destruct days as [n|]; [|reflexivity].
  now destruct (n =? 0).
Qed.

(** The handler in one step: the merged configuration is stored and
    saved, and the schedule follows it. *)
Lemma update_config_run enabled days autoCleanInterval w :
  let c := storageConfig w in
  let c' := {| basePath := basePath c;
               projectPath := projectPath c;
               mediaPath := mediaPath c;
               autoCleanEnabled := assignKey (autoCleanEnabled c) enabled;
               autoCleanDays := assignKey (autoCleanDays c) days |} in
  let d := match autoCleanDays c' with
           | Some n => if n =? 0 then 30 else n
           | None => 30
           end in
  storage_update_config enabled days autoCleanInterval w
  = (Ret (true,
          if truthyFlag (autoCleanEnabled c') then
            {| timer := Some (Some d); startedClean := Some (Some d) |}
          else {| timer := None; startedClean := None |}),
     with_configFile (with_config w c') c').
Proof.
  intros c c' d.
  unfold storage_update_config, mergeAutoClean, saveStorageConfig,
    scheduleAutoClean, bind, modify, gets, ret.
  cbn [storageConfig with_config with_configFile].
  fold c. fold c'. rewrite days_or_default. fold d.
  destruct (truthyFlag (autoCleanEnabled c')); [reflexivity|].
  now destruct autoCleanInterval.
Qed.

End ScheduleFacts.

(** X22.  [storage-update-config] always answers [true], changes no file
    or directory other than the stored configuration and leaves the
    resolved base path where it was.  A key it is not given keeps its
    stored value; a key given as [undefined] erases it.  With auto-clean
    off in the merged settings no timer is left and no clean is started.
    With auto-clean on, one clean is started and a timer armed, both with
    the merged number of days, where zero or no number stands for 30; a
    negative number makes every such clean a clearing without threshold.
    The same call once more gives the same schedule and changes
    nothing. *)
Theorem update_config_schedules
        (h : Host) (enabled : option (option bool)) (days : option (option Z))
        (autoCleanInterval : option (option Z)) (w : World) :
  let c := storageConfig w in
  let on := truthyFlag (assignKey (autoCleanEnabled c) enabled) in
  let d := match assignKey (autoCleanDays c) days with
           | Some n => if n =? 0 then 30 else n
           | None => 30
           end in
  exists s w',
    storage_update_config enabled days autoCleanInterval w
    = (Ret (true, s), w')
    /\ fs w' = fs w
    /\ getStorageBasePath h (storageConfig w') = getStorageBasePath h c
    /\ autoCleanEnabled (storageConfig w')
       = assignKey (autoCleanEnabled c) enabled
    /\ autoCleanDays (storageConfig w') = assignKey (autoCleanDays c) days
    /\ (on = false -> timer s = None /\ startedClean s = None)
    /\ (on = true ->
        d <> 0
        /\ timer s = Some (Some d) /\ startedClean s = Some (Some d)
        /\ (d < 0 -> autoClean h (Some d) = autoClean h None))
    /\ storage_update_config enabled days (timer s) w'
       = (Ret (true, s), w').
Proof.
  intros c on d.
  pose proof (ScheduleFacts.update_config_run enabled days
                                              autoCleanInterval w) as E.
  cbv zeta in E. cbn [autoCleanEnabled autoCleanDays] in E.
  fold c on d in E.
  eexists. eexists. split; [exact E|].
  split; [reflexivity|]. split; [reflexivity|].
  split; [reflexivity|]. split; [reflexivity|].
  split; [|split].
  - intros Hoff. rewrite Hoff. now split.
  - intros Hon. rewrite Hon. cbn [timer startedClean].
    split; [|split; [reflexivity|split; [reflexivity|]]].
    + unfold d. destruct (assignKey (autoCleanDays c) days) as [n|]; [|lia].
      destruct (Z.eqb_spec n 0); lia.
    + intros Hd. unfold autoClean.
      now rewrite (ScheduleFacts.negative_days_wholesale h d Hd).
  - rewrite ScheduleFacts.update_config_run.
    cbv zeta. cbn [storageConfig with_config with_configFile
                   autoCleanEnabled autoCleanDays basePath projectPath
                   mediaPath].
    rewrite !ScheduleFacts.assignKey_again. fold c on d.
    reflexivity.
Qed.

Lemma update_config_schedules_witness :
  let w := with_config Sample.world
             {| basePath := Some "/data/base"; projectPath := Some "";
                mediaPath := Some ""; autoCleanEnabled := Some true;
                autoCleanDays := Some 7 |} in
  exists s w',
    storage_update_config None (Some None) (Some (Some 7)) w
    = (Ret (true, s), w')
    /\ autoCleanDays (storageConfig w') = None
    /\ timer s = Some (Some 30) /\ startedClean s = Some (Some 30)
    /\ fs w' = fs w.
Proof.
  intros w.
  destruct (update_config_schedules Sample.host None (Some None)
                                    (Some (Some 7)) w)
    as (s & w' & E & Hfs & _ & _ & Hdays & _ & Hon & _).
  destruct (Hon eq_refl) as (_ & Ht & Hs & _).
  exists s, w'. split; [exact E|]. split; [exact Hdays|].
  split; [exact Ht|]. split; [exact Hs|exact Hfs].
Defined.

(* ================================================================== *)
(** * Import that succeeds *)
(* ================================================================== *)

Module SwapFacts.
Import Tree CopyFacts RunFacts ImportSteps StoreFacts.
Local Open Scope list_scope.

Lemma assoc_touch now x es :
  assoc x (map (fun e => (fst e, touch now (snd e))) es)
  = option_map (touch now) (assoc x es).
Proof.
  induction es as [|[y c] es IH]; [reflexivity|]. simpl.
  destruct (String.eqb x y); [reflexivity|exact IH].
Qed.

(** A copy holds a copy of whatever the original holds, at the same
    place. *)
Lemma lookupo_touch now r : forall o,
  lookupo (option_map (touch now) o) r = option_map (touch now) (lookupo o r).
Proof.
  induction r as [|x r IH]; intros o; [reflexivity|].
  destruct o as [[m d|es]|]; try reflexivity.
  cbn [option_map touch lookupo]. rewrite assoc_touch. apply IH.
Qed.

Lemma lookup_touch now n r :
  lookup (touch now n) r = option_map (touch now) (lookup n r).
Proof. exact (lookupo_touch now r (Some n)). Qed.

(** One live root is put aside in the backup directory, or left alone
    when it is empty. *)
Lemma backup_one h cur bk w (B : list string) x es :
  segments h bk = B ++ [x] ->
  lookup (fs w) (segments h cur) = Some (Dir es) -> NoDup (names es) ->
  incomparable B (segments h cur) ->
  lookup (fs w) (B ++ [x]) = None -> blocked (fs w) (B ++ [x]) = false ->
  cpFault w cur bk = None ->
  exists w',
    backupRoot h true cur bk w = (Ret tt, w')
    /\ fsOnly w w'
    /\ sameOutside (B ++ [x]) (fs w) (fs w')
    /\ (fs w' = fs w \/ dirAt (fs w') B).
Proof.
  intros Hbk Hcur Hnd Hi Hfree Hb Hf.
  destruct es as [|e es'] eqn:Ees.
  - exists w. split; [now apply backupRoot_empty|].
    split; [apply fsOnly_refl|]. split; [apply sameOutside_refl|now left].
  - rewrite <- Ees in *.
    destruct (copyDir_fresh h cur bk w es) as (t' & E & Hat & Hout);
      try assumption; rewrite ?Hbk; try assumption.
    { now apply incomparable_snoc_l. }
    exists (with_fs w t'). split; [|split; [|split]].
    + rewrite <- E. rewrite Ees in Hcur. eapply backupRoot_copy. exact Hcur.
    + apply fsOnly_with_fs.
    + cbn [fs with_fs]. now rewrite Hbk in Hout.
    + right. cbn [fs with_fs]. rewrite Hbk in Hat.
      eapply lookup_snoc_dirAt. exact Hat.
Qed.

(** A live root is removed and the source copied into its place. *)
Lemma replaceRoot_copy h s d w es n :
  lookup (fs w) (segments h s) = Some (Dir es) -> NoDup (names es) ->
  lookup (fs w) (segments h d) = Some n ->
  incomparable (segments h d) (segments h s) ->
  cpFault w s d = None ->
  exists t',
    replaceRoot h true s d w = (Ret tt, with_fs w t')
    /\ lookup t' (segments h d) = Some (touch (now w) (Dir es))
    /\ sameOutside (segments h d) (fs w) t'.
Proof.
  intros Hs Hnd Hd Hi Hf.
  destruct (TreeFacts.incomparable_nonroot _ _ Hi) as [Hne _].
  pose proof (TreeFacts.lookupo_Some_not_blocked _ _ _ Hd
              : blocked (fs w) (segments h d) = false) as Hb.
  set (t1 := alter (fun _ => None) (segments h d) (fs w)).
  destruct (copyDir_fresh h s d (with_fs w t1) es) as (t' & E & Hat & Hout);
    try assumption.
  - cbn [fs with_fs]. unfold t1. now rewrite TreeFacts.lookup_alter_frame.
  - cbn [fs with_fs]. now apply lookup_removed.
  - cbn [fs with_fs]. now apply blocked_alter_same.
  - exists t'. split; [|split].
    + unfold replaceRoot. cbn [when].
      rewrite (bind_ret_run _ _ w tt (with_fs w t1)) by now apply swallow_rm.
      exact E.
    + exact Hat.
    + eapply sameOutside_trans; [apply sameOutside_alter|exact Hout].
Qed.

(** The place of the migration marker. *)
Lemma flag_segments h dir :
  Path.isAbsolute dir = true ->
  segments h (Path.join3 dir "_p" "_migrated.json")
  = segments h dir ++ flagPath.
Proof.
  intros Ha. unfold Path.join3.
  rewrite segments_join, segments_join, <- app_assoc;
    [reflexivity|assumption|reflexivity
    |now apply join_abs_isAbsolute|reflexivity].
Qed.

(** The marker is cleared where there is one. *)
Lemma clear_flag h dir w now0 xs :
  Path.isAbsolute dir = true -> segments h dir <> [] ->
  lookup (fs w) (segments h dir) = Some (touch now0 (Dir xs)) ->
  (forall es, lookup (Dir xs) flagPath <> Some (Dir es)) ->
  exists t',
    (flagged <- existsSync h (Path.join3 dir "_p" "_migrated.json") ;;
     when flagged (unlinkSync h (Path.join3 dir "_p" "_migrated.json")))%js w
    = (Ret tt, with_fs w t')
    /\ lookup t' (segments h dir) = Some (imported now0 xs)
    /\ sameOutside (segments h dir) (fs w) t'.
Proof.
  intros Ha Hne Hd Hfile.
  pose proof (flag_segments h dir Ha) as Hseg.
  assert (Hat : lookup (fs w) (segments h dir ++ flagPath)
                = option_map (touch now0) (lookup (Dir xs) flagPath)).
  { unfold lookup at 1. rewrite TreeFacts.lookupo_app.
    fold (lookup (fs w) (segments h dir)). rewrite Hd.
    apply lookup_touch. }
  unfold existsSync. rewrite bind_gets, Hseg, Hat. unfold imported.
  destruct (lookup (Dir xs) flagPath) as [[m d|es]|] eqn:Ef;
    [|now destruct (Hfile es)|].
  - cbn [option_map when]. unfold unlinkSync. rewrite Hseg, Hat.
    cbn [option_map touch].
    eexists. split; [reflexivity|]. split.
    + rewrite TreeFacts.lookup_alter_above;
        [|now destruct (segments h dir)
         |exact (TreeFacts.lookupo_Some_not_blocked _ _ _ Hd)].
      rewrite Hd. now apply upd_alter.
    + intros q Hq. apply TreeFacts.lookup_alter_frame.
      now apply incomparable_app_l.
  - cbn [option_map when]. exists (fs w).
    split; [unfold ret; now destruct w|].
    split; [exact Hd|apply sameOutside_refl].
Qed.

(** After the backup directory has been removed nothing stands there. *)
Lemma backup_removed h dir w :
  segments h dir <> [] ->
  exists t',
    swallow (removeDir h dir) w = (Ret tt, with_fs w t')
    /\ lookup t' (segments h dir) = None
    /\ sameOutside (segments h dir) (fs w) t'.
Proof.
  intros Hne. unfold swallow, tryCatch, removeDir, rm.
  destruct (blocked (fs w) (segments h dir)) eqn:Hb.
  - exists (fs w). split; [unfold ret; now destruct w|].
    split; [now apply blockedo_lookupo|apply sameOutside_refl].
  - eexists. split; [reflexivity|].
    split; [now apply lookup_removed|apply sameOutside_alter].
Qed.

End SwapFacts.

(** X23.  [storage-import-data] from a directory that has both
    [projects/] and [media/], lies apart from the live roots, and meets
    no failing copy: the handler answers with success; the project root
    holds the names and bytes of the source's [projects/], without the
    migration marker [_p/_migrated.json]; the media root holds the names
    and bytes of the source's [media/]; the backup directory is gone, the
    source is as it was and the Config Store is unchanged.  Roots and
    source directories have entries with distinct names, the marker of the
    source, if any, is a regular file, and the backup directory is free
    and apart from roots and source. *)
Theorem import_data_replaces_roots
        (h : Host) (sourcePath : string) (w : World)
        (ps ms xs ys : Tree.entries_t) :
  let source := normalizePath h sourcePath in
  let base := getStorageBasePath h (storageConfig w) in
  let projectsDir := Path.join base "projects" in
  let mediaDir := Path.join base "media" in
  let backupDir :=
    Path.join (tmpdir h) ("moyin-backup-" ++ JsString.ofZ (now w)) in
  let at_ (v : World) (p : string) := Tree.lookup (fs v) (segments h p) in
  hostOk h -> sourcePath <> "" ->
  at_ w (Path.join source "projects") = Some (Tree.Dir xs) ->
  NoDup (Tree.names xs) ->
  (forall es, Tree.lookup (Tree.Dir xs) flagPath <> Some (Tree.Dir es)) ->
  at_ w (Path.join source "media") = Some (Tree.Dir ys) ->
  NoDup (Tree.names ys) ->
  at_ w projectsDir = Some (Tree.Dir ps) -> NoDup (Tree.names ps) ->
  at_ w mediaDir = Some (Tree.Dir ms) -> NoDup (Tree.names ms) ->
  at_ w backupDir = None ->
  Tree.blocked (fs w) (segments h backupDir) = false ->
  Tree.incomparable (segments h source) (segments h projectsDir) ->
  Tree.incomparable (segments h source) (segments h mediaDir) ->
  Tree.incomparable (segments h backupDir) (segments h projectsDir) ->
  Tree.incomparable (segments h backupDir) (segments h mediaDir) ->
  Tree.incomparable (segments h backupDir) (segments h source) ->
  cpFault w projectsDir (Path.join backupDir "projects") = None ->
  cpFault w mediaDir (Path.join backupDir "media") = None ->
  cpFault w (Path.join source "projects") projectsDir = None ->
  cpFault w (Path.join source "media") mediaDir = None ->
  exists w',
    storage_import_data h sourcePath w = (Ret (succeeded None), w')
    /\ at_ w' projectsDir = Some (imported (now w) xs)
    /\ at_ w' mediaDir = Some (Tree.touch (now w) (Tree.Dir ys))
    /\ at_ w' backupDir = None
    /\ at_ w' (Path.join source "projects") = Some (Tree.Dir xs)
    /\ at_ w' (Path.join source "media") = Some (Tree.Dir ys)
    /\ sameConfig w w'.
Proof.
  intros source base projectsDir mediaDir backupDir at_
         Hh Hne Hxs Hxd Hflag Hys Hyd Hps Hpd Hms Hmd Hfree Hreach
         HSP HSM HBP HBM HBS HfBp HfBm HfP HfM.
  unfold at_ in *.
  assert (Hc : Path.isAbsolute (cwd h) = true) by apply Hh.
  assert (Hsrc : Path.isAbsolute source = true)
    by now apply normalizePath_isAbsolute.
  assert (Hbase : Path.isAbsolute base = true)
    by now apply getStorageBasePath_isAbsolute.
  assert (Hbk : Path.isAbsolute backupDir = true)
    by (apply join_isAbsolute, Hh).
  assert (Hpa : Path.isAbsolute projectsDir = true)
    by now apply join_isAbsolute.
  set (S := segments h source) in *.
  set (P := segments h projectsDir) in *.
  set (Mr := segments h mediaDir) in *.
  set (B := segments h backupDir) in *.
  assert (ESP : segments h (Path.join source "projects") = (S ++ ["projects"])%list)
    by now apply segments_join.
  assert (ESM : segments h (Path.join source "media") = (S ++ ["media"])%list)
    by now apply segments_join.
  assert (EBp : segments h (Path.join backupDir "projects")
                = (B ++ ["projects"])%list) by now apply segments_join.
  assert (EBm : segments h (Path.join backupDir "media")
                = (B ++ ["media"])%list) by now apply segments_join.
  rewrite ESP in Hxs. rewrite ESM in Hys.
  set (SP := (S ++ ["projects"])%list) in *.
  set (SM := (S ++ ["media"])%list) in *.
  set (Bp := (B ++ ["projects"])%list) in *.
  set (Bm := (B ++ ["media"])%list) in *.
  assert (HPM : Tree.incomparable P Mr)
    by (apply RootFacts.roots_apart; exact Hh).
  assert (HSPP : Tree.incomparable SP P)
    by now apply CopyFacts.incomparable_snoc_l.
  assert (HSPM : Tree.incomparable SP Mr)
    by now apply CopyFacts.incomparable_snoc_l.
  assert (HSMP : Tree.incomparable SM P)
    by now apply CopyFacts.incomparable_snoc_l.
  assert (HSMM : Tree.incomparable SM Mr)
    by now apply CopyFacts.incomparable_snoc_l.
  assert (HBSP : Tree.incomparable B SP)
    by (apply incomparable_sym, CopyFacts.incomparable_snoc_l;
        now apply incomparable_sym).
  assert (HBSM : Tree.incomparable B SM)
    by (apply incomparable_sym, CopyFacts.incomparable_snoc_l;
        now apply incomparable_sym).
  assert (Hsib : Tree.incomparable Bp Bm)
    by (apply siblings_apart; discriminate).
  assert (HBne : B <> []) by (destruct HBP as [HB _]; now destruct B).
  (* the two live roots are put aside *)
  destruct (SwapFacts.backup_one h projectsDir (Path.join backupDir "projects")
              w B "projects" ps EBp Hps Hpd HBP)
    as (w1 & E1 & [t1 ->] & Ho1 & Hd1);
    [now apply CopyFacts.lookup_below_absent
    |now apply blocked_below_free|exact HfBp|].
  cbn [fs with_fs] in Ho1, Hd1. fold Bp in Ho1.
  assert (H1Bm : Tree.lookup t1 Bm = None).
  { rewrite Ho1 by exact Hsib. now apply CopyFacts.lookup_below_absent. }
  assert (Hb1 : Tree.blocked t1 Bm = false).
  { destruct Hd1 as [->|[bs Hbs]];
      [now apply blocked_below_free|eapply blocked_child; exact Hbs]. }
  destruct (SwapFacts.backup_one h mediaDir (Path.join backupDir "media")
              (with_fs w t1) B "media" ms EBm)
    as (w2 & E2 & [t2 ->] & Ho2 & _); cbn [fs with_fs cpFault];
    [ fold Mr; rewrite Ho1 by now apply CopyFacts.incomparable_snoc_l
    | | | | | | ]; try assumption.
  cbn [fs with_fs] in Ho2. fold Bm in Ho2.
  assert (Hkeep : forall q, Tree.incomparable B q ->
                            Tree.lookup t2 q = Tree.lookup (fs w) q).
  { intros q Hq. rewrite Ho2, Ho1 by now apply CopyFacts.incomparable_snoc_l.
    reflexivity. }
  (* the project root is replaced *)
  destruct (SwapFacts.replaceRoot_copy h (Path.join source "projects")
              projectsDir (with_fs w t2) xs (Tree.Dir ps))
    as (t3 & E3 & H3P & Ho3); cbn [fs with_fs cpFault now];
    rewrite ?ESP; fold SP P;
    [ now rewrite Hkeep | assumption | now rewrite Hkeep
    | now apply incomparable_sym | assumption | ].
  cbn [fs with_fs now] in H3P, Ho3. fold P in H3P, Ho3.
  (* the media root is replaced *)
  destruct (SwapFacts.replaceRoot_copy h (Path.join source "media")
              mediaDir (with_fs w t3) ys (Tree.Dir ms))
    as (t4 & E4 & H4M & Ho4); cbn [fs with_fs cpFault now];
    rewrite ?ESM; fold SM Mr;
    [ rewrite Ho3 by (now apply incomparable_sym); now rewrite Hkeep
    | assumption
    | rewrite Ho3 by assumption; now rewrite Hkeep
    | now apply incomparable_sym | assumption | ].
  cbn [fs with_fs now] in H4M, Ho4. fold Mr in H4M, Ho4.
  assert (H4P : Tree.lookup t4 P = Some (Tree.touch (now w) (Tree.Dir xs)))
    by (rewrite Ho4 by (now apply incomparable_sym); exact H3P).
  (* the marker is cleared and the backup directory removed *)
  destruct (SwapFacts.clear_flag h projectsDir (with_fs w t4) (now w) xs)
    as (t5 & E5 & H5P & Ho5); cbn [fs with_fs]; fold P;
    [ assumption | destruct HPM as [HP _]; now destruct P
    | assumption | assumption | ].
  cbn [fs with_fs] in H5P, Ho5. fold P in H5P, Ho5.
  destruct (SwapFacts.backup_removed h backupDir (with_fs w t5))
    as (t6 & E6 & H6B & Ho6); [exact HBne|].
  cbn [fs with_fs] in H6B, Ho6. fold B in H6B, Ho6.
  exists (with_fs w t6). split.
  - rewrite (ImportSteps.import_with_projects h sourcePath w
               (Tree.Dir xs) (Tree.Dir ps) (Tree.Dir ms) Hne);
      [|fold source; rewrite ESP; exact Hxs|exact Hps|exact Hms].
    cbv zeta. fold source base projectsDir mediaDir backupDir.
    rewrite ESM. fold SM. rewrite Hys.
    assert (Hswap : importSwap h true true (Path.join source "projects")
                      (Path.join source "media") projectsDir mediaDir
                      backupDir w
                    = (Ret (succeeded None), with_fs w t6)).
    { unfold importSwap.
      rewrite (ImportSteps.bind_ret_run _ _ w tt _ E1).
      rewrite (ImportSteps.bind_ret_run _ _ _ tt _ E2).
      rewrite (ImportSteps.bind_ret_run _ _ _ tt _ E3).
      rewrite (ImportSteps.bind_ret_run _ _ _ tt _ E4).
      cbv zeta.
      change (with_fs (with_fs w t3) t4) with (with_fs w t4).
      assert (E5' := E5). unfold bind at 1 in E5'. unfold bind at 1.
      destruct (existsSync h (Path.join3 projectsDir "_p" "_migrated.json")
                           (with_fs w t4)) as [[flagged|e] v]; [|discriminate].
      rewrite (ImportSteps.bind_ret_run _ _ _ tt _ E5').
      now rewrite (ImportSteps.bind_ret_run _ _ _ tt _ E6). }
    unfold tryCatch. now rewrite Hswap.
  - cbn [fs with_fs].
    split; [rewrite Ho6 by assumption; exact H5P|].
    split; [rewrite Ho6, Ho5 by assumption; exact H4M|].
    split; [exact H6B|].
    split; [rewrite Ho6, Ho5, Ho4, Ho3, Hkeep
              by (assumption || now apply incomparable_sym); exact Hxs|].
    split; [rewrite Ho6, Ho5, Ho4, Ho3, Hkeep
              by (assumption || now apply incomparable_sym); exact Hys|].
    apply sameConfig_with_fs.
Qed.

Lemma import_data_replaces_roots_witness :
  exists w',
    storage_import_data Sample.host "/src3" Sample.world
    = (Ret (succeeded None), w')
    /\ Tree.lookup (fs w') ["data"; "base"; "projects"]
       = Some (Tree.Dir [ ("q.json", Tree.File 99999999999 "Q") ])
    /\ Tree.lookup (fs w') ["data"; "base"; "media"]
       = Some (Tree.Dir [ ("k.png", Tree.File 99999999999 "KK") ])
    /\ Tree.lookup (fs w') ["tmp"; "moyin-backup-99999999999"] = None.
Proof.
  destruct (import_data_replaces_roots
              Sample.host "/src3" Sample.world
              [ ("a.json", Tree.File 1 "A");
                ("_p", Tree.Dir [ ("_migrated.json", Tree.File 1 "x");
                                  ("p1", Tree.Dir []) ]) ]
              [ ("m.png", Tree.File 2 "MM") ]
              [ ("q.json", Tree.File 4 "Q") ]
              [ ("k.png", Tree.File 4 "KK") ])
    as (w' & E & HP & HM & HB & _);
    [ repeat split
    | discriminate
    | reflexivity
    | repeat constructor; simpl; intuition discriminate
    | intros es; discriminate
    | reflexivity
    | repeat constructor; simpl; intuition discriminate
    | reflexivity
    | repeat constructor; simpl; intuition discriminate
    | reflexivity
    | repeat constructor; simpl; intuition discriminate
    | reflexivity
    | reflexivity
    | split; reflexivity
    | split; reflexivity
    | split; reflexivity
    | split; reflexivity
    | split; reflexivity
    | reflexivity
    | reflexivity
    | reflexivity
    | reflexivity
    | ].
  exists w'. split; [exact E|]. split; [exact HP|]. split; [exact HM|exact HB].
Defined.
